(** * hhaitam/covid: the monthly fetcher and the dashboard

    A shallow embedding of [fetch.py] and [project.py], followed by the
    properties proved of it.

    - [PyDate] models [datetime.date]: a (year, month, day) triple, ordered as
      a tuple, with the proleptic Gregorian ordinal used by date subtraction
      and the fallible [replace] (ValueError outside 1..9999 or on a day the
      month does not have).
    - [Fetcher] models the script body of [fetch.py]: the [while] loop that
      calls [fetch_data_for_date] once per iteration and then moves to the
      first day of the next month. The endpoint is a parameter of the loop.
    - [PyLiteral] models [str] of the values [response.json()] yields and
      [ast.literal_eval]; [Csv] models the text [to_csv] writes and the
      tokenizer of [read_csv]; [Snapshot] puts them together for the file
      the fetcher saves.
    - [Frame] and [Dashboard] model [load_data], [process_data] and [main] of
      [project.py] over tables that are lists of rows. Dataframes live in a
      store and are passed by reference, so that the assignment to
      [df['date']] inside [process_data] is seen by the caller; a run of
      [main] yields the sequence of Streamlit calls it makes.
    - [FetchLog], [Tables] and [Reload] hold the notions the properties are
      stated with: what a request brings in, the calendar date of a cell,
      the chosen rows and their groups, when counts add up exactly, and
      what is used of [pd.read_csv].

    A count is an integer and a missing numeric cell (NaN) is [None]. A
    column of counts without a missing cell is int64 and its sums wrap
    around; a column with a missing cell is float64, whose sums are taken
    as a parameter that is exact up to 2^53. Cells written with a decimal
    point or an exponent, and integers outside int64, are not modelled. A
    string is the sequence of its code points, each below 256. Group keys
    (dates, names, ISO codes) are never missing. *)

From Stdlib Require Import ZArith List Bool Lia String Ascii.
From Stdlib Require Import Sorted OrdersEx Wf_nat.
From Stdlib Require DecimalFacts DecimalZ.
From stdpp Require Import base option list gmap strings.

Local Open Scope Z_scope.

(* ===================================================================== *)
(** ** datetime.date *)
(* ===================================================================== *)

Module PyDate.

Record date := mkdate { year : Z; month : Z; day : Z }.

Definition MINYEAR : Z := 1.
Definition MAXYEAR : Z := 9999.

(** [_is_leap]: year % 4 == 0 and (year % 100 != 0 or year % 400 == 0) *)
Definition is_leap (y : Z) : bool :=
  (y mod 4 =? 0) && (negb (y mod 100 =? 0) || (y mod 400 =? 0)).

(** [_days_in_month] *)
Definition days_in_month (y m : Z) : Z :=
  if (m =? 2) && is_leap y then 29
  else match m with
       | 1 => 31 | 2 => 28 | 3 => 31 | 4 => 30 | 5 => 31 | 6 => 30
       | 7 => 31 | 8 => 31 | 9 => 30 | 10 => 31 | 11 => 30 | 12 => 31
       | _ => 0
       end.

(** [_check_date_fields]: the test every constructor of a date runs. *)
Definition check_date_fields (y m d : Z) : bool :=
  (MINYEAR <=? y) && (y <=? MAXYEAR) &&
  (1 <=? m) && (m <=? 12) &&
  (1 <=? d) && (d <=? days_in_month y m).

Definition valid (x : date) : Prop :=
  check_date_fields (year x) (month x) (day x) = true.

(** [date(y, m, d)]: [None] stands for the ValueError. *)
Definition make (y m d : Z) : option date :=
  if check_date_fields y m d then Some (mkdate y m d) else None.

(** [d.replace(year=y, month=m, day=dd)] builds a new date from the three
    fields and so runs the same check. *)
Definition replace (_ : date) (y m d : Z) : option date := make y m d.

(** Comparison of dates is comparison of the (year, month, day) tuples. *)
Definition compare (a b : date) : comparison :=
  match year a ?= year b with
  | Eq => match month a ?= month b with
          | Eq => day a ?= day b
          | c => c
          end
  | c => c
  end.

Definition leb (a b : date) : bool :=
  match compare a b with Gt => false | _ => true end.
Definition ltb (a b : date) : bool :=
  match compare a b with Lt => true | _ => false end.

Definition le (a b : date) : Prop := leb a b = true.
Definition lt (a b : date) : Prop := ltb a b = true.

(** [_days_before_year], [_days_before_month], [_ymd2ord] *)
Definition days_before_year (y : Z) : Z :=
  let y' := y - 1 in y' * 365 + y' / 4 - y' / 100 + y' / 400.

Definition days_before_month (y m : Z) : Z :=
  (match m with
   | 1 => 0 | 2 => 31 | 3 => 59 | 4 => 90 | 5 => 120 | 6 => 151
   | 7 => 181 | 8 => 212 | 9 => 243 | 10 => 273 | 11 => 304 | 12 => 334
   | _ => 0
   end) + (if (2 <? m) && is_leap y then 1 else 0).

Definition toordinal (x : date) : Z :=
  days_before_year (year x) + days_before_month (year x) (month x) + day x.

(** [(b - a).days] *)
Definition days_between (a b : date) : Z := toordinal b - toordinal a.

(** The number of the calendar month a date lies in, counted from year 0. *)
Definition month_index (x : date) : Z := 12 * year x + (month x - 1).

(** The first day of the calendar month with a given index. *)
Definition first_of_month (i : Z) : date := mkdate (i / 12) (i mod 12 + 1) 1.

End PyDate.

Import PyDate.

(* ===================================================================== *)
(** ** fetch.py *)
(* ===================================================================== *)

Module Fetcher.

(** What the endpoint answers to one GET: a status code and, in the JSON
    body, the [data] array. *)
Record response (R : Type) := mkresp { status_code : Z; body_data : list R }.
Arguments mkresp {R} _ _.
Arguments status_code {R} _.
Arguments body_data {R} _.

(** How a loop run ends: the condition failed, [replace] raised ValueError,
    or the interpreter's fuel ran out. *)
Inductive outcome := Finished | ValueError | OutOfFuel.

Section Loop.
Context {R : Type}.
(** The remote endpoint, by requested date. *)
Variable api : date -> response R.

(** The script's state: the dates GET was issued for (oldest first),
    the lines printed for failed dates, and [all_data]. *)
Record state := mkstate {
  requests : list date;
  failures : list date;
  all_data : list R
}.

Definition init : state := mkstate [] [] [].

(** [fetch_data_for_date]: one GET; the data on 200, otherwise a printed
    failure and None. *)
Definition fetch_data_for_date (d : date) (st : state) : state * option (list R) :=
  let r := api d in
  let st1 := mkstate (requests st ++ [d]) (failures st) (all_data st) in
  if status_code r =? 200 then (st1, Some (body_data r))
  else (mkstate (requests st1) (failures st1 ++ [d]) (all_data st1), None).

(** [if data: all_data.extend(data)]: None and the empty list are falsy. *)
Definition extend_if (data : option (list R)) (st : state) : state :=
  match data with
  | Some (x :: l) => mkstate (requests st) (failures st) (all_data st ++ x :: l)
  | _ => st
  end.

(** Lines 30-33: move to the first day of the next month. *)
Definition advance (current_date : date) : option date :=
  if month current_date =? 12
  then replace current_date (year current_date + 1) 1 1
  else replace current_date (year current_date) (month current_date + 1) 1.

(** The [while current_date <= end_date] loop, lines 23-33. *)
Fixpoint loop (fuel : nat) (end_date current_date : date) (st : state)
  : state * outcome :=
  match fuel with
  | O => (st, OutOfFuel)
  | S fuel' =>
      if PyDate.leb current_date end_date then
        let '(st1, data) := fetch_data_for_date current_date st in
        let st2 := extend_if data st1 in
        match advance current_date with
        | Some next => loop fuel' end_date next st2
        | None => (st2, ValueError)
        end
      else (st, Finished)
  end.

(** Lines 21-33 for a given date range. *)
Definition run (fuel : nat) (start_date end_date : date) : state * outcome :=
  loop fuel end_date start_date init.

End Loop.

(** Lines 17-18. *)
Definition start_date : date := mkdate 2020 3 9.
Definition end_date : date := mkdate 2023 3 9.

(** The number of calendar months a range touches. *)
Definition months_spanned (a b : date) : Z := month_index b - month_index a + 1.

(** The last month a date can lie in: December 9999. *)
Definition last_index : Z := 12 * MAXYEAR + 11.

(** The first days of the [k] months that follow month [i]. *)
Definition later_firsts (i : Z) (k : nat) : list date :=
  map (fun n => first_of_month (i + Z.of_nat n)) (seq 1 k).

(** The dates the spec expects to be requested: the literal start date, then
    the first day of each later month up to the month of the end date. *)
Definition expected_requests (a b : date) : list date :=
  a :: later_firsts (month_index a) (Z.to_nat (months_spanned a b) - 1).

(** An endpoint that answers every date with 200 and no records. *)
Definition empty_api : date -> response unit := fun _ => mkresp 200 [].

End Fetcher.

(* ===================================================================== *)
(** ** Python literals: str() of a JSON value and ast.literal_eval *)
(* ===================================================================== *)

Module PyLiteral.

Local Open Scope char_scope.
Local Open Scope list_scope.

(** The values [response.json()] produces, floats apart: None, booleans,
    integers, strings, lists, and dicts with string keys (a dict as the
    list of its items, in insertion order). A string is the sequence of its
    code points, each below 256. *)
#[local] Set Warnings "-register-all".

Inductive pyval :=
| PyNone
| PyBool (b : bool)
| PyInt (z : Z)
| PyStr (s : string)
| PyList (l : list pyval)
| PyDict (items : list (string * pyval)).

Definition text := list ascii.

Definition dquote : ascii := "034".
Definition squote : ascii := "'".
Definition backslash : ascii := "\".
Definition TAB : ascii := "009".
Definition LF : ascii := "010".
Definition FF : ascii := "012".
Definition CR : ascii := "013".

Definition code (c : ascii) : N := N_of_ascii c.

(** Case analysis on the eight bits of a character. *)
Ltac each_char c := destruct c as [[] [] [] [] [] [] [] []].

Definition has (c : ascii) (s : text) : bool := existsb (Ascii.eqb c) s.

(** *** repr *)

(** repr of a str uses single quotes unless the string holds a single quote
    and no double quote. *)
Definition choose_quote (s : text) : ascii :=
  if has squote s && negb (has dquote s) then dquote else squote.

(** Code points below 256 that str.isprintable rejects: the C0 and C1
    controls, DEL, the no-break space and the soft hyphen. *)
Definition nonprintable (c : ascii) : bool :=
  let n := code c in
  ((n <? 32) || ((127 <=? n) && (n <=? 160)) || (n =? 173))%N.

Definition hex_digit (n : N) : ascii :=
  match n with
  | 0 => "0" | 1 => "1" | 2 => "2" | 3 => "3" | 4 => "4" | 5 => "5"
  | 6 => "6" | 7 => "7" | 8 => "8" | 9 => "9" | 10 => "a" | 11 => "b"
  | 12 => "c" | 13 => "d" | 14 => "e" | _ => "f"
  end%N.

Definition escape_char (q c : ascii) : text :=
  if Ascii.eqb c q || Ascii.eqb c backslash then [backslash; c]
  else if Ascii.eqb c TAB then [backslash; "t"]
  else if Ascii.eqb c LF then [backslash; "n"]
  else if Ascii.eqb c CR then [backslash; "r"]
  else if nonprintable c
       then [backslash; "x"; hex_digit (code c / 16); hex_digit (code c mod 16)]
  else [c].

Definition repr_str (s : string) : text :=
  let l := list_ascii_of_string s in
  let q := choose_quote l in
  q :: flat_map (escape_char q) l ++ [q].

Fixpoint show_uint (d : Decimal.uint) : text :=
  match d with
  | Decimal.Nil => []
  | Decimal.D0 d => "0" :: show_uint d
  | Decimal.D1 d => "1" :: show_uint d
  | Decimal.D2 d => "2" :: show_uint d
  | Decimal.D3 d => "3" :: show_uint d
  | Decimal.D4 d => "4" :: show_uint d
  | Decimal.D5 d => "5" :: show_uint d
  | Decimal.D6 d => "6" :: show_uint d
  | Decimal.D7 d => "7" :: show_uint d
  | Decimal.D8 d => "8" :: show_uint d
  | Decimal.D9 d => "9" :: show_uint d
  end.

Definition repr_int (z : Z) : text :=
  match Z.to_int z with
  | Decimal.Pos d => show_uint d
  | Decimal.Neg d => "-" :: show_uint d
  end.

(** [', '.join] *)
Fixpoint join (sep : text) (parts : list text) : text :=
  match parts with
  | [] => []
  | [p] => p
  | p :: ps => p ++ sep ++ join sep ps
  end.

Fixpoint repr (v : pyval) : text :=
  match v with
  | PyNone => ["N"; "o"; "n"; "e"]
  | PyBool true => ["T"; "r"; "u"; "e"]
  | PyBool false => ["F"; "a"; "l"; "s"; "e"]
  | PyInt z => repr_int z
  | PyStr s => repr_str s
  | PyList l => "[" :: join [","; " "] (map repr l) ++ ["]"]
  | PyDict items =>
      "{" :: join [","; " "]
                  (map (fun kv => repr_str (fst kv) ++ [":"; " "] ++ repr (snd kv)) items)
          ++ ["}"]
  end.

(** *** The limits of the interpreter *)

(** An integer of more than 4300 decimal digits is neither written nor
    read (sys.int_info.default_max_str_digits), and the tokenizer refuses
    brackets nested more than 200 deep. *)
Definition max_str_digits : nat := 4300.
Definition max_nesting : nat := 200.

Definition digits_ok (d : Decimal.uint) : bool :=
  Nat.leb (Decimal.nb_digits d) max_str_digits.

Definition int_ok (z : Z) : bool :=
  match Z.to_int z with
  | Decimal.Pos d => digits_ok d
  | Decimal.Neg d => digits_ok d
  end.

(** Every integer of a value can be written. *)
Fixpoint ints_ok (v : pyval) : bool :=
  match v with
  | PyInt z => int_ok z
  | PyList l => forallb ints_ok l
  | PyDict items => forallb (fun kv => ints_ok (snd kv)) items
  | _ => true
  end.

(** How deep the brackets of a value nest. *)
Fixpoint depth (v : pyval) : nat :=
  match v with
  | PyList l => S (fold_right (fun x acc => Nat.max (depth x) acc) O l)
  | PyDict items => S (fold_right (fun kv acc => Nat.max (depth (snd kv)) acc) O items)
  | _ => O
  end.

(** [str(v)]: a str is its own text; any other value gives its repr.
    [None] stands for the ValueError on an integer that is too long. (The
    RecursionError on a value nested deeper than the recursion limit of
    the interpreter is not modelled; [response.json()] does not return
    such a value either.) *)
Definition py_str (v : pyval) : option string :=
  if ints_ok v then
    Some (match v with
          | PyStr s => s
          | _ => string_of_list_ascii (repr v)
          end)
  else None.

(** *** ast.literal_eval

    The parser covers the literal syntax [str] writes for the values
    above: None, True, False, signed decimal integers, quoted strings with
    the escapes below, lists and dicts with string-literal keys, with
    spaces and tabs between tokens and an optional trailing comma. Texts
    in another literal syntax (floats, tuples, sets, bytes, numbers with
    underscores or a base prefix, adjacent or prefixed strings) are not
    covered: the parser below reports them as malformed, and nothing is
    claimed of them. *)

Definition is_space (c : ascii) : bool := Ascii.eqb c " " || Ascii.eqb c TAB.

Fixpoint skip_ws (s : text) : text :=
  match s with
  | c :: r => if is_space c then skip_ws r else s
  | [] => []
  end.

Definition is_digit (c : ascii) : bool := ((48 <=? code c) && (code c <=? 57))%N.

(** A character that continues a name or a number. *)
Definition is_ident_char (c : ascii) : bool :=
  let n := code c in
  (is_digit c || ((65 <=? n) && (n <=? 90)) || ((97 <=? n) && (n <=? 122))
   || (n =? 95) || (128 <=? n))%N.

Definition at_boundary (s : text) : bool :=
  match s with
  | c :: _ => negb (is_ident_char c)
  | [] => true
  end.

Definition digit_of (c : ascii) : option (Decimal.uint -> Decimal.uint) :=
  match c with
  | "0" => Some Decimal.D0 | "1" => Some Decimal.D1 | "2" => Some Decimal.D2
  | "3" => Some Decimal.D3 | "4" => Some Decimal.D4 | "5" => Some Decimal.D5
  | "6" => Some Decimal.D6 | "7" => Some Decimal.D7 | "8" => Some Decimal.D8
  | "9" => Some Decimal.D9 | _ => None
  end.

Fixpoint read_uint (s : text) : Decimal.uint * text :=
  match s with
  | c :: r =>
      match digit_of c with
      | Some f => let '(d, r') := read_uint r in (f d, r')
      | None => (Decimal.Nil, s)
      end
  | [] => (Decimal.Nil, [])
  end.

Fixpoint all_zero (d : Decimal.uint) : bool :=
  match d with
  | Decimal.Nil => true
  | Decimal.D0 d => all_zero d
  | _ => false
  end.

(** A decimal integer literal: at least one digit, no leading zero unless
    every digit is zero, at most 4300 digits otherwise, and no name or
    number character right after. *)
Definition parse_nat (s : text) : option (Z * text) :=
  let '(d, r) := read_uint s in
  match d with
  | Decimal.Nil => None
  | _ =>
      if (match d with Decimal.D0 d' => all_zero d' | _ => digits_ok d end)
         && at_boundary r
      then Some (Z.of_uint d, r) else None
  end.

Definition hex_value (c : ascii) : option N :=
  let n := code c in
  if is_digit c then Some (n - 48)%N
  else if ((97 <=? n) && (n <=? 102))%N then Some (n - 87)%N
  else if ((65 <=? n) && (n <=? 70))%N then Some (n - 55)%N
  else None.

(** The body of a string literal opened with quote [q], up to the closing
    quote. *)
Fixpoint parse_str_body (q : ascii) (s : text) : option (text * text) :=
  match s with
  | [] => None
  | c :: r =>
      if Ascii.eqb c q then Some ([], r)
      else if Ascii.eqb c backslash then
        match r with
        | "x" :: h1 :: h2 :: r' =>
            match hex_value h1, hex_value h2 with
            | Some a, Some b =>
                '(body, rest) ← parse_str_body q r';
                Some (ascii_of_N (16 * a + b) :: body, rest)
            | _, _ => None
            end
        | e :: r' =>
            match (if Ascii.eqb e backslash then Some backslash
                   else if Ascii.eqb e squote then Some squote
                   else if Ascii.eqb e dquote then Some dquote
                   else if Ascii.eqb e "n" then Some LF
                   else if Ascii.eqb e "r" then Some CR
                   else if Ascii.eqb e "t" then Some TAB
                   else if Ascii.eqb e "a" then Some "007"
                   else if Ascii.eqb e "b" then Some "008"
                   else if Ascii.eqb e "f" then Some FF
                   else if Ascii.eqb e "v" then Some "011"
                   else None) with
            | Some c' =>
                '(body, rest) ← parse_str_body q r';
                Some (c' :: body, rest)
            | None => None
            end
        | [] => None
        end
      else if Ascii.eqb c LF || Ascii.eqb c CR || Ascii.eqb c "000" then None
      else
        '(body, rest) ← parse_str_body q r;
        Some (c :: body, rest)
  end.

Definition parse_str (s : text) : option (string * text) :=
  match s with
  | q :: r =>
      if Ascii.eqb q squote || Ascii.eqb q dquote
      then '(body, rest) ← parse_str_body q r;
           Some (string_of_list_ascii body, rest)
      else None
  | [] => None
  end.

(** [s] with the word [w] removed from its front. *)
Fixpoint strip_prefix (w s : text) : option text :=
  match w, s with
  | [], _ => Some s
  | a :: w', c :: s' => if Ascii.eqb a c then strip_prefix w' s' else None
  | _ :: _, [] => None
  end.

(** A name that must be one of None, True, False. *)
Definition parse_name (s : text) : option (pyval * text) :=
  match strip_prefix ["N"; "o"; "n"; "e"] s with
  | Some r => if at_boundary r then Some (PyNone, r) else None
  | None =>
      match strip_prefix ["T"; "r"; "u"; "e"] s with
      | Some r => if at_boundary r then Some (PyBool true, r) else None
      | None =>
          match strip_prefix ["F"; "a"; "l"; "s"; "e"] s with
          | Some r => if at_boundary r then Some (PyBool false, r) else None
          | None => None
          end
      end
  end.

Definition starts_with (c : ascii) (s : text) : bool :=
  match s with
  | c' :: _ => Ascii.eqb c c'
  | [] => false
  end.

Fixpoint parse_value (fuel : nat) (s : text) : option (pyval * text) :=
  match fuel with
  | O => None
  | S fuel =>
      match skip_ws s with
      | [] => None
      | c :: r =>
          if Ascii.eqb c "[" then
            if starts_with "]" (skip_ws r) then Some (PyList [], tl (skip_ws r))
            else '(l, r') ← parse_elems fuel r; Some (PyList l, r')
          else if Ascii.eqb c "{" then
            if starts_with "}" (skip_ws r) then Some (PyDict [], tl (skip_ws r))
            else '(l, r') ← parse_items fuel r; Some (PyDict l, r')
          else if Ascii.eqb c "-" then
            '(z, r') ← parse_nat (skip_ws r); Some (PyInt (- z), r')
          else if Ascii.eqb c "+" then
            '(z, r') ← parse_nat (skip_ws r); Some (PyInt z, r')
          else if is_digit c then
            '(z, r') ← parse_nat (c :: r); Some (PyInt z, r')
          else if Ascii.eqb c squote || Ascii.eqb c dquote then
            '(str, r') ← parse_str (c :: r); Some (PyStr str, r')
          else parse_name (c :: r)
      end
  end
with parse_elems (fuel : nat) (s : text) : option (list pyval * text) :=
  match fuel with
  | O => None
  | S fuel =>
      '(v, r) ← parse_value fuel s;
      let r1 := skip_ws r in
      if starts_with "]" r1 then Some ([v], tl r1)
      else if starts_with "," r1 then
        if starts_with "]" (skip_ws (tl r1)) then Some ([v], tl (skip_ws (tl r1)))
        else '(l, r') ← parse_elems fuel (tl r1); Some (v :: l, r')
      else None
  end
with parse_items (fuel : nat) (s : text) : option (list (string * pyval) * text) :=
  match fuel with
  | O => None
  | S fuel =>
      '(k, r0) ← parse_str (skip_ws s);
      if starts_with ":" (skip_ws r0) then
        '(v, r) ← parse_value fuel (tl (skip_ws r0));
        let r1 := skip_ws r in
        if starts_with "}" r1 then Some ([(k, v)], tl r1)
        else if starts_with "," r1 then
          if starts_with "}" (skip_ws (tl r1)) then Some ([(k, v)], tl (skip_ws (tl r1)))
          else '(l, r') ← parse_items fuel (tl r1); Some ((k, v) :: l, r')
        else None
      else None
  end.

(** A text whose first character can open a value: no blank, no closing
    bracket. *)
Definition value_start (s : text) : bool :=
  match s with
  | c :: _ => negb (is_space c) && negb (Ascii.eqb c "]") && negb (Ascii.eqb c "}")
  | [] => false
  end.

(** The fuel that parsing the repr of a value takes. *)
Fixpoint need (v : pyval) : nat :=
  match v with
  | PyList l => S (fold_right (fun x acc => S (need x + acc)) O l)
  | PyDict items => S (fold_right (fun kv acc => S (need (snd kv) + acc)) O items)
  | _ => 1
  end.

(** [ast.literal_eval(s)]: [None] stands for the exception on a malformed
    string, and on brackets nested too deep. *)
Definition literal_eval (s : string) : option pyval :=
  let t := list_ascii_of_string s in
  '(v, r) ← parse_value (S (length t)) t;
  match skip_ws r with
  | [] => if Nat.leb (depth v) max_nesting then Some v else None
  | _ => None
  end.

(** [d[k]] on a dict: the last item with that key; [None] stands for
    KeyError, and for TypeError when the value is not a dict. *)
Fixpoint dict_get (k : string) (items : list (string * pyval)) : option pyval :=
  match items with
  | [] => None
  | (k', v) :: rest =>
      match dict_get k rest with
      | Some v' => Some v'
      | None => if String.eqb k k' then Some v else None
      end
  end.

Definition subscript (v : pyval) (k : string) : option pyval :=
  match v with
  | PyDict items => dict_get k items
  | _ => None
  end.

End PyLiteral.

(* ===================================================================== *)
(** ** CSV text: what to_csv writes and read_csv tokenizes *)
(* ===================================================================== *)

Module Csv.
Import PyLiteral.

Local Open Scope char_scope.
Local Open Scope list_scope.

(** *** Writing (csv.writer with minimal quoting) *)

Definition is_newline (c : ascii) : bool := Ascii.eqb c LF || Ascii.eqb c CR.

(** The characters that force a field into quotes: the delimiter, the
    quote character and the line terminator, a line feed. A carriage
    return does not. *)
Definition special (c : ascii) : bool :=
  Ascii.eqb c "," || Ascii.eqb c dquote || Ascii.eqb c LF.

Definition needs_quotes (f : text) : bool := existsb special f.

Definition double_quotes (f : text) : text :=
  flat_map (fun c => if Ascii.eqb c dquote then [dquote; dquote] else [c]) f.

Definition write_field (f : text) : text :=
  if needs_quotes f then dquote :: double_quotes f ++ [dquote] else f.

(** One line. A record that is a single empty field is written as a pair of
    quotes, so that the line is not blank. *)
Definition write_record (fields : list text) : text :=
  match fields with
  | [[]] => [dquote; dquote; LF]
  | _ => join [","] (map write_field fields) ++ [LF]
  end.

Definition write_rows (rows : list (list text)) : text :=
  concat (map write_record rows).

(** A text without a carriage return. *)
Definition no_cr (f : text) : Prop := has CR f = false.

(** *** Reading (the tokenizer of read_csv) *)

Inductive mode := StartRecord | StartField | InField | InQuoted | QuoteInQuoted.

Record tok := mktok {
  tmode : mode;
  field : text;                  (* the field being read *)
  fields : list text;            (* the fields of the record being read *)
  records : list (list text)     (* the records read so far *)
}.

Definition init : tok := mktok StartRecord [] [] [].

Definition push (c : ascii) (m : mode) (st : tok) : tok :=
  mktok m (field st ++ [c]) (fields st) (records st).

Definition end_field (st : tok) : tok :=
  mktok StartField [] (fields st ++ [field st]) (records st).

Definition end_record (st : tok) : tok :=
  mktok StartRecord [] [] (records st ++ [fields st ++ [field st]]).

Definition enter (m : mode) (st : tok) : tok :=
  mktok m (field st) (fields st) (records st).

Definition step (st : tok) (c : ascii) : tok :=
  match tmode st with
  | StartRecord =>
      if is_newline c then st                       (* a blank line is skipped *)
      else if Ascii.eqb c dquote then enter InQuoted st
      else if Ascii.eqb c "," then end_field st
      else push c InField st
  | StartField =>
      if is_newline c then end_record st
      else if Ascii.eqb c dquote then enter InQuoted st
      else if Ascii.eqb c "," then end_field st
      else push c InField st
  | InField =>
      if is_newline c then end_record st
      else if Ascii.eqb c "," then end_field st
      else push c InField st
  | InQuoted =>
      if Ascii.eqb c dquote then enter QuoteInQuoted st
      else push c InQuoted st
  | QuoteInQuoted =>
      if Ascii.eqb c dquote then push dquote InQuoted st
      else if Ascii.eqb c "," then end_field st
      else if is_newline c then end_record st
      else push c InField st
  end.

Definition run (st : tok) (s : text) : tok := fold_left step s st.

(** Where the tokenizer stands after a field as the writer wrote it, read
    from the start of a field or record [m]. *)
Definition after_field (m : mode) (f : text) : mode :=
  if needs_quotes f then QuoteInQuoted
  else match f with [] => m | _ => InField end.

(** At the end of the input a record under way is closed. *)
Definition finish (st : tok) : list (list text) :=
  match tmode st with
  | StartRecord => records st
  | _ => records st ++ [fields st ++ [field st]]
  end.

Definition tokenize (s : text) : list (list text) := finish (run init s).

End Csv.

(* ===================================================================== *)
(** ** The snapshot file *)
(* ===================================================================== *)

Module Snapshot.
Import PyLiteral Csv.

(** One record of [all_data] as a row of the frame built from it: the
    region value, and the texts written for the columns to its left and to
    its right. *)
Record report := mkreport {
  left_cells : list text;
  region : pyval;
  right_cells : list text
}.

(** The other cells of a row hold no carriage return. *)
Definition clean (r : report) : Prop :=
  Forall no_cr (left_cells r) /\ Forall no_cr (right_cells r).

(** The text [to_csv] writes for a cell of an object column (a column in
    which some cell is a dict, a list or a string): nothing for None
    (na_rep), otherwise [str] of the value. *)
Definition cell_text (v : pyval) : option text :=
  match v with
  | PyNone => Some []
  | _ => list_ascii_of_string <$> py_str v
  end.

(** The cells [to_csv] writes for a row. *)
Definition cells (r : report) : option (list text) :=
  t ← cell_text (region r);
  Some (left_cells r ++ [t] ++ right_cells r).

Fixpoint all_cells (rows : list report) : option (list (list text)) :=
  match rows with
  | [] => Some []
  | r :: rest =>
      c ← cells r;
      cs ← all_cells rest;
      Some (c :: cs)
  end.

(** [df.to_csv(path, index=False)]: the header line, then one line per
    row. [None] stands for the exception of [str]. *)
Definition to_csv (columns : list text) (rows : list report) : option text :=
  cs ← all_cells rows;
  Some (write_rows (columns :: cs)).

(** Lines 36-39: the frame built from [all_data], with the given columns,
    written over whatever the file held. [None] when [to_csv] raises: what
    the file holds then is not modelled. *)
Definition save (columns : list text) (st : @Fetcher.state report)
           (files : gmap string string) : option (gmap string string) :=
  content ← to_csv columns (Fetcher.all_data st);
  Some (<[ "covid_data_monthly.csv"%string := string_of_list_ascii content ]> files).

(** The table of cell texts read back from a file. *)
Definition read_cells (content : text) : list (list text) := tokenize content.

End Snapshot.

(* ===================================================================== *)
(** ** Tables *)
(* ===================================================================== *)

Module Frame.

(** What [pd.to_datetime] yields for a cell: a calendar date and a time of
    day (nanoseconds after midnight). *)
Record timestamp := mkts { ts_date : date; ts_time : Z }.

(** A cell of the [date] column: the text read from the CSV, carried as the
    timestamp [pd.to_datetime] reads it as, or a [datetime.date] object. *)
Inductive date_cell :=
| Text (t : timestamp)
| Day (d : date).

Definition to_datetime (c : date_cell) : timestamp :=
  match c with
  | Text t => t
  | Day d => mkts d 0
  end.

(** [.dt.date] *)
Definition dt_date (t : timestamp) : date := ts_date t.

(** A row as [pd.read_csv] returns it. [col_rest] holds the cells of the
    columns the dashboard never reads. *)
Record csv_row := mkcsv {
  col_date : date_cell;
  col_region : string;
  col_confirmed : option Z;
  col_deaths : option Z;
  col_recovered : option Z;
  col_rest : list string
}.

(** A row of the loaded table: the CSV columns and the two derived ones. *)
Record row := mkrow {
  base : csv_row;
  country : string;
  iso_alpha : string
}.

Definition frame := list row.

Definition set_date (c : date_cell) (r : row) : row :=
  let b := base r in
  mkrow (mkcsv c (col_region b) (col_confirmed b) (col_deaths b) (col_recovered b) (col_rest b))
        (country r) (iso_alpha r).

(** The date a row is filed under once the column is normalized. *)
Definition row_day (r : row) : date := dt_date (to_datetime (col_date (base r))).

(** A row of the aggregated table. *)
Record agg_row := mkagg {
  a_date : date;
  a_country : string;
  a_iso_alpha : string;
  a_confirmed : option Z;
  a_deaths : option Z;
  a_recovered : option Z
}.

(** A row of the per-country totals behind the map. *)
Record map_row := mkmap {
  m_country : string;
  m_iso_alpha : string;
  m_confirmed : option Z;
  m_deaths : option Z;
  m_recovered : option Z
}.

(** *** Group keys and their order *)

Definition lex (c1 c2 : comparison) : comparison :=
  match c1 with Eq => c2 | _ => c1 end.

Definition key : Type := date * string * string.

Definition key_compare (a b : key) : comparison :=
  let '(d1, c1, i1) := a in
  let '(d2, c2, i2) := b in
  lex (PyDate.compare d1 d2) (lex (String_as_OT.compare c1 c2) (String_as_OT.compare i1 i2)).

(** The strict order a comparison induces. *)
Definition klt {K : Type} (cmp : K -> K -> comparison) (a b : K) : Prop := cmp a b = Lt.

Definition key_lt : key -> key -> Prop := klt key_compare.

Definition key2 : Type := string * string.

Definition key2_compare (a b : key2) : comparison :=
  lex (String_as_OT.compare (fst a) (fst b)) (String_as_OT.compare (snd a) (snd b)).

(** What a three-way comparison must satisfy to order group keys. *)
Class StrictCmp {K : Type} (cmp : K -> K -> comparison) : Prop := {
  cmp_eq : forall a b, cmp a b = Eq -> a = b;
  cmp_refl : forall a, cmp a a = Eq;
  cmp_opp : forall a b, cmp b a = CompOpp (cmp a b);
  cmp_trans : forall a b c, cmp a b = Lt -> cmp b c = Lt -> cmp a c = Lt
}.

Definition same {K : Type} (cmp : K -> K -> comparison) (a b : K) : bool :=
  match cmp a b with Eq => true | _ => false end.

(** The distinct keys in ascending order, as [groupby] (sort=True) lists
    its groups. *)
Fixpoint insert_key {K : Type} (cmp : K -> K -> comparison) (k : K) (l : list K) : list K :=
  match l with
  | [] => [k]
  | x :: l' =>
      match cmp k x with
      | Lt => k :: l
      | Eq => l
      | Gt => x :: insert_key cmp k l'
      end
  end.

Definition group_keys {K : Type} (cmp : K -> K -> comparison) (ks : list K) : list K :=
  fold_right (insert_key cmp) [] ks.

(** *** Numeric columns and their sums *)

(** The dtype [read_csv] gives a column of counts: int64 when every cell
    holds an integer, float64 (NaN for the gaps) as soon as one cell is
    missing. Filtering rows and summing groups keep the dtype. *)
Inductive dtype := Int64 | Float64.

Definition is_present (o : option Z) : bool :=
  match o with Some _ => true | None => false end.

Definition column_dtype (cells : list (option Z)) : dtype :=
  if forallb is_present cells then Int64 else Float64.

Record dtypes := mkdtypes {
  dt_confirmed : dtype;
  dt_deaths : dtype;
  dt_recovered : dtype
}.

(** A missing cell read as zero. *)
Definition nz (o : option Z) : Z := default 0 o.

Definition nz_cell (o : option Z) : option Z := Some (nz o).

(** The cells that hold a value, in row order. *)
Fixpoint dropna (cells : list (option Z)) : list Z :=
  match cells with
  | [] => []
  | Some v :: rest => v :: dropna rest
  | None :: rest => dropna rest
  end.

(** The sum of the cells as integers, a missing cell counting as zero. *)
Definition nansum (cells : list (option Z)) : Z :=
  fold_right (fun o acc => nz o + acc) 0 cells.

(** The sum of the absolute values of the cells that hold a value. *)
Definition abs_sum (cells : list (option Z)) : Z :=
  fold_right (fun o acc => Z.abs (nz o) + acc) 0 cells.

(** Two's complement on 64 bits: what an int64 addition that overflows
    leaves. *)
Definition wrap64 (z : Z) : Z := (z + 2 ^ 63) mod 2 ^ 64 - 2 ^ 63.

(** The float64 accumulation of ['sum'] is not computed here: [fsum]
    stands for what it returns on the values of a group, given in row
    order. All that is known of it is that it is exact while the absolute
    values add up to at most 2^53, where every partial sum is an integer a
    float64 holds exactly. *)
Class Float64Sum := {
  fsum : list Z -> Z;
  fsum_exact : forall cells : list (option Z),
      abs_sum cells <= 2 ^ 53 -> fsum (dropna cells) = nansum cells
}.

Definition row_key (r : row) : key := (row_day r, country r, iso_alpha r).

Definition agg_key (a : agg_row) : key := (a_date a, a_country a, a_iso_alpha a).
Definition agg_key2 (a : agg_row) : key2 := (a_country a, a_iso_alpha a).

(** The dtypes of the three count columns of a loaded table. *)
Definition dtypes_of (df : frame) : dtypes :=
  mkdtypes (column_dtype (map (fun r => col_confirmed (base r)) df))
           (column_dtype (map (fun r => col_deaths (base r)) df))
           (column_dtype (map (fun r => col_recovered (base r)) df)).

Section Sums.
Context `{F : Float64Sum}.

(** ['sum'] over the cells of one group (skipna, min_count=0): int64
    addition wraps around; a float64 column skips its missing cells, and
    an all-missing group sums to 0. *)
Definition agg_sum (dt : dtype) (cells : list (option Z)) : Z :=
  match dt with
  | Int64 => wrap64 (nansum cells)
  | Float64 => fsum (dropna cells)
  end.

(** [df.groupby(['date','country','iso_alpha'], as_index=False).agg(sum)]
    on a table whose date column is normalized and whose count columns
    have the dtypes [dts]. *)
Definition groupby_sum (dts : dtypes) (df : frame) : list agg_row :=
  map (fun k : key =>
         let g := List.filter (fun r => same key_compare (row_key r) k) df in
         let '(d, c, i) := k in
         mkagg d c i
               (Some (agg_sum (dt_confirmed dts) (map (fun r => col_confirmed (base r)) g)))
               (Some (agg_sum (dt_deaths dts) (map (fun r => col_deaths (base r)) g)))
               (Some (agg_sum (dt_recovered dts) (map (fun r => col_recovered (base r)) g))))
      (group_keys key_compare (map row_key df)).

(** [aggregated_df.groupby(['country','iso_alpha'], as_index=False).agg(sum)];
    the columns of the aggregated table have the dtypes of the table it
    was made from. *)
Definition groupby_country (dts : dtypes) (df : list agg_row) : list map_row :=
  map (fun k : key2 =>
         let g := List.filter (fun a => same key2_compare (agg_key2 a) k) df in
         mkmap (fst k) (snd k)
               (Some (agg_sum (dt_confirmed dts) (map a_confirmed g)))
               (Some (agg_sum (dt_deaths dts) (map a_deaths g)))
               (Some (agg_sum (dt_recovered dts) (map a_recovered g))))
      (group_keys key2_compare (map agg_key2 df)).

End Sums.

(** An accumulation that adds exactly, for tables of small counts. *)
Fixpoint dropna_total (cells : list (option Z))
  : fold_right Z.add 0 (dropna cells) = nansum cells :=
  match cells with
  | [] => eq_refl
  | Some v :: rest => f_equal (Z.add v) (dropna_total rest)
  | None :: rest => dropna_total rest
  end.

Definition small_totals : Float64Sum :=
  {| fsum := fold_right Z.add 0; fsum_exact := fun cells _ => dropna_total cells |}.

(** *** Series operations *)

(** [s.fillna(0)] *)
Definition fillna0 (o : option Z) : option Z :=
  match o with
  | Some v => Some v
  | None => Some 0
  end.

(** [s.max()]: the largest present value; missing when there is none. *)
Fixpoint series_max (s : list (option Z)) : option Z :=
  match s with
  | [] => None
  | o :: s' =>
      match o, series_max s' with
      | Some v, Some m => Some (Z.max v m)
      | Some v, None => Some v
      | None, m => m
      end
  end.

(** [s.idxmax()] on a RangeIndex: the position of the first occurrence of
    the largest present value; [None] (ValueError) when there is none. *)
Fixpoint idxmax_from (i : nat) (best : option (nat * Z)) (s : list (option Z))
  : option (nat * Z) :=
  match s with
  | [] => best
  | o :: s' =>
      let best' :=
        match o, best with
        | Some v, Some (_, m) => if m <? v then Some (i, v) else best
        | Some v, None => Some (i, v)
        | None, _ => best
        end in
      idxmax_from (S i) best' s'
  end.

Definition idxmax (s : list (option Z)) : option nat :=
  fst <$> idxmax_from 0 None s.

(** [df['country'].unique().tolist()]: in order of first appearance. *)
Fixpoint unique (l : list string) : list string :=
  match l with
  | [] => []
  | x :: l' => x :: List.filter (fun y => negb (String.eqb x y)) (unique l')
  end.

(** [s.isin(values)] on one cell. *)
Definition isin (x : string) (values : list string) : bool :=
  existsb (String.eqb x) values.

End Frame.

(* ===================================================================== *)
(** ** project.py *)
(* ===================================================================== *)

Module Dashboard.
Import Frame PyLiteral.

Local Open Scope string_scope.
Local Open Scope list_scope.

Inductive exn :=
| FileNotFoundError       (* the CSV is not there *)
| ParserError             (* read_csv cannot make a table of the text:
                             pandas' ParserError or EmptyDataError *)
| MalformedRegion         (* literal_eval or the subscript raised *)
| NotAString              (* a name or iso that is not a str. Python goes on with
                             that value as the cell; tables with such cells are
                             outside the model, which stops here instead *)
| ArgmaxOfEmpty           (* idxmax on a column with no value *)
| NoSuchObject.           (* a reference to no dataframe: never reached *)

Inductive result (A : Type) :=
| Ok (a : A)
| Raise (e : exn).
Arguments Ok {A} _.
Arguments Raise {A} _.

Definition loc := nat.

(** The state the dashboard runs in: the files on disk, the value memoized
    by [st.cache_data], and the dataframe objects alive, by reference. *)
Record world := mkworld {
  files : gmap string string;
  cache : option frame;
  heap : gmap loc frame
}.

Definition csv_path : string := "covid_data_monthly.csv".

(** [ast.literal_eval(x)[k]] for a cell of the [region] column. *)
Definition region_field (k : string) (x : string) : result string :=
  match literal_eval x with
  | None => Raise MalformedRegion
  | Some v =>
      match subscript v k with
      | None => Raise MalformedRegion
      | Some (PyStr s) => Ok s
      | Some _ => Raise NotAString
      end
  end.

(** [df['region'].apply(lambda x: ast.literal_eval(x)[k])]: the cells in
    order; the first one that fails raises. *)
Fixpoint apply_region (k : string) (rows : list csv_row) : result (list string) :=
  match rows with
  | [] => Ok []
  | c :: rest =>
      match region_field k (col_region c) with
      | Raise e => Raise e
      | Ok s =>
          match apply_region k rest with
          | Raise e => Raise e
          | Ok l => Ok (s :: l)
          end
      end
  end.

(** The table with the two new columns attached. *)
Fixpoint with_columns (rows : list csv_row) (names isos : list string) : frame :=
  match rows, names, isos with
  | c :: rows', n :: names', i :: isos' => mkrow c n i :: with_columns rows' names' isos'
  | _, _, _ => []
  end.

(** Lines 13-14: first the whole [country] column, then the whole
    [iso_alpha] column. *)
Definition derive (rows : list csv_row) : result frame :=
  match apply_region "name" rows with
  | Raise e => Raise e
  | Ok names =>
      match apply_region "iso" rows with
      | Raise e => Raise e
      | Ok isos => Ok (with_columns rows names isos)
      end
  end.

(** [process_data], lines 19-34. The first statement stores the
    normalized column in the caller's dataframe; the filters build new
    tables. *)
Definition normalize_dates (df : frame) : frame :=
  map (fun r => set_date (Day (row_day r)) r) df.

Definition in_range (start_date end_date : date) (r : row) : bool :=
  PyDate.leb start_date (row_day r) && PyDate.leb (row_day r) end_date.

Section Aggregation.
Context `{F : Float64Sum}.

Definition process_data (df : loc) (selected_countries : list string)
           (start_date end_date : date) (h : gmap loc frame)
  : option (gmap loc frame * list agg_row) :=
  f ← h !! df;
  let f1 := normalize_dates f in
  let h1 := <[df := f1]> h in
  let f2 := List.filter (in_range start_date end_date) f1 in
  let f3 := List.filter (fun r => isin (country r) selected_countries) f2 in
  Some (h1, groupby_sum (dtypes_of f) f3).

(** The rows both filters keep. *)
Definition kept (selected_countries : list string) (start_date end_date : date)
           (r : row) : bool :=
  in_range start_date end_date r && isin (country r) selected_countries.

(** The same test on a group key. *)
Definition keep_key (selected_countries : list string) (start_date end_date : date)
           (k : key) : bool :=
  let '(d, c, _) := k in
  PyDate.leb start_date d && PyDate.leb d end_date && isin c selected_countries.

(** The other order of the two steps: aggregate every row of the table,
    then keep the groups of the selected countries and dates. *)
Definition aggregate_then_filter (selected_countries : list string)
           (start_date end_date : date) (df : frame) : list agg_row :=
  List.filter (fun a => keep_key selected_countries start_date end_date (agg_key a))
              (groupby_sum (dtypes_of df) df).

End Aggregation.

(** The rows of a table that the filters keep and that fall under a key. *)
Definition group_rows (selected_countries : list string) (start_date end_date : date)
           (df : frame) (k : key) : list row :=
  List.filter (fun r => kept selected_countries start_date end_date r
                        && same key_compare (row_key r) k) df.

(** [m] is the largest value of a column and [c] the country of the first
    row that holds it. *)
Definition first_maximum (col : agg_row -> option Z) (agg : list agg_row)
           (m : Z) (c : string) : Prop :=
  exists (i : nat) (a : agg_row),
    agg !! i = Some a /\ col a = Some m /\ a_country a = c /\
    (forall j b v, agg !! j = Some b -> col b = Some v -> v <= m) /\
    (forall j b v, (j < i)%nat -> agg !! j = Some b -> col b = Some v -> v < m).

(** A table in which one country name carries two ISO codes on one day. *)
Definition two_iso_frame : frame :=
  [mkrow (mkcsv (Text (mkts (mkdate 2020 4 1) 0)) "{'iso': 'AAA', 'name': 'X'}"
                (Some 5) (Some 1) None []) "X" "AAA";
   mkrow (mkcsv (Text (mkts (mkdate 2020 4 1) 0)) "{'iso': 'BBB', 'name': 'X'}"
                (Some 7) (Some 2) (Some 3) []) "X" "BBB"].

(** What the widgets hand back on one run of the script. *)
Record inputs := mkinputs {
  selected_countries : list string;
  start_date : date;
  end_date : date
}.

Inductive figure :=
| Choropleth (map_data : list map_row)
| Line (y : string) (data : list agg_row).

(** What one run of [main] does, in order. *)
Inductive action :=
| St_title (s : string)
| St_write (s : string)
| St_multiselect (label : string) (options default : list string)
| St_date_input (label : string) (value min_value max_value : date)
| St_error (s : string)
| St_info (s : string)
| Op_process_data (selected : list string) (start_date end_date : date)
| Op_fillna
| St_subheader (s : string)
| St_metric (label : string) (value : option Z) (delta : string)
| St_plotly_chart (fig : figure).

Inductive outcome :=
| Returned
| Raised (e : exn).

Definition min_date : date := mkdate 2020 3 9.
Definition max_date : date := mkdate 2023 3 9.

Definition fill_recovered (agg : list agg_row) : list agg_row :=
  map (fun a => mkagg (a_date a) (a_country a) (a_iso_alpha a)
                      (a_confirmed a) (a_deaths a) (fillna0 (a_recovered a))) agg.

(** Lines 83-90, for one column: the maximum and the country of the row
    [idxmax] points at. *)
Definition highest (col : agg_row -> option Z) (agg : list agg_row)
  : result (option Z * string) :=
  match idxmax (map col agg) with
  | None => Raise ArgmaxOfEmpty
  | Some i =>
      match agg !! i with
      | Some a => Ok (series_max (map col agg), a_country a)
      | None => Raise ArgmaxOfEmpty
      end
  end.

Definition header : list action :=
  [St_title "COVID-19 Data Visualization";
   St_write "Select a date range (maximum one year) and countries to compare COVID-19 statistics."].

Definition widgets (available_countries : list string) : list action :=
  [St_multiselect "Select Countries" available_countries (take 1 available_countries);
   St_date_input "Start Date" min_date min_date max_date;
   St_date_input "End Date" max_date min_date max_date].

(** The three messages of the input checks, lines 64-74. *)
Definition range_message : action :=
  St_error "Error: The date range must be no more than one year.".
Definition order_message : action :=
  St_error "Error: End date must be after start date.".
Definition country_message : action :=
  St_info "Please select at least one country.".

Section Page.
Context `{F : Float64Sum}.

(** The map and the line charts; [dts] are the dtypes of the count columns
    of the aggregated table. *)
Definition charts (dts : dtypes) (agg : list agg_row) : list action :=
  [St_subheader "Map of Selected Countries";
   St_plotly_chart (Choropleth (groupby_country dts agg));
   St_subheader "Confirmed Cases Over Time";
   St_plotly_chart (Line "confirmed" agg);
   St_subheader "Deaths Over Time";
   St_plotly_chart (Line "deaths" agg);
   St_subheader "Recovered Cases Over Time";
   St_plotly_chart (Line "recovered" agg)].

(** Lines 83-152: everything after the fill step. *)
Definition present (dts : dtypes) (agg : list agg_row) : list action * outcome :=
  match highest a_confirmed agg with
  | Raise e => ([], Raised e)
  | Ok (max_confirmed, max_confirmed_country) =>
  match highest a_deaths agg with
  | Raise e => ([], Raised e)
  | Ok (max_deaths, max_deaths_country) =>
  match highest a_recovered agg with
  | Raise e => ([], Raised e)
  | Ok (max_recovered, max_recovered_country) =>
      ([St_subheader "Highest Values";
        St_metric "Highest Confirmed Cases" max_confirmed
                  ("Country: " +:+ max_confirmed_country);
        St_metric "Highest Deaths" max_deaths ("Country: " +:+ max_deaths_country);
        St_metric "Highest Recovered Cases" max_recovered
                  ("Country: " +:+ max_recovered_country)]
         ++ charts dts agg, Returned)
  end end end.

End Page.

Section WithReader.
Context `{F : Float64Sum}.

(** [pd.read_csv] on the text of a file; [None] when it raises. *)
Variable read_csv : string -> option (list csv_row).

(** The body of [load_data], lines 10-16. *)
Definition load_data_body (w : world) : result frame :=
  match files w !! csv_path with
  | None => Raise FileNotFoundError
  | Some content =>
      match read_csv content with
      | None => Raise ParserError
      | Some rows => derive rows
      end
  end.

(** [load_data] under [st.cache_data]: the body runs when nothing is
    memoized yet; every call hands out a new copy of the memoized table. *)
Definition load_data (w : world) : result (world * loc) :=
  let cached :=
    match cache w with
    | Some f => Ok f
    | None => load_data_body w
    end in
  match cached with
  | Raise e => Raise e
  | Ok f =>
      let l := fresh (dom (heap w)) in
      Ok (mkworld (files w) (Some f) (<[l := f]> (heap w)), l)
  end.

(** [main], lines 37-152. *)
Definition main (inp : inputs) (w : world) : world * list action * outcome :=
  match load_data w with
  | Raise e => (w, header, Raised e)
  | Ok (w1, df) =>
      let available_countries := unique (map country (default [] (heap w1 !! df))) in
      let shown := header ++ widgets available_countries in
      let start_date := start_date inp in
      let end_date := end_date inp in
      if days_between start_date end_date >? 365 then
        (w1, shown ++ [St_error "Error: The date range must be no more than one year."],
         Returned)
      else if PyDate.ltb end_date start_date then
        (w1, shown ++ [order_message], Returned)
      else
        match selected_countries inp with
        | [] => (w1, shown ++ [country_message], Returned)
        | _ :: _ =>
            match process_data df (selected_countries inp) start_date end_date (heap w1) with
            | None => (w1, shown, Raised NoSuchObject)
            | Some (h2, aggregated_df) =>
                let w2 := mkworld (files w1) (cache w1) h2 in
                let aggregated_df := fill_recovered aggregated_df in
                let dts := dtypes_of (default [] (heap w1 !! df)) in
                let '(acts, out) := present dts aggregated_df in
                (w2,
                 shown ++ [Op_process_data (selected_countries inp) start_date end_date;
                           Op_fillna] ++ acts,
                 out)
            end
        end
  end.

End WithReader.

(** The actions that aggregate or render results. *)
Definition is_result_action (a : action) : bool :=
  match a with
  | Op_process_data _ _ _ | Op_fillna | St_subheader _ | St_metric _ _ _
  | St_plotly_chart _ => true
  | _ => false
  end.

(** Two provinces of one country on one day, each with 2^62 recovered. *)
Definition overflow_frame : frame :=
  [mkrow (mkcsv (Text (mkts (mkdate 2020 4 1) 0)) "{'iso': 'AAA', 'name': 'X'}"
                (Some 5) (Some 1) (Some (2 ^ 62)) ["P"]) "X" "AAA";
   mkrow (mkcsv (Text (mkts (mkdate 2020 4 1) 0)) "{'iso': 'AAA', 'name': 'X'}"
                (Some 7) (Some 2) (Some (2 ^ 62)) ["Q"]) "X" "AAA"].

(** A reader that finds the two-row table in every file. *)
Definition two_row_reader (_ : string) : option (list csv_row) :=
  Some (map base two_iso_frame).

Definition one_file : gmap string string := {[ csv_path := "date,region" ]}.

(** A record whose country name holds an apostrophe, as the endpoint
    returns it, and the row [read_csv] makes of its line. *)
Definition ivory_coast : PyLiteral.pyval :=
  PyDict [("iso", PyStr "CIV"); ("name", PyStr "Cote d'Ivoire"); ("province", PyStr "");
          ("lat", PyStr "7.54"); ("long", PyStr "-5.5471"); ("cities", PyList [])].

Definition ivory_coast_report : Snapshot.report :=
  Snapshot.mkreport [list_ascii_of_string "2020-04-01"; list_ascii_of_string "165"]
                    ivory_coast [list_ascii_of_string "1"].

(** The text of a value [str] accepts. *)
Definition written (v : PyLiteral.pyval) : string := default EmptyString (py_str v).

Definition ivory_coast_row : csv_row :=
  mkcsv (Text (mkts (mkdate 2020 4 1) 0)) (written ivory_coast) (Some 165) (Some 1) None [].

End Dashboard.

(* ===================================================================== *)
(** ** What a fetch run collects *)
(* ===================================================================== *)

Module FetchLog.
Import Fetcher.

Section Log.
Context {R : Type}.
Variable api : date -> response R.

(** The records one request brings in: the [data] array on status 200,
    nothing otherwise. *)
Definition got (d : date) : list R :=
  if status_code (api d) =? 200 then body_data (api d) else [].

(** The dates whose request is answered with another status. *)
Definition failed (d : date) : bool := negb (status_code (api d) =? 200).

(** The state keeps, against the requests made so far, the records of the
    answered ones and the log of the failed ones. *)
Definition consistent (st : @state R) : Prop :=
  all_data st = flat_map got (requests st) /\
  failures st = List.filter failed (requests st).

End Log.

(** An endpoint that fails every April and otherwise answers with one
    record, the number of the month. *)
Definition flaky_api (d : date) : response Z :=
  if month d =? 4 then mkresp 404 [] else mkresp 200 [month d].

End FetchLog.

(* ===================================================================== *)
(** ** Notions used to describe the dashboard's tables *)
(* ===================================================================== *)

Module Tables.
Import Frame Dashboard.

(** *** Dates and selections, as the properties state them *)

(** The calendar date a cell of the date column stands for: the date part
    of a timestamp, or the date itself. *)
Definition calendar_day (c : date_cell) : date :=
  match c with
  | Text t => ts_date t
  | Day d => d
  end.

Definition day_of (r : row) : date := calendar_day (col_date (base r)).

(** A row with the calendar date in its date cell and every other cell as
    it was. *)
Definition dated (r : row) : row :=
  mkrow (mkcsv (Day (day_of r)) (col_region (base r)) (col_confirmed (base r))
               (col_deaths (base r)) (col_recovered (base r)) (col_rest (base r)))
        (country r) (iso_alpha r).

(** What [process_data] leaves of a row of the caller's table: a text
    cell of the date column has become the date part of its timestamp, a
    date cell is the same date, and every other cell is as it was. *)
Definition only_date_changed (r r' : row) : Prop :=
  match col_date (base r) with
  | Text t => col_date (base r') = Day (ts_date t)
  | Day d => col_date (base r') = Day d
  end /\
  col_region (base r') = col_region (base r) /\
  col_confirmed (base r') = col_confirmed (base r) /\
  col_deaths (base r') = col_deaths (base r) /\
  col_recovered (base r') = col_recovered (base r) /\
  col_rest (base r') = col_rest (base r) /\
  country r' = country r /\
  iso_alpha r' = iso_alpha r.

(** A row of a selected country whose date lies in the closed range. *)
Definition chosen (sel : list string) (s e : date) (r : row) : Prop :=
  PyDate.le s (day_of r) /\ PyDate.le (day_of r) e /\ In (country r) sel.

Definition chosenb (sel : list string) (s e : date) (r : row) : bool :=
  PyDate.leb s (day_of r) && PyDate.leb (day_of r) e
  && existsb (String.eqb (country r)) sel.

(** The key a row is grouped under. *)
Definition group_key (r : row) : key := (day_of r, country r, iso_alpha r).

Definition date_eqb (a b : date) : bool :=
  (year a =? year b) && (month a =? month b) && (day a =? day b).

Definition key_eqb (a b : key) : bool :=
  let '(d1, c1, i1) := a in
  let '(d2, c2, i2) := b in
  date_eqb d1 d2 && String.eqb c1 c2 && String.eqb i1 i2.

(** The chosen rows of a table that fall under a key, in table order. *)
Definition group_of (sel : list string) (s e : date) (df : frame) (k : key) : list row :=
  List.filter (fun r => chosenb sel s e r && key_eqb (group_key r) k) df.

(** *** Counts whose sums are exact *)

Definition int64 (z : Z) : Prop := - 2 ^ 63 <= z < 2 ^ 63.

(** The cells [cells], taken from a column [column] of dtype [dt], add up
    without wrap-around and without rounding: in an int64 column every
    cell is an int64 and the absolute values add up to less than 2^63; in
    a float64 column they add up to at most 2^53. *)
Definition adds_exactly_in (dt : dtype) (column cells : list (option Z)) : Prop :=
  match dt with
  | Int64 => Forall (fun o => int64 (nz o)) column /\ abs_sum cells < 2 ^ 63
  | Float64 => abs_sum cells <= 2 ^ 53
  end.

(** The rows of an aggregated table for one country and ISO code. *)
Definition country_rows (agg : list agg_row) (c i : string) : list agg_row :=
  List.filter (fun a => String.eqb (a_country a) c && String.eqb (a_iso_alpha a) i) agg.

(** A column with a missing cell. *)
Definition has_gap (column : list (option Z)) : bool :=
  existsb (fun o => match o with None => true | Some _ => false end) column.

(** The same for cells of a column as [read_csv] types it: float64 when a
    cell is missing, int64 otherwise. *)
Definition adds_exactly (column cells : list (option Z)) : Prop :=
  adds_exactly_in (if has_gap column then Float64 else Int64) column cells.

Definition confirmed_of (r : row) : option Z := col_confirmed (base r).
Definition deaths_of (r : row) : option Z := col_deaths (base r).
Definition recovered_of (r : row) : option Z := col_recovered (base r).

(** The key of a row of the per-country totals. *)
Definition map_key (m : map_row) : key2 := (m_country m, m_iso_alpha m).

(** The sum of a column of an aggregated table. *)
Definition total {A : Type} (col : A -> option Z) (rows : list A) : Z :=
  nansum (map col rows).

(** The sum of the cells [v] of the rows filed under the key [k]. *)
Definition group_sum {A K : Type} (cmp : K -> K -> comparison) (key : A -> K)
           (v : A -> option Z) (rows : list A) (k : K) : Z :=
  nansum (map v (List.filter (fun r => same cmp (key r) k) rows)).

(** What a row of the loaded table must show for its two derived cells:
    the name and the ISO code its region cell parses to. *)
Definition derived_from_region (r : row) : Prop :=
  region_field "name" (col_region (base r)) = Ok (country r) /\
  region_field "iso" (col_region (base r)) = Ok (iso_alpha r).

(** The checks of lines 64-74 all pass. *)
Definition accepted (inp : inputs) : Prop :=
  days_between (start_date inp) (end_date inp) <= 365 /\
  PyDate.le (start_date inp) (end_date inp) /\
  selected_countries inp <> [].

(** The rows [process_data] keeps for the inputs of a run. *)
Definition kept_rows (inp : inputs) (f : frame) : frame :=
  List.filter (kept (selected_countries inp) (start_date inp) (end_date inp)) f.

(** What a run shows before the checks, and the two steps it logs once the
    checks pass. *)
Definition shown (f : frame) : list action :=
  header ++ widgets (unique (map country f)).

Definition steps (inp : inputs) : list action :=
  [Op_process_data (selected_countries inp) (start_date inp) (end_date inp); Op_fillna].

(** A region dict without a name. *)
Definition nameless : PyLiteral.pyval :=
  PyLiteral.PyDict [("iso"%string, PyLiteral.PyStr "CIV")].

End Tables.

(* ===================================================================== *)
(** ** Reading the snapshot back *)
(* ===================================================================== *)

Module Reload.
Import PyLiteral Csv Snapshot Frame Dashboard.

Definition text_eqb (a b : text) : bool :=
  String.eqb (string_of_list_ascii a) (string_of_list_ascii b).

Definition region_name : text := list_ascii_of_string "region".

(** The position of the first field of a header that reads [name]. *)
Fixpoint position (name : text) (header : list text) : option nat :=
  match header with
  | [] => None
  | f :: rest => if text_eqb name f then Some O else S <$> position name rest
  end.

(** The field at position [n] of every line. *)
Fixpoint column (n : nat) (lines : list (list text)) : option (list text) :=
  match lines with
  | [] => Some []
  | line :: rest =>
      t ← line !! n;
      ts ← column n rest;
      Some (t :: ts)
  end.

(** The texts under the header [region] of a table in which every line
    has as many fields as the header. *)
Definition region_texts (table : list (list text)) : option (list text) :=
  match table with
  | [] => None
  | header :: lines =>
      n ← position region_name header;
      if forallb (fun line => Nat.eqb (length line) (length header)) lines
      then column n lines else None
  end.

(** The integers a value holds, at any depth. *)
Fixpoint ints_of (v : pyval) : list Z :=
  match v with
  | PyInt z => [z]
  | PyList l => flat_map ints_of l
  | PyDict items => flat_map (fun kv => ints_of (snd kv)) items
  | _ => []
  end.

(** An integer that is written with at most 4300 digits. *)
Definition short_int (z : Z) : Prop :=
  (length (List.filter is_digit (repr_int z)) <= 4300)%nat.

(** The line [to_csv] writes for a record whose region is a dict. *)
Definition line_of (r : report) : list text :=
  left_cells r ++ [repr (region r)] ++ right_cells r.

(** All that is used of [pd.read_csv] on the way back: when every line of
    the file has as many fields as the header and every field under
    [region] opens a dict, the column is one of texts (dtype object), and
    the table has one row per line of the file, whose region cell is the
    field of that line as the tokenizer reads it. *)
Definition keeps_region_texts (read_csv : string -> option (list csv_row)) : Prop :=
  forall (content : string) (texts : list text) (rows : list csv_row),
    region_texts (read_cells (list_ascii_of_string content)) = Some texts ->
    Forall (fun t => starts_with "{" t = true) texts ->
    read_csv content = Some rows ->
    map col_region rows = map string_of_list_ascii texts.

(** A reader for the examples. It reads the region column and leaves the
    other columns of the dashboard empty; a line that ends before its
    region field gets the missing value there, which [literal_eval] refuses
    as it refuses the text [nan]. It has nothing to read in a file without
    lines or without a region column. *)
Definition region_cell (n : nat) (line : list text) : csv_row :=
  mkcsv (Text (mkts (mkdate 1970 1 1) 0))
        (string_of_list_ascii (default (list_ascii_of_string "nan") (line !! n)))
        None None None [].

Definition region_reader (content : string) : option (list csv_row) :=
  match read_cells (list_ascii_of_string content) with
  | [] => None
  | header :: lines =>
      n ← position region_name header;
      Some (map (region_cell n) lines)
  end.

(** The columns of the example record [ivory_coast_report]. *)
Definition report_columns : list text :=
  [list_ascii_of_string "date"; list_ascii_of_string "confirmed"; region_name;
   list_ascii_of_string "deaths"].

(** A record of a province whose name holds a carriage return, under the
    columns [province] and [region]. *)
Definition cr_columns : list text :=
  [list_ascii_of_string "province"; region_name].

Definition cr_report : report :=
  mkreport [["a"; CR; "b"]%char]
           (PyDict [("iso"%string, PyStr "CIV"); ("name"%string, PyStr "Cote d'Ivoire")])
           [].

End Reload.

(* ===================================================================== *)
(** ** Facts about dates *)
(* ===================================================================== *)

Module DateFacts.

Lemma leb_spec (a b : date) :
  PyDate.leb a b = true <->
  year a < year b \/
  (year a = year b /\ (month a < month b \/ (month a = month b /\ day a <= day b))).
Proof.
  unfold PyDate.leb, PyDate.compare.
  destruct (Z.compare_spec (year a) (year b));
    destruct (Z.compare_spec (month a) (month b));
    destruct (Z.compare_spec (day a) (day b)); split; intros; try lia; try discriminate; auto.
Qed.

Lemma ltb_spec (a b : date) :
  PyDate.ltb a b = true <->
  year a < year b \/
  (year a = year b /\ (month a < month b \/ (month a = month b /\ day a < day b))).
Proof.
  unfold PyDate.ltb, PyDate.compare.
  destruct (Z.compare_spec (year a) (year b));
    destruct (Z.compare_spec (month a) (month b));
    destruct (Z.compare_spec (day a) (day b)); split; intros; try lia; try discriminate; auto.
Qed.

Lemma valid_fields (x : date) :
  valid x ->
  1 <= year x <= 9999 /\ 1 <= month x <= 12 /\
  1 <= day x <= days_in_month (year x) (month x).
Proof.
  unfold valid, check_date_fields, MINYEAR, MAXYEAR. intros H.
  repeat (apply andb_prop in H; destruct H as [H ?]). lia.
Qed.

Lemma days_in_month_pos (y m : Z) : 1 <= m <= 12 -> 28 <= days_in_month y m.
Proof.
  intros Hm. unfold days_in_month.
  destruct ((m =? 2) && is_leap y); [lia|].
  assert (m = 1 \/ m = 2 \/ m = 3 \/ m = 4 \/ m = 5 \/ m = 6 \/ m = 7 \/
          m = 8 \/ m = 9 \/ m = 10 \/ m = 11 \/ m = 12) as Hc by lia.
  repeat (destruct Hc as [-> | Hc]; [lia|]). subst. lia.
Qed.

Lemma make_first (y m : Z) :
  1 <= y <= 9999 -> 1 <= m <= 12 -> make y m 1 = Some (mkdate y m 1).
Proof.
  intros Hy Hm. unfold make, check_date_fields, MINYEAR, MAXYEAR.
  pose proof (days_in_month_pos y m Hm).
  replace (1 <=? y) with true by (symmetry; apply Z.leb_le; lia).
  replace (y <=? 9999) with true by (symmetry; apply Z.leb_le; lia).
  replace (1 <=? m) with true by (symmetry; apply Z.leb_le; lia).
  replace (m <=? 12) with true by (symmetry; apply Z.leb_le; lia).
  replace (1 <=? days_in_month y m) with true by (symmetry; apply Z.leb_le; lia).
  reflexivity.
Qed.

Lemma make_valid (y m d : Z) (x : date) : make y m d = Some x -> valid x.
Proof.
  unfold make, valid. destruct (check_date_fields y m d) eqn:E; [|discriminate].
  intros [= <-]. exact E.
Qed.

Lemma first_of_month_index (i : Z) : month_index (first_of_month i) = i.
Proof.
  unfold month_index, first_of_month. simpl.
  pose proof (Z.div_mod i 12). lia.
Qed.

Lemma first_of_month_succ (x : date) :
  1 <= month x <= 12 ->
  first_of_month (month_index x + 1) =
  if month x =? 12 then mkdate (year x + 1) 1 1 else mkdate (year x) (month x + 1) 1.
Proof.
  intros Hm. unfold first_of_month, month_index.
  destruct (Z.eqb_spec (month x) 12) as [E|E].
  - rewrite E. replace (12 * year x + (12 - 1) + 1) with ((year x + 1) * 12) by lia.
    rewrite Z.div_mul, Z.mod_mul by lia. reflexivity.
  - replace (12 * year x + (month x - 1) + 1) with (month x + year x * 12) by lia.
    rewrite Z.div_add, Z.mod_add by lia.
    rewrite Z.div_small, Z.mod_small by lia. f_equal; lia.
Qed.

(** A valid date is on or after the first day of its month, and before the
    first day of every later month. *)
Lemma month_index_le (a b : date) :
  valid a -> valid b -> PyDate.leb a b = true -> month_index a <= month_index b.
Proof.
  intros Ha Hb H. apply valid_fields in Ha, Hb. apply leb_spec in H.
  unfold month_index. lia.
Qed.

Lemma first_leb (i : Z) (b : date) :
  valid b -> PyDate.leb (first_of_month i) b = (i <=? month_index b).
Proof.
  intros Hb. apply valid_fields in Hb.
  assert (Hi := first_of_month_index i).
  assert (Hm : 1 <= month (first_of_month i) <= 12).
  { unfold first_of_month; simpl. pose proof (Z.mod_pos_bound i 12). lia. }
  assert (Hd : day (first_of_month i) = 1) by reflexivity.
  unfold month_index in *.
  destruct (Z.leb_spec i (12 * year b + (month b - 1))) as [L|L].
  - apply leb_spec. lia.
  - destruct (PyDate.leb (first_of_month i) b) eqn:E; [|reflexivity].
    apply leb_spec in E. lia.
Qed.

End DateFacts.

(* ===================================================================== *)
(** ** The fetcher's loop *)
(* ===================================================================== *)

Module FetcherFacts.
Import Fetcher DateFacts.

Lemma month_index_bound (x : date) : valid x -> month_index x <= last_index.
Proof. intros H. apply valid_fields in H. unfold month_index, last_index, MAXYEAR. lia. Qed.

Lemma advance_some (x : date) :
  valid x -> month_index x < last_index ->
  advance x = Some (first_of_month (month_index x + 1)).
Proof.
  intros Hv Hi. apply valid_fields in Hv.
  rewrite first_of_month_succ by lia.
  unfold advance, replace, month_index, last_index, MAXYEAR in *.
  destruct (Z.eqb_spec (month x) 12); apply make_first; lia.
Qed.

Lemma advance_none (x : date) :
  valid x -> month_index x = last_index -> advance x = None.
Proof.
  intros Hv Hi. apply valid_fields in Hv.
  unfold month_index, last_index, MAXYEAR in Hi.
  assert (year x = 9999) as Hy by lia. assert (month x = 12) as Hm by lia.
  unfold advance, replace. rewrite Hm, Hy. reflexivity.
Qed.

Lemma advance_valid (x x' : date) : advance x = Some x' -> valid x'.
Proof.
  unfold advance, replace. destruct (month x =? 12); apply make_valid.
Qed.

Lemma advance_lt (x x' : date) :
  valid x -> advance x = Some x' -> PyDate.ltb x x' = true.
Proof.
  intros Hv H. pose proof (valid_fields _ Hv) as Hf.
  unfold advance, replace, make in H.
  destruct (Z.eqb_spec (month x) 12) as [E|E];
    match type of H with (if ?c then _ else _) = _ => destruct c; [|discriminate] end;
    injection H as <-; apply ltb_spec; simpl; lia.
Qed.

Section Run.
Context {R : Type}.
Variable api : date -> response R.

Lemma requests_fetch (d : date) (st : state) :
  requests (extend_if (snd (fetch_data_for_date api d st))
                      (fst (fetch_data_for_date api d st))) = requests st ++ [d].
Proof.
  unfold fetch_data_for_date.
  destruct (status_code (api d) =? 200); simpl; [|reflexivity].
  destruct (body_data (api d)); reflexivity.
Qed.

Lemma later_firsts_S (i : Z) (k : nat) :
  later_firsts i (S k) = first_of_month (i + 1) :: later_firsts (i + 1) k.
Proof.
  unfold later_firsts. simpl. f_equal.
  rewrite <- seq_shift, map_map. apply map_ext. intros n. f_equal. lia.
Qed.

(** One lemma for the whole loop: from a valid [cur] on or before [e],
    with [k] further months up to the month of [e], the loop issues the
    request for [cur] and for the first day of each of the [k] months, and
    ends normally unless [e] lies in the last representable month. *)
Lemma loop_requests (e : date) (He : valid e) :
  forall (k : nat) (cur : date) (st : state) (fuel : nat),
    valid cur -> PyDate.leb cur e = true ->
    month_index e = month_index cur + Z.of_nat k ->
    (k + 1 < fuel)%nat ->
    requests (fst (loop api fuel e cur st)) =
      requests st ++ cur :: later_firsts (month_index cur) k /\
    snd (loop api fuel e cur st) =
      (if month_index e =? last_index then ValueError else Finished).
Proof.
  induction k as [|k IH]; intros cur st fuel Hv Hle Hidx Hfuel.
  - destruct fuel as [|fuel]; [lia|]. simpl. rewrite Hle.
    destruct (fetch_data_for_date api cur st) as [st1 data] eqn:Ef.
    pose proof (requests_fetch cur st) as Hr. rewrite Ef in Hr. simpl in Hr.
    destruct (Z.eqb_spec (month_index e) last_index) as [El|El].
    + rewrite advance_none by (auto; lia). simpl. split; [|reflexivity].
      rewrite Hr. reflexivity.
    + pose proof (month_index_bound e He).
      rewrite advance_some by (auto; lia).
      destruct fuel as [|fuel]; [lia|]. simpl.
      rewrite first_leb by auto.
      replace (month_index cur + 1 <=? month_index e) with false
        by (symmetry; apply Z.leb_gt; lia).
      simpl. split; [|reflexivity]. rewrite Hr. reflexivity.
  - destruct fuel as [|fuel]; [lia|]. simpl. rewrite Hle.
    destruct (fetch_data_for_date api cur st) as [st1 data] eqn:Ef.
    pose proof (requests_fetch cur st) as Hr. rewrite Ef in Hr. simpl in Hr.
    pose proof (month_index_bound e He).
    rewrite advance_some by (auto; lia).
    assert (Hn : valid (first_of_month (month_index cur + 1))).
    { apply (advance_valid cur). apply advance_some; auto; lia. }
    destruct (IH (first_of_month (month_index cur + 1)) (extend_if data st1) fuel)
      as [Hreq Hout]; auto.
    + rewrite first_leb by auto. apply Z.leb_le. lia.
    + rewrite first_of_month_index. lia.
    + lia.
    + rewrite Hreq, Hout, Hr, first_of_month_index, later_firsts_S.
      split; [|reflexivity]. rewrite <- app_assoc. reflexivity.
Qed.

Lemma run_requests (s e : date) (fuel : nat) :
  valid s -> valid e -> PyDate.le s e ->
  (Z.to_nat (months_spanned s e) < fuel)%nat ->
  requests (fst (run api fuel s e)) = expected_requests s e /\
  snd (run api fuel s e) =
    (if month_index e =? last_index then ValueError else Finished).
Proof.
  intros Hs He Hle Hfuel.
  pose proof (month_index_le s e Hs He Hle) as Hi.
  unfold months_spanned in *.
  destruct (loop_requests e He (Z.to_nat (month_index e - month_index s)) s init fuel)
    as [Hreq Hout]; auto; try lia.
  unfold run. rewrite Hreq, Hout. split; [|reflexivity].
  unfold expected_requests, months_spanned. simpl.
  do 2 f_equal. lia.
Qed.

End Run.

Lemma expected_requests_length (s e : date) :
  month_index s <= month_index e ->
  Z.of_nat (length (expected_requests s e)) = months_spanned s e.
Proof.
  intros Hi. unfold expected_requests, later_firsts.
  cbn [length]. rewrite length_map, length_seq. unfold months_spanned in *. lia.
Qed.

(** C2. For a range of N calendar months with start <= end the loop issues
    exactly N GET requests: the literal start date, then the first day of
    each following month; 2020-03-09 through 2020-05-01 gives the three
    requests 2020-03-09, 2020-04-01, 2020-05-01. *)
Theorem fetch_one_request_per_month :
  forall (R : Type) (api : date -> response R) (s e : date) (fuel : nat),
    valid s -> valid e -> PyDate.le s e ->
    (Z.to_nat (months_spanned s e) < fuel)%nat ->
    let reqs := requests (fst (run api fuel s e)) in
    Z.of_nat (length reqs) = months_spanned s e /\
    reqs = expected_requests s e /\
    (s = mkdate 2020 3 9 -> e = mkdate 2020 5 1 ->
     reqs = [mkdate 2020 3 9; mkdate 2020 4 1; mkdate 2020 5 1]).
Proof.
  intros R api s e fuel Hs He Hle Hfuel reqs.
  destruct (run_requests api s e fuel Hs He Hle Hfuel) as [Hreq _].
  fold reqs in Hreq.
  pose proof (month_index_le s e Hs He Hle) as Hi.
  split; [|split].
  - rewrite Hreq. apply expected_requests_length, Hi.
  - exact Hreq.
  - intros -> ->. rewrite Hreq. reflexivity.
Qed.

Lemma fetch_one_request_per_month_witness :
  requests (fst (run empty_api 4 (mkdate 2020 3 9) (mkdate 2020 5 1))) =
    [mkdate 2020 3 9; mkdate 2020 4 1; mkdate 2020 5 1].
Proof.
  refine (proj2 (proj2 (fetch_one_request_per_month unit empty_api
            (mkdate 2020 3 9) (mkdate 2020 5 1) 4 _ _ _ _)) _ _);
    try reflexivity. vm_compute. lia.
Defined.

(** C8, as the code has it. The first sampled date is the literal start
    date, not day 1 of its month; each step from a date before December 9999
    moves to January 1 of the next year when the month is December and to
    day 1 of the next month otherwise; the sampled dates lie in consecutive
    calendar months, one per month from the month of the start date to the
    month of the end date. *)
Theorem stepping_one_sample_per_month :
  forall (R : Type) (api : date -> response R) (s e : date) (fuel : nat),
    valid s -> valid e -> PyDate.le s e ->
    (Z.to_nat (months_spanned s e) < fuel)%nat ->
    let reqs := requests (fst (run api fuel s e)) in
    head reqs = Some s /\
    map month_index reqs =
      map (fun k => month_index s + Z.of_nat k) (seq 0 (Z.to_nat (months_spanned s e))) /\
    (forall d, valid d -> month_index d < last_index ->
       advance d = Some (if month d =? 12 then mkdate (year d + 1) 1 1
                         else mkdate (year d) (month d + 1) 1)).
Proof.
  intros R api s e fuel Hs He Hle Hfuel reqs.
  destruct (run_requests api s e fuel Hs He Hle Hfuel) as [Hreq _].
  fold reqs in Hreq.
  pose proof (month_index_le s e Hs He Hle) as Hi.
  split; [|split].
  - rewrite Hreq. reflexivity.
  - rewrite Hreq. unfold expected_requests, later_firsts, months_spanned in *.
    replace (Z.to_nat (month_index e - month_index s + 1))
      with (S (Z.to_nat (month_index e - month_index s))) by lia.
    replace (S (Z.to_nat (month_index e - month_index s)) - 1)%nat
      with (Z.to_nat (month_index e - month_index s)) by lia.
    cbn [seq map]. f_equal; [lia|].
    rewrite map_map. apply map_ext. intros k. apply first_of_month_index.
  - intros d Hd Hlast. rewrite advance_some by assumption.
    f_equal. apply first_of_month_succ. apply valid_fields in Hd. lia.
Qed.

Lemma stepping_one_sample_per_month_witness :
  head (requests (fst (run empty_api 40 start_date end_date))) = Some start_date.
Proof.
  refine (proj1 (stepping_one_sample_per_month unit empty_api
            start_date end_date 40 _ _ _ _)); try reflexivity. vm_compute. lia.
Defined.

(** C8 as stated fails on the script's own range: the first sampled date is
    2020-03-09, which is not day 1 of March 2020. The step it describes
    also has no result from December 9999, where [replace] raises. *)
Lemma first_sample_is_literal_start :
  head (requests (fst (run empty_api 40 start_date end_date))) = Some (mkdate 2020 3 9) /\
  mkdate 2020 3 9 <> first_of_month (month_index start_date) /\
  advance (mkdate 9999 12 1) = None.
Proof. split; [reflexivity | split; [discriminate | reflexivity]]. Qed.

(** C9, as the code has it. For start <= end with the end date before
    December 9999 the loop ends by its condition failing, after one
    iteration per calendar month of the range; each iteration from such a
    date strictly increases the current date. *)
Theorem loop_terminates :
  forall (R : Type) (api : date -> response R) (s e : date),
    valid s -> valid e -> PyDate.le s e -> month_index e < last_index ->
    (forall fuel, (Z.to_nat (months_spanned s e) < fuel)%nat ->
       snd (run api fuel s e) = Finished /\
       Z.of_nat (length (requests (fst (run api fuel s e)))) = months_spanned s e) /\
    (forall d, valid d -> PyDate.le d e ->
       exists d', advance d = Some d' /\ PyDate.lt d d' /\ valid d' /\
                  d' = first_of_month (month_index d + 1)).
Proof.
  intros R api s e Hs He Hle Hlast. split.
  - intros fuel Hfuel.
    destruct (run_requests api s e fuel Hs He Hle Hfuel) as [Hreq Hout].
    split.
    + rewrite Hout. destruct (Z.eqb_spec (month_index e) last_index); [lia|reflexivity].
    + rewrite Hreq. apply expected_requests_length.
      apply month_index_le; assumption.
  - intros d Hd Hde. pose proof (month_index_le d e Hd He Hde).
    exists (first_of_month (month_index d + 1)).
    assert (Ha : advance d = Some (first_of_month (month_index d + 1)))
      by (apply advance_some; [assumption | lia]).
    repeat split; auto.
    + apply (advance_lt d); assumption.
    + apply (advance_valid d); assumption.
Qed.

Lemma loop_terminates_witness :
  snd (run empty_api 40 start_date end_date) = Finished.
Proof.
  refine (proj1 (proj1 (loop_terminates unit empty_api start_date end_date _ _ _ _) 40%nat _));
    try reflexivity. vm_compute. lia.
Defined.

(** C9 as stated fails for an end date in December 9999: the loop body
    raises ValueError on its first pass and the condition never fails. *)
Lemma loop_last_month_raises :
  valid (mkdate 9999 12 31) /\
  PyDate.le (mkdate 9999 12 31) (mkdate 9999 12 31) /\
  forall fuel, snd (run empty_api fuel (mkdate 9999 12 31) (mkdate 9999 12 31)) <> Finished.
Proof.
  split; [reflexivity|]. split; [reflexivity|].
  intros [|fuel]; discriminate.
Qed.

End FetcherFacts.

(* ===================================================================== *)
(** ** Grouping *)
(* ===================================================================== *)

Module FrameFacts.
Import Frame.

(** *** The orders on keys *)

Lemma date_compare_strict : StrictCmp PyDate.compare.
Proof.
  split.
  - intros [y1 m1 d1] [y2 m2 d2]. unfold PyDate.compare. simpl.
    destruct (Z.compare_spec y1 y2); try discriminate.
    destruct (Z.compare_spec m1 m2); try discriminate.
    destruct (Z.compare_spec d1 d2); try discriminate. congruence.
  - intros [y m d]. unfold PyDate.compare. simpl. rewrite !Z.compare_refl. reflexivity.
  - intros [y1 m1 d1] [y2 m2 d2]. unfold PyDate.compare. simpl.
    rewrite (Z.compare_antisym y1 y2), (Z.compare_antisym m1 m2), (Z.compare_antisym d1 d2).
    destruct (y1 ?= y2), (m1 ?= m2), (d1 ?= d2); reflexivity.
  - intros a b c Hab Hbc.
    assert (Hlt : forall x y, PyDate.compare x y = Lt <-> PyDate.ltb x y = true).
    { intros x y. unfold PyDate.ltb. destruct (PyDate.compare x y); split; congruence. }
    apply Hlt. apply Hlt in Hab, Hbc.
    apply DateFacts.ltb_spec. apply DateFacts.ltb_spec in Hab, Hbc. lia.
Qed.

Lemma string_compare_strict : StrictCmp String_as_OT.compare.
Proof.
  pose proof String_as_OT.lt_strorder as SO.
  assert (Hirr : forall x, ~ String_as_OT.lt x x)
    by (intros x; exact (@StrictOrder_Irreflexive _ _ SO x)).
  assert (Htr : forall x y z, String_as_OT.lt x y -> String_as_OT.lt y z -> String_as_OT.lt x z)
    by (intros x y z; exact (@StrictOrder_Transitive _ _ SO x y z)).
  split.
  - intros a b H. destruct (String_as_OT.compare_spec a b) as [E|?|?]; [exact E | congruence | congruence].
  - intros a. destruct (String_as_OT.compare_spec a a) as [_|H|H]; try reflexivity;
      destruct (Hirr a H).
  - intros a b.
    destruct (String_as_OT.compare_spec a b) as [E|H|H];
      destruct (String_as_OT.compare_spec b a) as [E'|H'|H']; try reflexivity;
      unfold String_as_OT.eq in *; subst; exfalso;
      first [ exact (Hirr _ H) | exact (Hirr _ H') | exact (Hirr _ (Htr _ _ _ H H')) ].
  - intros a b c H1 H2. exact (Htr a b c H1 H2).
Qed.

Lemma lex_strict {A B : Type} (ca : A -> A -> comparison) (cb : B -> B -> comparison) :
  StrictCmp ca -> StrictCmp cb ->
  StrictCmp (fun x y : A * B => lex (ca (fst x) (fst y)) (cb (snd x) (snd y))).
Proof.
  intros Ha Hb. split.
  - intros [a1 b1] [a2 b2]. simpl. unfold lex.
    destruct (ca a1 a2) eqn:E1; try discriminate. intros E2.
    apply (cmp_eq (cmp := ca)) in E1. apply (cmp_eq (cmp := cb)) in E2. congruence.
  - intros [a b]. simpl.
    rewrite (cmp_refl (cmp := ca)), (cmp_refl (cmp := cb)). reflexivity.
  - intros [a1 b1] [a2 b2]. simpl.
    rewrite (cmp_opp (cmp := ca) a1 a2), (cmp_opp (cmp := cb) b1 b2).
    destruct (ca a1 a2), (cb b1 b2); reflexivity.
  - intros [a1 b1] [a2 b2] [a3 b3]. simpl. unfold lex.
    destruct (ca a1 a2) eqn:E12; try discriminate;
      destruct (ca a2 a3) eqn:E23; try discriminate; intros H1 H2.
    + apply (cmp_eq (cmp := ca)) in E12, E23. subst.
      rewrite (cmp_refl (cmp := ca)). exact (cmp_trans (cmp := cb) _ _ _ H1 H2).
    + apply (cmp_eq (cmp := ca)) in E12. subst. rewrite E23. reflexivity.
    + apply (cmp_eq (cmp := ca)) in E23. subst. rewrite E12. reflexivity.
    + rewrite (cmp_trans (cmp := ca) _ _ _ E12 E23). reflexivity.
Qed.

#[export] Instance key2_compare_strict : StrictCmp key2_compare.
Proof. exact (lex_strict _ _ string_compare_strict string_compare_strict). Qed.

#[export] Instance key_compare_strict : StrictCmp key_compare.
Proof.
  pose proof (lex_strict _ _ date_compare_strict key2_compare_strict) as H.
  split.
  - intros [[d1 c1] i1] [[d2 c2] i2] E.
    pose proof (@cmp_eq _ _ H (d1, (c1, i1)) (d2, (c2, i2)) E). congruence.
  - intros [[d c] i]. exact (@cmp_refl _ _ H (d, (c, i))).
  - intros [[d1 c1] i1] [[d2 c2] i2]. exact (@cmp_opp _ _ H (d1, (c1, i1)) (d2, (c2, i2))).
  - intros [[d1 c1] i1] [[d2 c2] i2] [[d3 c3] i3].
    exact (@cmp_trans _ _ H (d1, (c1, i1)) (d2, (c2, i2)) (d3, (c3, i3))).
Qed.

(** *** Sorted lists of distinct keys *)

Section Keys.
Context {K : Type} (cmp : K -> K -> comparison) `{!StrictCmp cmp}.

Lemma same_eq (a b : K) : same cmp a b = true <-> a = b.
Proof.
  unfold same. split.
  - destruct (cmp a b) eqn:E; try discriminate. intros _. apply cmp_eq, E.
  - intros ->. rewrite cmp_refl. reflexivity.
Qed.

Lemma klt_irrefl (a : K) : ~ klt cmp a a.
Proof. unfold klt. rewrite cmp_refl. discriminate. Qed.

Lemma klt_gt (a b : K) : cmp a b = Gt -> klt cmp b a.
Proof. unfold klt. intros H. rewrite (cmp_opp a b), H. reflexivity. Qed.

Lemma In_insert_key (k x : K) (l : list K) :
  In x (insert_key cmp k l) <-> x = k \/ In x l.
Proof.
  induction l as [|y l IH]; simpl.
  - intuition.
  - destruct (cmp k y) eqn:E; simpl.
    + apply cmp_eq in E. subst. intuition.
    + intuition.
    + rewrite IH. intuition.
Qed.

Lemma insert_key_sorted (k : K) (l : list K) :
  StronglySorted (klt cmp) l -> StronglySorted (klt cmp) (insert_key cmp k l).
Proof.
  induction 1 as [|y l Hs IH Hy]; simpl.
  - repeat constructor.
  - destruct (cmp k y) eqn:E.
    + constructor; assumption.
    + constructor; [constructor; assumption|].
      constructor; [exact E|].
      eapply List.Forall_impl; [|exact Hy]. intros z Hz. exact (cmp_trans _ _ _ E Hz).
    + constructor; [exact IH|].
      apply List.Forall_forall. intros z Hz. apply In_insert_key in Hz.
      destruct Hz as [->|Hz]; [apply klt_gt, E|].
      rewrite List.Forall_forall in Hy. apply Hy, Hz.
Qed.

Lemma group_keys_sorted (ks : list K) : StronglySorted (klt cmp) (group_keys cmp ks).
Proof.
  induction ks; simpl; [constructor | apply insert_key_sorted; assumption].
Qed.

Lemma In_group_keys (x : K) (ks : list K) : In x (group_keys cmp ks) <-> In x ks.
Proof.
  induction ks as [|k ks IH]; simpl; [tauto|].
  rewrite In_insert_key, IH. intuition.
Qed.

Lemma sorted_NoDup (l : list K) : StronglySorted (klt cmp) l -> List.NoDup l.
Proof.
  induction 1 as [|y l Hs IH Hy]; constructor; auto.
  intros Hin. rewrite List.Forall_forall in Hy. exact (klt_irrefl y (Hy y Hin)).
Qed.

(** Two ascending lists of distinct keys with the same members are equal. *)
Lemma sorted_ext (l1 l2 : list K) :
  StronglySorted (klt cmp) l1 -> StronglySorted (klt cmp) l2 ->
  (forall x, In x l1 <-> In x l2) -> l1 = l2.
Proof.
  intros H1. revert l2.
  induction H1 as [|a l1 Hs1 IH Ha]; intros l2 H2 Hin.
  - destruct l2 as [|b l2]; [reflexivity|]. exfalso. apply (Hin b). left. reflexivity.
  - destruct H2 as [|b l2 Hs2 Hb].
    + exfalso. apply (Hin a). left. reflexivity.
    + rewrite List.Forall_forall in Ha, Hb.
      assert (a = b) as ->.
      { destruct (proj1 (Hin a) (or_introl eq_refl)) as [E|Hab]; [congruence|].
        destruct (proj2 (Hin b) (or_introl eq_refl)) as [E|Hba]; [congruence|].
        exfalso. apply (klt_irrefl a).
        exact (cmp_trans _ _ _ (Ha b Hba) (Hb a Hab)). }
      f_equal. apply IH; [assumption|].
      intros x. split; intros Hx.
      * destruct (proj1 (Hin x) (or_intror Hx)) as [E|?]; [|assumption].
        subst. exfalso. exact (klt_irrefl x (Ha x Hx)).
      * destruct (proj2 (Hin x) (or_intror Hx)) as [E|?]; [|assumption].
        subst. exfalso. exact (klt_irrefl x (Hb x Hx)).
Qed.

Lemma filter_sorted (p : K -> bool) (l : list K) :
  StronglySorted (klt cmp) l -> StronglySorted (klt cmp) (List.filter p l).
Proof.
  induction 1 as [|y l Hs IH Hy]; simpl; [constructor|].
  destruct (p y); [|assumption].
  constructor; [assumption|].
  rewrite List.Forall_forall in *. intros x Hx. apply filter_In in Hx. apply Hy, Hx.
Qed.

(** Grouping the keys that pass a test is the same as testing the groups. *)
Lemma group_keys_filter (p : K -> bool) (ks : list K) :
  group_keys cmp (List.filter p ks) = List.filter p (group_keys cmp ks).
Proof.
  apply sorted_ext.
  - apply group_keys_sorted.
  - apply filter_sorted, group_keys_sorted.
  - intros x. rewrite In_group_keys, !filter_In, In_group_keys. tauto.
Qed.

End Keys.

End FrameFacts.

(* ===================================================================== *)
(** ** process_data *)
(* ===================================================================== *)

Module ProcessFacts.
Import Frame Dashboard Tables FrameFacts.

Lemma filter_map_comm {A B : Type} (p : B -> bool) (g : A -> B) (l : list A) :
  List.filter p (map g l) = map g (List.filter (fun x => p (g x)) l).
Proof.
  induction l as [|x l IH]; simpl; [reflexivity|].
  destruct (p (g x)); simpl; rewrite IH; reflexivity.
Qed.

Lemma filter_filter_and {A : Type} (p q : A -> bool) (l : list A) :
  List.filter p (List.filter q l) = List.filter (fun x => q x && p x) l.
Proof.
  induction l as [|x l IH]; simpl; [reflexivity|].
  destruct (q x); simpl; [destruct (p x)|]; rewrite IH; reflexivity.
Qed.

Lemma filter_ext_In {A : Type} (p q : A -> bool) (l : list A) :
  (forall x, In x l -> p x = q x) -> List.filter p l = List.filter q l.
Proof.
  induction l as [|x l IH]; simpl; intros H; [reflexivity|].
  rewrite (H x) by auto. rewrite IH by auto. reflexivity.
Qed.

(** *** The code's tests and the stated ones *)

Lemma row_day_day_of (r : row) : row_day r = day_of r.
Proof. unfold row_day, day_of. destruct (col_date (base r)); reflexivity. Qed.

Lemma normalize_dates_dated (f : frame) : normalize_dates f = map dated f.
Proof.
  unfold normalize_dates. apply map_ext. intros r.
  unfold set_date, dated. rewrite row_day_day_of. reflexivity.
Qed.

Lemma row_key_group_key (r : row) : row_key r = group_key r.
Proof. unfold row_key, group_key. rewrite row_day_day_of. reflexivity. Qed.

Lemma kept_chosenb (sel : list string) (s e : date) (r : row) :
  kept sel s e r = chosenb sel s e r.
Proof. unfold kept, in_range, chosenb, isin. rewrite row_day_day_of. reflexivity. Qed.

Lemma chosenb_spec (sel : list string) (s e : date) (r : row) :
  chosenb sel s e r = true <-> chosen sel s e r.
Proof.
  unfold chosenb, chosen, PyDate.le. rewrite !andb_true_iff, existsb_exists.
  split.
  - intros [[H1 H2] [x [Hx Heq]]]. apply String.eqb_eq in Heq. subst x. tauto.
  - intros [H1 [H2 H3]]. split; [tauto|]. exists (country r).
    split; [exact H3 | apply String.eqb_refl].
Qed.

Lemma date_eqb_eq (a b : date) : date_eqb a b = true <-> a = b.
Proof.
  destruct a as [y1 m1 d1], b as [y2 m2 d2]. unfold date_eqb. cbn [year month day].
  rewrite !andb_true_iff, !Z.eqb_eq. split; [intros [[-> ->] ->]; reflexivity|].
  intros [= -> -> ->]. tauto.
Qed.

Lemma key_eqb_eq (a b : key) : key_eqb a b = true <-> a = b.
Proof.
  destruct a as [[d1 c1] i1], b as [[d2 c2] i2]. unfold key_eqb.
  rewrite !andb_true_iff, date_eqb_eq, !String.eqb_eq.
  split; [intros [[-> ->] ->]; reflexivity|]. intros [= -> -> ->]. tauto.
Qed.

Lemma key_eqb_same (a b : key) : key_eqb a b = same key_compare a b.
Proof.
  destruct (key_eqb a b) eqn:E; symmetry.
  - apply key_eqb_eq in E. subst b. apply same_eq; [exact _ | reflexivity].
  - destruct (same key_compare a b) eqn:E'; [|reflexivity].
    apply same_eq in E'; [|exact _]. apply key_eqb_eq in E'. congruence.
Qed.

Lemma group_rows_group_of (sel : list string) (s e : date) (f : frame) (k : key) :
  group_rows sel s e f k = group_of sel s e f k.
Proof.
  unfold group_rows, group_of. apply filter_ext_In. intros r _.
  rewrite kept_chosenb, row_key_group_key, key_eqb_same. reflexivity.
Qed.

(** Normalizing the date column changes no other column and no key. *)
Lemma row_day_normalized (r : row) : row_day (set_date (Day (row_day r)) r) = row_day r.
Proof. reflexivity. Qed.

Lemma row_key_normalized (r : row) : row_key (set_date (Day (row_day r)) r) = row_key r.
Proof. reflexivity. Qed.

Lemma kept_key (sel : list string) (s e : date) (r : row) :
  kept sel s e r = keep_key sel s e (row_key r).
Proof. reflexivity. Qed.

Lemma dtypes_of_normalized (f : frame) : dtypes_of (normalize_dates f) = dtypes_of f.
Proof. unfold dtypes_of, normalize_dates. rewrite !map_map. reflexivity. Qed.

Lemma filter_normalized (p : row -> bool) (f : frame) :
  (forall r, p (set_date (Day (row_day r)) r) = p r) ->
  List.filter p (normalize_dates f) = normalize_dates (List.filter p f).
Proof.
  intros Hp. unfold normalize_dates. rewrite filter_map_comm.
  f_equal. apply filter_ext_In. intros r _. apply Hp.
Qed.

(** *** Sums *)

Lemma abs_sum_nonneg (cells : list (option Z)) : 0 <= abs_sum cells.
Proof. induction cells as [|o cells IH]; simpl; lia. Qed.

Lemma nansum_abs (cells : list (option Z)) : Z.abs (nansum cells) <= abs_sum cells.
Proof. induction cells as [|o cells IH]; simpl; lia. Qed.

Lemma wrap64_small (z : Z) : - 2 ^ 63 <= z < 2 ^ 63 -> wrap64 z = z.
Proof. intros H. unfold wrap64. rewrite Z.mod_small; lia. Qed.

Lemma nansum_nonneg (cells : list (option Z)) :
  Forall (fun o => forall v, o = Some v -> 0 <= v) cells -> 0 <= nansum cells.
Proof.
  induction 1 as [|o cells Ho _ IH]; simpl; [lia|].
  destruct o as [v|]; simpl; [specialize (Ho v eq_refl)|]; lia.
Qed.

Lemma nansum_all_missing (cells : list (option Z)) :
  Forall (fun o => o = None) cells -> nansum cells = 0.
Proof. induction 1 as [|o cells -> _ IH]; simpl; [reflexivity | rewrite IH; reflexivity]. Qed.

Lemma abs_sum_all_missing (cells : list (option Z)) :
  Forall (fun o => o = None) cells -> abs_sum cells = 0.
Proof. induction 1 as [|o cells -> _ IH]; simpl; [reflexivity | rewrite IH; reflexivity]. Qed.

Lemma nansum_fill (cells : list (option Z)) :
  nansum (map nz_cell cells) = nansum cells.
Proof. induction cells as [|o cells IH]; simpl; [reflexivity|]. rewrite IH. reflexivity. Qed.

Lemma NoDup_map_coarser {A B C : Type} (f : A -> B) (g : A -> C) (l : list A) :
  List.NoDup (map f l) ->
  (forall x y, In x l -> In y l -> g x = g y -> f x = f y) ->
  List.NoDup (map g l).
Proof.
  induction l as [|x l IH]; simpl; intros Hnd Hfg; [constructor|].
  inversion Hnd as [|? ? Hx Hl]; subst. constructor.
  - intros Hin. apply in_map_iff in Hin. destruct Hin as [y [Hy Hyl]].
    apply Hx. apply in_map_iff. exists y. split; [|assumption].
    apply Hfg; auto.
  - apply IH; auto.
Qed.

Lemma In_group_rows (sel : list string) (s e : date) (f : frame) (k : key) (r : row) :
  In r (group_rows sel s e f k) <-> In r f /\ kept sel s e r = true /\ row_key r = k.
Proof.
  unfold group_rows. rewrite filter_In, andb_true_iff, same_eq by exact _. tauto.
Qed.

Lemma filter_kept_group (sel : list string) (s e : date) (f : frame) (k : key) :
  List.filter (fun r => same key_compare (row_key r) k) (List.filter (kept sel s e) f)
  = group_rows sel s e f k.
Proof. apply filter_filter_and. Qed.

Lemma column_dtype_gap (column : list (option Z)) :
  column_dtype column = if has_gap column then Float64 else Int64.
Proof.
  unfold column_dtype. induction column as [|[v|] column IH]; cbn; [reflexivity | | reflexivity].
  exact IH.
Qed.

Section Sums.
Context `{F : Float64Sum}.

(** Where the cells add up exactly, ['sum'] is the sum. *)
Lemma agg_sum_exact (dt : dtype) (column cells : list (option Z)) :
  adds_exactly_in dt column cells -> agg_sum dt cells = nansum cells.
Proof.
  destruct dt; cbn [adds_exactly_in agg_sum].
  - intros [_ Hsmall]. apply wrap64_small.
    pose proof (nansum_abs cells). lia.
  - apply fsum_exact.
Qed.

Lemma agg_sum_all_missing (dt : dtype) (cells : list (option Z)) :
  Forall (fun o => o = None) cells -> agg_sum dt cells = 0.
Proof.
  intros Hnone. destruct dt; cbn [agg_sum].
  - rewrite (nansum_all_missing cells Hnone). reflexivity.
  - rewrite fsum_exact by (rewrite (abs_sum_all_missing cells Hnone); lia).
    apply nansum_all_missing, Hnone.
Qed.

Lemma groupby_sum_normalized (dts : dtypes) (f : frame) :
  groupby_sum dts (normalize_dates f) = groupby_sum dts f.
Proof.
  unfold groupby_sum, normalize_dates.
  rewrite map_map. simpl.
  apply map_ext. intros [[d c] i].
  rewrite filter_map_comm, !map_map. reflexivity.
Qed.

(** What a call computes: the caller's table with its date column replaced,
    and the groups of the kept rows. *)
Lemma process_data_eq (h : gmap loc frame) (df : loc) (f : frame)
      (sel : list string) (s e : date) :
  h !! df = Some f ->
  process_data df sel s e h =
    Some (<[df := normalize_dates f]> h,
          groupby_sum (dtypes_of f) (List.filter (kept sel s e) f)).
Proof.
  intros Hdf. unfold process_data. rewrite Hdf. simpl. do 2 f_equal.
  rewrite (filter_normalized (in_range s e)) by reflexivity.
  rewrite (filter_normalized (fun r => isin (country r) sel)) by reflexivity.
  rewrite groupby_sum_normalized, filter_filter_and. reflexivity.
Qed.

Lemma agg_key_groupby (dts : dtypes) (g : frame) :
  map agg_key (groupby_sum dts g) = group_keys key_compare (map row_key g).
Proof.
  unfold groupby_sum. rewrite map_map.
  rewrite <- (map_id (group_keys key_compare (map row_key g))) at 2.
  apply map_ext. intros [[d c] i]. reflexivity.
Qed.

Lemma groupby_sum_sorted (dts : dtypes) (g : frame) :
  StronglySorted key_lt (map agg_key (groupby_sum dts g)).
Proof. rewrite agg_key_groupby. apply group_keys_sorted. exact _. Qed.

Lemma In_groupby_sum (dts : dtypes) (g : frame) (a : agg_row) :
  In a (groupby_sum dts g) ->
  (exists r, In r g /\ row_key r = agg_key a) /\
  let rows := List.filter (fun r => same key_compare (row_key r) (agg_key a)) g in
  a_confirmed a = Some (agg_sum (dt_confirmed dts) (map (fun r => col_confirmed (base r)) rows)) /\
  a_deaths a = Some (agg_sum (dt_deaths dts) (map (fun r => col_deaths (base r)) rows)) /\
  a_recovered a = Some (agg_sum (dt_recovered dts) (map (fun r => col_recovered (base r)) rows)).
Proof.
  unfold groupby_sum. intros Ha. apply in_map_iff in Ha.
  destruct Ha as [[[d c] i] [<- Hk]]. simpl.
  apply In_group_keys in Hk; [|exact _]. apply in_map_iff in Hk.
  destruct Hk as [r [Hr Hin]]. split; [exists r; auto|]. auto.
Qed.

(** The two orders of filtering and aggregating give the same table. *)
Lemma aggregate_then_filter_eq (sel : list string) (s e : date) (f : frame) :
  aggregate_then_filter sel s e f
  = groupby_sum (dtypes_of f) (List.filter (kept sel s e) f).
Proof.
  unfold aggregate_then_filter, groupby_sum.
  rewrite filter_map_comm.
  rewrite (filter_ext_In _ (keep_key sel s e)) by (intros [[d c] i] _; reflexivity).
  rewrite <- group_keys_filter by exact _.
  rewrite (filter_map_comm (keep_key sel s e) row_key f).
  change (fun x => keep_key sel s e (row_key x)) with (kept sel s e).
  apply map_ext_in. intros [[d c] i] Hk.
  apply In_group_keys in Hk; [|exact _]. apply in_map_iff in Hk.
  destruct Hk as [r [Hr Hin]]. apply filter_In in Hin. destruct Hin as [_ Hkept].
  assert (Hg : List.filter (fun r0 => same key_compare (row_key r0) (d, c, i))
                 (List.filter (kept sel s e) f)
               = List.filter (fun r0 => same key_compare (row_key r0) (d, c, i)) f).
  { rewrite filter_filter_and. apply filter_ext_In. intros r0 _.
    destruct (same key_compare (row_key r0) (d, c, i)) eqn:E; [|apply andb_false_r].
    apply same_eq in E; [|exact _].
    rewrite kept_key, E, <- Hr, <- kept_key, Hkept. reflexivity. }
  rewrite Hg. reflexivity.
Qed.

(** The keys of the table [process_data] returns. *)
Lemma groupby_sum_keys (dts : dtypes) (sel : list string) (s e : date) (f : frame) (k : key) :
  In k (map agg_key (groupby_sum dts (List.filter (kept sel s e) f))) <->
  exists r, In r f /\ chosen sel s e r /\ group_key r = k.
Proof.
  rewrite agg_key_groupby, In_group_keys by exact _.
  rewrite in_map_iff. split.
  - intros [r [Hr Hin]]. apply filter_In in Hin. destruct Hin as [Hin Hk].
    exists r. rewrite kept_chosenb in Hk. apply chosenb_spec in Hk.
    rewrite <- row_key_group_key. tauto.
  - intros [r [Hin [Hk Hr]]]. exists r. rewrite filter_In, kept_chosenb, row_key_group_key.
    apply chosenb_spec in Hk. tauto.
Qed.

(** The cells of a row of that table. *)
Lemma groupby_sum_cells (sel : list string) (s e : date) (f : frame) (a : agg_row) :
  In a (groupby_sum (dtypes_of f) (List.filter (kept sel s e) f)) ->
  let rows := group_of sel s e f (agg_key a) in
  a_confirmed a = Some (agg_sum (column_dtype (map confirmed_of f)) (map confirmed_of rows)) /\
  a_deaths a = Some (agg_sum (column_dtype (map deaths_of f)) (map deaths_of rows)) /\
  a_recovered a = Some (agg_sum (column_dtype (map recovered_of f)) (map recovered_of rows)).
Proof.
  intros Ha. apply In_groupby_sum in Ha. destruct Ha as [_ Hsum].
  cbv zeta in Hsum. rewrite filter_kept_group, group_rows_group_of in Hsum. exact Hsum.
Qed.

(** C1, as the code has it. [process_data] stores in the caller's table
    the calendar date of every date cell and returns the groups of the rows
    of a selected country whose date lies in [start_date, end_date]: the
    rows come in ascending order of (date, country, iso_alpha), one per
    distinct (date, country, iso_alpha) among those rows; the confirmed,
    deaths and recovered of a row are the sums over its group wherever the
    counts of the group add up exactly. There is one row per (date,
    country) when no chosen country name carries two ISO codes. *)
Theorem process_data_groups_kept_rows :
  forall (h : gmap loc frame) (df : loc) (f : frame) (sel : list string) (s e : date),
    h !! df = Some f ->
    exists agg,
      process_data df sel s e h = Some (<[df := map dated f]> h, agg) /\
      StronglySorted key_lt (map agg_key agg) /\
      List.NoDup (map agg_key agg) /\
      (forall k, In k (map agg_key agg) <->
                 exists r, In r f /\ chosen sel s e r /\ group_key r = k) /\
      (forall a, In a agg ->
         let rows := group_of sel s e f (agg_key a) in
         (adds_exactly (map confirmed_of f) (map confirmed_of rows) ->
          a_confirmed a = Some (nansum (map confirmed_of rows))) /\
         (adds_exactly (map deaths_of f) (map deaths_of rows) ->
          a_deaths a = Some (nansum (map deaths_of rows))) /\
         (adds_exactly (map recovered_of f) (map recovered_of rows) ->
          a_recovered a = Some (nansum (map recovered_of rows)))) /\
      ((forall r1 r2, In r1 f -> In r2 f ->
          chosen sel s e r1 -> chosen sel s e r2 ->
          country r1 = country r2 -> iso_alpha r1 = iso_alpha r2) ->
       List.NoDup (map (fun a => (a_date a, a_country a)) agg)).
Proof.
  intros h df f sel s e Hdf.
  exists (groupby_sum (dtypes_of f) (List.filter (kept sel s e) f)).
  pose proof (groupby_sum_keys (dtypes_of f) sel s e f) as Hkeys.
  assert (Hnd : List.NoDup (map agg_key
                  (groupby_sum (dtypes_of f) (List.filter (kept sel s e) f)))).
  { apply (sorted_NoDup key_compare), groupby_sum_sorted. }
  split; [rewrite <- normalize_dates_dated; apply process_data_eq, Hdf|].
  split; [apply groupby_sum_sorted|].
  split; [exact Hnd|].
  split; [exact Hkeys|].
  split.
  - intros a Ha rows. destruct (groupby_sum_cells sel s e f a Ha) as [Hc [Hd Hr]].
    fold rows in Hc, Hd, Hr. rewrite Hc, Hd, Hr.
    unfold adds_exactly. rewrite <- !column_dtype_gap.
    repeat split; intros Hex; f_equal; exact (agg_sum_exact _ _ _ Hex).
  - intros Hiso. apply (NoDup_map_coarser agg_key); [exact Hnd|].
    intros a b Ha Hb Hab.
    destruct (proj1 (Hkeys (agg_key a)) (in_map agg_key _ _ Ha)) as [r1 [Hr1 [Hk1 Hkey1]]].
    destruct (proj1 (Hkeys (agg_key b)) (in_map agg_key _ _ Hb)) as [r2 [Hr2 [Hk2 Hkey2]]].
    unfold agg_key, group_key in *.
    injection Hab as Hd Hc. injection Hkey1 as Hd1 Hc1 Hi1. injection Hkey2 as Hd2 Hc2 Hi2.
    assert (iso_alpha r1 = iso_alpha r2) by (apply Hiso; auto; congruence).
    congruence.
Qed.

(** C4. Aggregating every row of the (normalized) table by (date, country,
    iso_alpha) and then keeping the groups of the selected countries and
    date range gives the table [process_data] returns by filtering first:
    the same keys in the same order with the same sums. *)
Theorem aggregation_commutes_with_filtering :
  forall (h : gmap loc frame) (df : loc) (f : frame) (sel : list string) (s e : date),
    h !! df = Some f ->
    process_data df sel s e h =
      Some (<[df := normalize_dates f]> h,
            aggregate_then_filter sel s e (normalize_dates f)).
Proof.
  intros h df f sel s e Hdf.
  rewrite (process_data_eq h df f sel s e Hdf). do 2 f_equal.
  rewrite aggregate_then_filter_eq.
  rewrite (filter_normalized (kept sel s e)) by reflexivity.
  rewrite groupby_sum_normalized, dtypes_of_normalized. reflexivity.
Qed.


End Sums.

#[local] Existing Instance small_totals.

Lemma process_data_groups_kept_rows_witness :
  exists agg,
    process_data 0%nat ["X"%string] (mkdate 2020 3 9) (mkdate 2021 3 9)
                 {[0%nat := two_iso_frame]} =
      Some (<[0%nat := map dated two_iso_frame]> {[0%nat := two_iso_frame]}, agg) /\
    StronglySorted key_lt (map agg_key agg).
Proof.
  destruct (process_data_groups_kept_rows {[0%nat := two_iso_frame]} 0%nat two_iso_frame
              ["X"%string] (mkdate 2020 3 9) (mkdate 2021 3 9)
              (lookup_singleton_eq 0%nat two_iso_frame)) as [agg [H1 [H2 _]]].
  exists agg. split; assumption.
Defined.

(** C1 as stated fails on the last clause: when one country name carries
    two ISO codes on a day, the result has two rows for that (date,
    country). And a sum is not the sum where int64 addition overflows: two
    rows with 2^62 recovered each give - 2^63 for their group. *)
Lemma one_country_two_iso_codes :
  (exists h' agg,
     process_data 0%nat ["X"%string] (mkdate 2020 3 9) (mkdate 2021 3 9)
                  {[0%nat := two_iso_frame]} = Some (h', agg) /\
     map (fun a => (a_date a, a_country a)) agg =
       [(mkdate 2020 4 1, "X"%string); (mkdate 2020 4 1, "X"%string)] /\
     ~ List.NoDup (map (fun a => (a_date a, a_country a)) agg)) /\
  (exists h' agg,
     process_data 0%nat ["X"%string] (mkdate 2020 3 9) (mkdate 2021 3 9)
                  {[0%nat := overflow_frame]} = Some (h', agg) /\
     map a_recovered agg = [Some (- 2 ^ 63)] /\
     nansum (map recovered_of overflow_frame) = 2 ^ 63).
Proof.
  split.
  - eexists. eexists. split.
    + apply process_data_eq. apply lookup_singleton_eq.
    + split; [reflexivity|].
      intros Hnd. inversion Hnd as [|? ? Hx _]. apply Hx. left. reflexivity.
  - eexists. eexists. split.
    + apply process_data_eq. apply lookup_singleton_eq.
    + split; reflexivity.
Qed.

Lemma aggregation_commutes_with_filtering_witness :
  process_data 0%nat ["X"%string] (mkdate 2020 3 9) (mkdate 2021 3 9)
               {[0%nat := two_iso_frame]} =
    Some (<[0%nat := normalize_dates two_iso_frame]> {[0%nat := two_iso_frame]},
          aggregate_then_filter ["X"%string] (mkdate 2020 3 9) (mkdate 2021 3 9)
                                (normalize_dates two_iso_frame)).
Proof.
  apply (aggregation_commutes_with_filtering {[0%nat := two_iso_frame]} 0%nat two_iso_frame).
  apply lookup_singleton_eq.
Defined.



End ProcessFacts.

(* ===================================================================== *)
(** ** main *)
(* ===================================================================== *)

Module MainFacts.
Import Frame Dashboard Tables FrameFacts ProcessFacts.

(** *** Maximum and first index of the maximum *)

Lemma series_max_spec (s : list (option Z)) :
  match series_max s with
  | Some m => (exists k, s !! k = Some (Some m)) /\
              (forall k v, s !! k = Some (Some v) -> v <= m)
  | None => forall k v, s !! k <> Some (Some v)
  end.
Proof.
  induction s as [|o s IH]; simpl.
  - intros k v. rewrite lookup_nil. discriminate.
  - destruct o as [x|]; destruct (series_max s) as [m|].
    + destruct IH as [[k Hk] Hmax]. split.
      * destruct (Z.max_spec x m) as [[_ ->]|[_ ->]]; [exists (S k) | exists 0%nat]; auto.
      * intros [|j] v; simpl; intros Hv.
        -- injection Hv as ->. lia.
        -- specialize (Hmax j v Hv). lia.
    + split; [exists 0%nat; reflexivity|].
      intros [|j] v; simpl; intros Hv.
      * injection Hv as ->. lia.
      * destruct (IH j v Hv).
    + destruct IH as [[k Hk] Hmax]. split; [exists (S k); exact Hk|].
      intros [|j] v; simpl; intros Hv; [discriminate|]. exact (Hmax j v Hv).
    + intros [|j] v; simpl; [discriminate|]. apply IH.
Qed.

Lemma idxmax_from_spec (s : list (option Z)) :
  forall (i : nat) (best : option (nat * Z)),
    match idxmax_from i best s with
    | None => best = None /\ forall k v, s !! k <> Some (Some v)
    | Some (j, m) =>
        (forall k v, s !! k = Some (Some v) -> v <= m) /\
        (best = Some (j, m) \/
         exists k, j = (i + k)%nat /\ s !! k = Some (Some m) /\
                   (forall k' v, (k' < k)%nat -> s !! k' = Some (Some v) -> v < m) /\
                   (forall j0 m0, best = Some (j0, m0) -> m0 < m)) /\
        (forall j0 m0, best = Some (j0, m0) -> m0 <= m)
    end.
Proof.
  induction s as [|o s IH]; intros i best; simpl.
  - destruct best as [[j m]|].
    + split; [intros k v; rewrite lookup_nil; discriminate|].
      split; [left; reflexivity|]. intros j0 m0 [= _ ->]. lia.
    + split; [reflexivity|]. intros k v. rewrite lookup_nil. discriminate.
  - match goal with |- context [idxmax_from (S i) ?b s] => set (best' := b) end.
    specialize (IH (S i) best').
    destruct (idxmax_from (S i) best' s) as [[j m]|].
    + destruct IH as [Hmax [Hwhere Hbest]].
      destruct o as [x|]; [destruct best as [[jb mb]|]|]; simpl in best'.
      * destruct (Z.ltb_spec mb x) as [Hlt|Hge]; subst best'.
        -- split; [|split].
           ++ intros [|k] v; simpl; intros Hv; [injection Hv as ->; apply (Hbest i); reflexivity|].
              exact (Hmax k v Hv).
           ++ right. destruct Hwhere as [[= -> ->]|[k [-> [Hk [Hfirst Hb]]]]].
              ** exists 0%nat. split; [lia|]. split; [reflexivity|].
                 split; [intros k' v Hk'; lia|]. intros j0 m0 [= _ ->]. exact Hlt.
              ** exists (S k). split; [lia|]. split; [exact Hk|].
                 pose proof (Hb i x eq_refl) as Hxm.
                 split; [|intros j0 m0 [= _ ->]; lia].
                 intros [|k'] v Hlt'; simpl; intros Hv; [injection Hv as ->; exact Hxm|].
                 apply (Hfirst k' v); [lia | exact Hv].
           ++ intros j0 m0 [= _ ->]. pose proof (Hbest i x eq_refl). lia.
        -- split; [|split].
           ++ intros [|k] v; simpl; intros Hv;
                [injection Hv as ->; pose proof (Hbest jb mb eq_refl); lia|].
              exact (Hmax k v Hv).
           ++ destruct Hwhere as [E|[k [-> [Hk [Hfirst Hb]]]]]; [left; exact E|].
              right. exists (S k). split; [lia|]. split; [exact Hk|].
              pose proof (Hb jb mb eq_refl) as Hxm.
              split; [|exact Hb].
              intros [|k'] v Hlt'; simpl; intros Hv; [injection Hv as ->; lia|].
              apply (Hfirst k' v); [lia | exact Hv].
           ++ exact Hbest.
      * subst best'. split; [|split].
        -- intros [|k] v; simpl; intros Hv; [injection Hv as ->; apply (Hbest i); reflexivity|].
           exact (Hmax k v Hv).
        -- right. destruct Hwhere as [[= -> ->]|[k [-> [Hk [Hfirst Hb]]]]].
           ++ exists 0%nat. split; [lia|]. split; [reflexivity|].
              split; [intros k' v Hk'; lia|]. intros j0 m0; discriminate.
           ++ exists (S k). split; [lia|]. split; [exact Hk|].
              pose proof (Hb i x eq_refl) as Hxm.
              split; [|intros j0 m0; discriminate].
              intros [|k'] v Hlt'; simpl; intros Hv; [injection Hv as ->; exact Hxm|].
              apply (Hfirst k' v); [lia | exact Hv].
        -- intros j0 m0; discriminate.
      * subst best'. split; [|split].
        -- intros [|k] v; simpl; intros Hv; [discriminate|]. exact (Hmax k v Hv).
        -- destruct Hwhere as [E|[k [-> [Hk [Hfirst Hb]]]]]; [left; exact E|].
           right. exists (S k). split; [lia|]. split; [exact Hk|].
           split; [|exact Hb].
           intros [|k'] v Hlt'; simpl; intros Hv; [discriminate|].
           apply (Hfirst k' v); [lia | exact Hv].
        -- exact Hbest.
    + destruct IH as [Hnone Hall].
      destruct o as [x|]; [destruct best as [[jb mb]|]|]; simpl in best'.
      * destruct (mb <? x); discriminate.
      * discriminate.
      * subst best'. split; [exact Hnone|].
        intros [|k] v; simpl; [discriminate|]. apply Hall.
Qed.

Lemma idxmax_spec (s : list (option Z)) (i : nat) :
  idxmax s = Some i ->
  exists m, s !! i = Some (Some m) /\
            (forall k v, s !! k = Some (Some v) -> v <= m) /\
            (forall k v, (k < i)%nat -> s !! k = Some (Some v) -> v < m).
Proof.
  unfold idxmax. pose proof (idxmax_from_spec s 0 None) as H.
  destruct (idxmax_from 0 None s) as [[j m]|]; simpl; [|discriminate].
  intros [= ->]. destruct H as [Hmax [[E|[k [-> [Hk [Hfirst _]]]]] _]]; [discriminate|].
  exists m. simpl. auto.
Qed.

Lemma idxmax_some (s : list (option Z)) (k : nat) (v : Z) :
  s !! k = Some (Some v) -> exists i, idxmax s = Some i.
Proof.
  unfold idxmax. pose proof (idxmax_from_spec s 0 None) as H.
  destruct (idxmax_from 0 None s) as [[j m]|]; simpl; [eauto|].
  intros Hk. destruct H as [_ H]. destruct (H k v Hk).
Qed.

(** Lines 83-90 for one column whose cells are all present. *)
Lemma highest_spec (col : agg_row -> option Z) (agg : list agg_row) :
  agg <> [] -> Forall (fun a => is_Some (col a)) agg ->
  exists m c, highest col agg = Ok (Some m, c) /\ first_maximum col agg m c.
Proof.
  intros Hne Hall.
  destruct agg as [|a0 agg]; [congruence|].
  destruct (Forall_cons_1 _ _ _ Hall) as [[v0 Hv0] _].
  destruct (idxmax_some (map col (a0 :: agg)) 0 v0) as [i Hi]; [simpl; rewrite Hv0; reflexivity|].
  destruct (idxmax_spec _ _ Hi) as [m [Hm [Hmax Hfirst]]].
  rewrite list_lookup_fmap in Hm.
  destruct ((a0 :: agg) !! i) as [a|] eqn:Ha; [|discriminate]. simpl in Hm.
  injection Hm as Hm.
  assert (Hcol : forall j b v, (a0 :: agg) !! j = Some b -> col b = Some v ->
                               map col (a0 :: agg) !! j = Some (Some v)).
  { intros j b v Hb Hv. rewrite list_lookup_fmap, Hb. simpl. rewrite Hv. reflexivity. }
  exists m, (a_country a). split.
  - unfold highest. rewrite Hi, Ha. do 2 f_equal.
    pose proof (series_max_spec (map col (a0 :: agg))) as Hs.
    destruct (series_max (map col (a0 :: agg))) as [m'|].
    + destruct Hs as [[k Hk] Hmax']. f_equal.
      pose proof (Hmax k m' Hk). pose proof (Hmax' i m (Hcol i a m Ha Hm)). lia.
    + destruct (Hs i m (Hcol i a m Ha Hm)).
  - exists i, a. repeat split; auto.
    + intros j b v Hb Hv. exact (Hmax j v (Hcol j b v Hb Hv)).
    + intros j b v Hj Hb Hv. exact (Hfirst j v Hj (Hcol j b v Hb Hv)).
Qed.

Section Metrics.
Context `{F : Float64Sum}.

Lemma aggregated_cells_present (dts : dtypes) (g : frame) :
  Forall (fun a => is_Some (a_confirmed a) /\ is_Some (a_deaths a) /\ is_Some (a_recovered a))
         (fill_recovered (groupby_sum dts g)).
Proof.
  apply List.Forall_forall. intros a Ha.
  unfold fill_recovered in Ha. apply in_map_iff in Ha. destruct Ha as [b [<- Hb]].
  apply In_groupby_sum in Hb. destruct Hb as [_ [Hc [Hd Hr]]]. simpl.
  rewrite Hc, Hd, Hr. simpl. eauto.
Qed.

(** C7. For a non-empty aggregated table (the groups of any table, after
    the fill step) the dashboard shows three metrics, one each for
    confirmed, deaths and recovered: the largest value of the column over
    all rows and the country of the first row, in row order, that holds it. *)
Theorem metrics_show_first_maximum :
  forall (dts : dtypes) (g : frame),
    let agg := fill_recovered (groupby_sum dts g) in
    agg <> [] ->
    exists m1 c1 m2 c2 m3 c3,
      present dts agg =
        ([St_subheader "Highest Values";
          St_metric "Highest Confirmed Cases" (Some m1) ("Country: " +:+ c1);
          St_metric "Highest Deaths" (Some m2) ("Country: " +:+ c2);
          St_metric "Highest Recovered Cases" (Some m3) ("Country: " +:+ c3)]
           ++ charts dts agg, Returned) /\
      first_maximum a_confirmed agg m1 c1 /\
      first_maximum a_deaths agg m2 c2 /\
      first_maximum a_recovered agg m3 c3.
Proof.
  intros dts g agg Hne.
  pose proof (aggregated_cells_present dts g) as Hall. fold agg in Hall.
  destruct (highest_spec a_confirmed agg Hne) as [m1 [c1 [H1 F1]]].
  { eapply List.Forall_impl; [|exact Hall]. simpl. tauto. }
  destruct (highest_spec a_deaths agg Hne) as [m2 [c2 [H2 F2]]].
  { eapply List.Forall_impl; [|exact Hall]. simpl. tauto. }
  destruct (highest_spec a_recovered agg Hne) as [m3 [c3 [H3 F3]]].
  { eapply List.Forall_impl; [|exact Hall]. simpl. tauto. }
  exists m1, c1, m2, c2, m3, c3.
  unfold present. rewrite H1, H2, H3. auto.
Qed.

End Metrics.

(** *** The input checks and the effects of a run *)

Section Runs.
Context `{F : Float64Sum}.
Variable read_csv : string -> option (list csv_row).

Lemma load_data_world (w w1 : world) (df : loc) :
  load_data read_csv w = Ok (w1, df) ->
  files w1 = files w /\
  exists f, heap w1 = <[df := f]> (heap w) /\ heap w !! df = None /\ cache w1 = Some f.
Proof.
  unfold load_data.
  destruct (match cache w with Some f => Ok f | None => load_data_body read_csv w end)
    as [f|e]; [|discriminate].
  intros [= <- <-]. simpl. split; [reflexivity|].
  exists f. split; [reflexivity|]. split; [|reflexivity].
  apply not_elem_of_dom. apply is_fresh.
Qed.

(** No run of [main] touches the files. *)
Lemma main_files (inp : inputs) (w : world) :
  files (fst (fst (main read_csv inp w))) = files w.
Proof.
  unfold main.
  destruct (load_data read_csv w) as [[w1 df]|e] eqn:Hl; [|reflexivity].
  apply load_data_world in Hl. destruct Hl as [Hf _].
  destruct (days_between (start_date inp) (end_date inp) >? 365); [exact Hf|].
  destruct (PyDate.ltb (end_date inp) (start_date inp)); [exact Hf|].
  destruct (selected_countries inp); [exact Hf|].
  destruct (process_data df _ _ _ (heap w1)) as [[h2 agg]|]; [|exact Hf].
  destruct (present _ (fill_recovered agg)). exact Hf.
Qed.

(** C3. On a run whose table loaded, when the date range is longer than
    365 days, or the start date is after the end date, or no country is
    selected, [main] shows the title, the text and the three widgets, then
    exactly one message, and returns: no exception, no call of
    [process_data], no fill step, no metric, no chart, and the loaded table
    untouched. A range longer than 365 days gets the range message; an
    empty selection on an otherwise valid range gets the country message. *)
Theorem main_rejects_invalid_input :
  forall (inp : inputs) (w w1 : world) (df : loc),
    load_data read_csv w = Ok (w1, df) ->
    365 < days_between (start_date inp) (end_date inp) \/
    PyDate.lt (end_date inp) (start_date inp) \/
    selected_countries inp = [] ->
    exists msg,
      main read_csv inp w =
        (w1, header ++ widgets (unique (map country (default [] (heap w1 !! df))))
               ++ [msg], Returned) /\
      (msg = range_message \/ msg = order_message \/ msg = country_message) /\
      Forall (fun a => is_result_action a = false)
             (snd (fst (main read_csv inp w))) /\
      (365 < days_between (start_date inp) (end_date inp) -> msg = range_message) /\
      (days_between (start_date inp) (end_date inp) <= 365 ->
       PyDate.lt (end_date inp) (start_date inp) -> msg = order_message) /\
      (days_between (start_date inp) (end_date inp) <= 365 ->
       PyDate.le (start_date inp) (end_date inp) ->
       selected_countries inp = [] -> msg = country_message).
Proof.
  intros inp w w1 df Hload Hbad. unfold main. rewrite Hload.
  assert (Hshown : forall avail msg,
             is_result_action msg = false ->
             Forall (fun a => is_result_action a = false)
                    (header ++ widgets avail ++ [msg])).
  { intros avail msg Hmsg. repeat constructor. exact Hmsg. }
  assert (Hle : forall a b, PyDate.ltb b a = true -> PyDate.le a b -> False).
  { intros a b Hlt Hle. unfold PyDate.le, PyDate.leb in Hle. unfold PyDate.ltb in Hlt.
    pose proof (@cmp_opp _ _ date_compare_strict a b) as Ho.
    destruct (PyDate.compare a b); simpl in Ho; rewrite Ho in Hlt; discriminate. }
  destruct (Z.gtb_spec (days_between (start_date inp) (end_date inp)) 365) as [Hlong|Hshort].
  - exists range_message. rewrite <- app_assoc.
    split; [reflexivity|]. split; [auto|]. split; [apply Hshown; reflexivity|].
    split; [reflexivity|]. split; intros; lia.
  - destruct (PyDate.ltb (end_date inp) (start_date inp)) eqn:Hord.
    + exists order_message. rewrite <- app_assoc.
      split; [reflexivity|]. split; [auto|]. split; [apply Hshown; reflexivity|].
      split; [intros; lia|]. split; [reflexivity|].
      intros _ Hle'. destruct (Hle _ _ Hord Hle').
    + destruct Hbad as [Hbad|[Hbad|Hbad]]; [lia | unfold PyDate.lt in Hbad; congruence |].
      rewrite Hbad. exists country_message. rewrite <- app_assoc.
      split; [reflexivity|]. split; [auto|]. split; [apply Hshown; reflexivity|].
      split; [intros; lia|]. split; [|reflexivity].
      unfold PyDate.lt. intros _ Hc. congruence.
Qed.

(** C10. A call of [process_data] stores the normalized date column in the
    caller's table: afterwards the table the caller holds has, row by row,
    the calendar date in its date cell and every other cell as before; no
    other table changes. No run of [main] (hence no call of [load_data] or
    [process_data] in it) changes the files. *)
Theorem process_data_mutates_date_column :
  forall (h : gmap loc frame) (df : loc) (f : frame) (sel : list string) (s e : date),
    h !! df = Some f ->
    (exists h' agg f',
       process_data df sel s e h = Some (h', agg) /\
       h' !! df = Some f' /\
       (forall l, l <> df -> h' !! l = h !! l) /\
       Forall2 only_date_changed f f') /\
    (forall inp w, files (fst (fst (main read_csv inp w))) = files w) /\
    (forall w w1 l, load_data read_csv w = Ok (w1, l) -> files w1 = files w).
Proof.
  intros h df f sel s e Hdf. split; [|split].
  - exists (<[df := normalize_dates f]> h),
           (groupby_sum (dtypes_of f) (List.filter (kept sel s e) f)),
           (normalize_dates f).
    split; [apply process_data_eq, Hdf|].
    split; [apply lookup_insert_eq|].
    split; [intros l Hl; apply lookup_insert_ne; congruence|].
    clear Hdf. induction f as [|r f IH]; simpl; constructor; [|exact IH].
    unfold only_date_changed, set_date, row_day. cbn [base col_date country iso_alpha
      col_region col_confirmed col_deaths col_recovered col_rest].
    destruct (col_date (base r)); cbn; tauto.
  - intros inp w. apply main_files.
  - intros w w1 l Hl. apply (load_data_world w w1 l Hl).
Qed.

End Runs.

#[local] Existing Instance small_totals.

Lemma metrics_show_first_maximum_witness :
  exists m1 c1, first_maximum a_confirmed
      (fill_recovered (groupby_sum (dtypes_of two_iso_frame) two_iso_frame)) m1 c1.
Proof.
  destruct (metrics_show_first_maximum (dtypes_of two_iso_frame) two_iso_frame) as
    [m1 [c1 [m2 [c2 [m3 [c3 [_ [F1 _]]]]]]]].
  - discriminate.
  - exists m1, c1. exact F1.
Defined.

Lemma main_rejects_invalid_input_witness :
  exists msg,
    snd (fst (main two_row_reader (mkinputs ["X"%string] (mkdate 2020 3 9) (mkdate 2023 3 9))
                   (mkworld one_file None ∅))) =
      header ++ widgets ["X"%string] ++ [msg] /\
    msg = range_message.
Proof.
  destruct (main_rejects_invalid_input two_row_reader
              (mkinputs ["X"%string] (mkdate 2020 3 9) (mkdate 2023 3 9))
              (mkworld one_file None ∅) _ _ eq_refl) as [msg [Hm [_ [_ [Hr _]]]]].
  - left. vm_compute. reflexivity.
  - exists msg. split.
    + rewrite Hm. reflexivity.
    + apply Hr. vm_compute. reflexivity.
Defined.

Lemma process_data_mutates_date_column_witness :
  exists h' agg f',
    process_data 0%nat ["X"%string] (mkdate 2020 3 9) (mkdate 2021 3 9)
                 {[0%nat := two_iso_frame]} = Some (h', agg) /\
    h' !! 0%nat = Some f' /\
    Forall2 only_date_changed two_iso_frame f' /\
    f' <> two_iso_frame.
Proof.
  destruct (process_data_mutates_date_column two_row_reader {[0%nat := two_iso_frame]} 0%nat
              two_iso_frame ["X"%string] (mkdate 2020 3 9) (mkdate 2021 3 9)
              (lookup_singleton_eq 0%nat two_iso_frame))
    as [[h' [agg [f' [H1 [H2 [_ H4]]]]]] _].
  exists h', agg, f'. split; [exact H1|]. split; [exact H2|]. split; [exact H4|].
  intros ->. inversion H4 as [|? ? ? ? [Hd _] _]. discriminate Hd.
Defined.

End MainFacts.

(* ===================================================================== *)
(** ** literal_eval reads back what str() writes *)
(* ===================================================================== *)

Module LiteralFacts.
Import PyLiteral.
Local Open Scope char_scope.
Local Open Scope list_scope.

(** *** Blanks and first characters *)

Lemma value_start_skip (s : text) :
  value_start s = true ->
  skip_ws s = s /\ starts_with "]" s = false /\ starts_with "}" s = false.
Proof.
  destruct s as [|c r]; unfold value_start; [discriminate|].
  rewrite !andb_true_iff, !negb_true_iff. intros [[Hs Hb] Hc].
  cbn [skip_ws starts_with]. rewrite Hs.
  rewrite (Ascii.eqb_sym "]" c), (Ascii.eqb_sym "}" c). auto.
Qed.

Lemma parse_value_space (fuel : nat) (s : text) :
  parse_value fuel (" " :: s) = parse_value fuel s.
Proof. destruct fuel; reflexivity. Qed.

Lemma parse_elems_space (fuel : nat) (s : text) :
  parse_elems fuel (" " :: s) = parse_elems fuel s.
Proof. destruct fuel; [reflexivity|]. simpl. rewrite parse_value_space. reflexivity. Qed.

Lemma parse_items_space (fuel : nat) (s : text) :
  parse_items fuel (" " :: s) = parse_items fuel s.
Proof. destruct fuel; reflexivity. Qed.

(** *** Integers *)

Lemma boundary_not_digit (c : ascii) (r : text) :
  at_boundary (c :: r) = true -> digit_of c = None.
Proof. each_char c; simpl; intros H; try reflexivity; discriminate H. Qed.

Lemma read_uint_show (d : Decimal.uint) (rest : text) :
  at_boundary rest = true -> read_uint (show_uint d ++ rest) = (d, rest).
Proof.
  intros Hb. induction d; simpl; try (rewrite IHd; reflexivity).
  destruct rest as [|c r]; [reflexivity|]. simpl.
  rewrite (boundary_not_digit c r Hb). reflexivity.
Qed.

Lemma parse_nat_show (d : Decimal.uint) (rest : text) :
  d <> Decimal.Nil ->
  (forall d', d = Decimal.D0 d' -> d' = Decimal.Nil) ->
  digits_ok d = true ->
  at_boundary rest = true ->
  parse_nat (show_uint d ++ rest) = Some (Z.of_uint d, rest).
Proof.
  intros Hnil Hlead Hdig Hb. unfold parse_nat. rewrite (read_uint_show d rest Hb).
  destruct d; try congruence; rewrite ?Hdig, Hb; try reflexivity.
  rewrite (Hlead d eq_refl). reflexivity.
Qed.

Lemma to_int_normal (z : Z) : Decimal.norm (Z.to_int z) = Z.to_int z.
Proof. rewrite <- DecimalZ.to_of, DecimalZ.of_to. reflexivity. Qed.

Lemma to_int_shape (z : Z) :
  match Z.to_int z with
  | Decimal.Pos d =>
      d <> Decimal.Nil /\ (forall d', d = Decimal.D0 d' -> d' = Decimal.Nil) /\
      Z.of_uint d = z
  | Decimal.Neg d =>
      d <> Decimal.Nil /\ (forall d', d <> Decimal.D0 d') /\ - Z.of_uint d = z
  end.
Proof.
  pose proof (to_int_normal z) as Hn. pose proof (DecimalZ.of_to z) as Hz.
  destruct (Z.to_int z) as [d|d]; unfold Decimal.norm in Hn; simpl in Hz.
  - injection Hn as Hn. split; [rewrite <- Hn; apply DecimalFacts.unorm_nonnil|]. split; [|exact Hz].
    intros d' ->. rewrite DecimalFacts.unorm_D0 in Hn. unfold Decimal.unorm in Hn.
    destruct (Decimal.nzhead d') eqn:E; try discriminate Hn.
    + injection Hn as <-. reflexivity.
    + destruct (DecimalFacts.nzhead_nonzero _ _ E).
  - destruct (Decimal.nzhead d) eqn:E; try discriminate Hn; injection Hn as Hn;
      (split; [intros ->; discriminate E|]); (split; [|exact Hz]);
      intros d' Hd; rewrite Hd in Hn; try discriminate Hn;
      rewrite Hd, Hn in E; exact (DecimalFacts.nzhead_nonzero _ _ E).
Qed.

Lemma parse_value_digit (fuel : nat) (c : ascii) (r : text) :
  is_digit c = true ->
  parse_value (S fuel) (c :: r) =
    match parse_nat (c :: r) with
    | Some (z, r') => Some (PyInt z, r')
    | None => None
    end.
Proof.
  each_char c; intros H; try discriminate H; try reflexivity.
Qed.

Lemma parse_value_minus (fuel : nat) (r : text) :
  parse_value (S fuel) ("-" :: r) =
    match parse_nat (skip_ws r) with
    | Some (z, r') => Some (PyInt (- z), r')
    | None => None
    end.
Proof. reflexivity. Qed.

Lemma show_uint_head (d : Decimal.uint) :
  d <> Decimal.Nil -> exists c t, show_uint d = c :: t /\ is_digit c = true.
Proof. destruct d; [congruence | | | | | | | | | | ]; intros _; eexists; eexists; split; reflexivity. Qed.

Lemma digit_not_space (c : ascii) : is_digit c = true -> is_space c = false.
Proof. each_char c; intros H; try discriminate H; reflexivity. Qed.

Lemma parse_value_int (fuel : nat) (z : Z) (rest : text) :
  int_ok z = true ->
  at_boundary rest = true ->
  parse_value (S fuel) (repr_int z ++ rest) = Some (PyInt z, rest).
Proof.
  intros Hok Hb. unfold repr_int. pose proof (to_int_shape z) as Hs.
  unfold int_ok in Hok.
  destruct (Z.to_int z) as [d|d].
  - destruct Hs as [Hnil [Hlead Hz]].
    destruct (show_uint_head d Hnil) as [c [t [Hd Hc]]].
    pose proof (parse_nat_show d rest Hnil Hlead Hok Hb) as Hp.
    rewrite Hd in *. simpl app in *. rewrite (parse_value_digit fuel c _ Hc), Hp, Hz.
    reflexivity.
  - destruct Hs as [Hnil [Hlead Hz]].
    destruct (show_uint_head d Hnil) as [c [t [Hd Hc]]].
    assert (Hp : parse_nat (show_uint d ++ rest) = Some (Z.of_uint d, rest)).
    { apply parse_nat_show; auto. intros d' E. destruct (Hlead d' E). }
    simpl app. rewrite parse_value_minus.
    rewrite Hd in *. simpl app in *. simpl skip_ws.
    rewrite (digit_not_space c Hc), Hp, Hz. reflexivity.
Qed.

(** *** Strings *)

Lemma choose_quote_cases (s : text) : choose_quote s = squote \/ choose_quote s = dquote.
Proof. unfold choose_quote. destruct (has squote s && negb (has dquote s)); auto. Qed.

(** One character of the body: the parser undoes what repr wrote for it. *)
Lemma parse_escape (q c : ascii) (tail : text) :
  q = squote \/ q = dquote ->
  parse_str_body q (escape_char q c ++ tail) =
    match parse_str_body q tail with
    | Some (body, rest) => Some (c :: body, rest)
    | None => None
    end.
Proof.
  intros [-> | ->]; each_char c; reflexivity.
Qed.

Lemma parse_body (q : ascii) (l : text) (rest : text) :
  q = squote \/ q = dquote ->
  parse_str_body q (flat_map (escape_char q) l ++ q :: rest) = Some (l, rest).
Proof.
  intros Hq. induction l as [|c l IH].
  - destruct Hq as [-> | ->]; reflexivity.
  - cbn [flat_map]. rewrite <- app_assoc, (parse_escape q c _ Hq), IH. reflexivity.
Qed.

Lemma parse_str_repr (s : string) (rest : text) :
  parse_str (repr_str s ++ rest) = Some (s, rest).
Proof.
  unfold repr_str. set (l := list_ascii_of_string s).
  pose proof (choose_quote_cases l) as Hq. set (q := choose_quote l) in *.
  cbn [app]. rewrite <- app_assoc. cbn [app].
  unfold parse_str.
  replace (Ascii.eqb q squote || Ascii.eqb q dquote) with true
    by (destruct Hq as [-> | ->]; reflexivity).
  rewrite (parse_body q l rest Hq). simpl.
  unfold l. rewrite string_of_list_ascii_of_string. reflexivity.
Qed.

Lemma repr_str_head (s : string) :
  exists q t, repr_str s = q :: t /\ (q = squote \/ q = dquote).
Proof.
  unfold repr_str. eexists. eexists. split; [reflexivity|]. apply choose_quote_cases.
Qed.

Lemma parse_value_quote (fuel : nat) (q : ascii) (r : text) :
  q = squote \/ q = dquote ->
  parse_value (S fuel) (q :: r) =
    match parse_str (q :: r) with
    | Some (s, r') => Some (PyStr s, r')
    | None => None
    end.
Proof. intros [-> | ->]; reflexivity. Qed.

Lemma parse_value_str (fuel : nat) (s : string) (rest : text) :
  parse_value (S fuel) (repr_str s ++ rest) = Some (PyStr s, rest).
Proof.
  pose proof (parse_str_repr s rest) as Hp.
  destruct (repr_str_head s) as [q [t [E Hq]]]. rewrite E in *. cbn [app] in *.
  rewrite (parse_value_quote fuel q _ Hq), Hp. reflexivity.
Qed.

(** *** Lists, dicts and the whole value *)

Lemma pyval_need_ind (P : pyval -> Prop) :
  (forall v, (forall v', (need v' < need v)%nat -> P v') -> P v) -> forall v, P v.
Proof.
  intros H v. remember (need v) as n eqn:E. revert v E.
  induction n as [n IH] using lt_wf_ind. intros v ->.
  apply H. intros v' Hlt. exact (IH (need v') Hlt v' eq_refl).
Qed.

Lemma need_elem (x : pyval) (l : list pyval) :
  In x l -> (need x < need (PyList l))%nat.
Proof.
  simpl. induction l as [|y l IH]; simpl; [tauto|].
  intros [-> | Hin]; [lia|]. specialize (IH Hin). lia.
Qed.

Lemma need_item (k : string) (x : pyval) (items : list (string * pyval)) :
  In (k, x) items -> (need x < need (PyDict items))%nat.
Proof.
  simpl. induction items as [|[k' y] l IH]; simpl; [tauto|].
  intros [[= -> ->] | Hin]; [lia|]. specialize (IH Hin). lia.
Qed.

Lemma ints_ok_elem (x : pyval) (l : list pyval) :
  In x l -> ints_ok (PyList l) = true -> ints_ok x = true.
Proof. cbn [ints_ok]. intros Hin Hall. exact (proj1 (forallb_forall _ _) Hall x Hin). Qed.

Lemma ints_ok_item (k : string) (x : pyval) (items : list (string * pyval)) :
  In (k, x) items -> ints_ok (PyDict items) = true -> ints_ok x = true.
Proof.
  cbn [ints_ok]. intros Hin Hall. exact (proj1 (forallb_forall _ _) Hall (k, x) Hin).
Qed.

Lemma value_start_repr (v : pyval) (rest : text) : value_start (repr v ++ rest) = true.
Proof.
  destruct v as [|[]|z|s|l|items]; try reflexivity; cbn [repr].
  - unfold repr_int. pose proof (to_int_shape z) as Hs.
    destruct (Z.to_int z) as [d|d]; [|reflexivity].
    destruct Hs as [Hnil _]. destruct d; try congruence; reflexivity.
  - destruct (repr_str_head s) as [q [t [E [-> | ->]]]]; rewrite E; reflexivity.
Qed.

Lemma value_start_key (k : string) (rest : text) : value_start (repr_str k ++ rest) = true.
Proof. exact (value_start_repr (PyStr k) rest). Qed.

Lemma join_cons2 (sep p q : text) (ps : list text) :
  join sep (p :: q :: ps) = p ++ sep ++ join sep (q :: ps).
Proof. reflexivity. Qed.

Lemma value_start_join {A : Type} (f : A -> text) (x : A) (l : list A) (rest : text) :
  (forall tail, value_start (f x ++ tail) = true) ->
  value_start (join [","; " "] (map f (x :: l)) ++ rest) = true.
Proof.
  intros Hf. destruct l as [|y l].
  - apply Hf.
  - change (map f (x :: y :: l)) with (f x :: f y :: map f l).
    rewrite join_cons2, <- app_assoc. apply Hf.
Qed.

Lemma skip_ws_start (s : text) : value_start s = true -> skip_ws s = s.
Proof. intros H. apply (value_start_skip s H). Qed.

Lemma parse_elems_last (fuel : nat) (s : text) (v : pyval) (rest : text) :
  parse_value fuel s = Some (v, "]" :: rest) ->
  parse_elems (S fuel) s = Some ([v], rest).
Proof. intros H. cbn [parse_elems]. rewrite H. reflexivity. Qed.

Lemma parse_elems_more (fuel : nat) (s : text) (v : pyval) (J : text) :
  parse_value fuel s = Some (v, "," :: " " :: J) ->
  value_start J = true ->
  parse_elems (S fuel) s =
    match parse_elems fuel J with
    | Some (l, r') => Some (v :: l, r')
    | None => None
    end.
Proof.
  intros H HJ. destruct (value_start_skip J HJ) as [Hskip [Hclose _]].
  cbn [parse_elems]. rewrite H.
  change (Some (v, "," :: " " :: J) ≫= _)
    with (if starts_with "]" (skip_ws J) then Some ([v], tl (skip_ws J))
          else parse_elems fuel (" " :: J) ≫= (fun '(l, r') => Some (v :: l, r'))).
  rewrite Hskip, Hclose, parse_elems_space.
  destruct (parse_elems fuel J) as [[l r']|]; reflexivity.
Qed.

Lemma parse_items_last (fuel : nat) (k : string) (tail : text) (v : pyval) (rest : text) :
  parse_value fuel tail = Some (v, "}" :: rest) ->
  parse_items (S fuel) (repr_str k ++ ":" :: " " :: tail) = Some ([(k, v)], rest).
Proof.
  intros H. cbn [parse_items].
  rewrite (skip_ws_start _ (value_start_key k _)), parse_str_repr.
  change (Some (k, ":" :: " " :: tail) ≫= _)
    with (parse_value fuel (" " :: tail) ≫=
            (fun '(v, r) =>
               let r1 := skip_ws r in
               if starts_with "}" r1 then Some ([(k, v)], tl r1)
               else if starts_with "," r1 then
                 if starts_with "}" (skip_ws (tl r1)) then Some ([(k, v)], tl (skip_ws (tl r1)))
                 else '(l, r') ← parse_items fuel (tl r1); Some ((k, v) :: l, r')
               else None)).
  rewrite parse_value_space, H. reflexivity.
Qed.

Lemma parse_items_more (fuel : nat) (k : string) (tail : text) (v : pyval) (J : text) :
  parse_value fuel tail = Some (v, "," :: " " :: J) ->
  value_start J = true ->
  parse_items (S fuel) (repr_str k ++ ":" :: " " :: tail) =
    match parse_items fuel J with
    | Some (l, r') => Some ((k, v) :: l, r')
    | None => None
    end.
Proof.
  intros H HJ. destruct (value_start_skip J HJ) as [Hskip [_ Hclose]].
  cbn [parse_items].
  rewrite (skip_ws_start _ (value_start_key k _)), parse_str_repr.
  change (Some (k, ":" :: " " :: tail) ≫= _)
    with (parse_value fuel (" " :: tail) ≫=
            (fun '(v, r) =>
               let r1 := skip_ws r in
               if starts_with "}" r1 then Some ([(k, v)], tl r1)
               else if starts_with "," r1 then
                 if starts_with "}" (skip_ws (tl r1)) then Some ([(k, v)], tl (skip_ws (tl r1)))
                 else '(l, r') ← parse_items fuel (tl r1); Some ((k, v) :: l, r')
               else None)).
  rewrite parse_value_space, H.
  change (Some (v, "," :: " " :: J) ≫= _)
    with (if starts_with "}" (skip_ws J) then Some ([(k, v)], tl (skip_ws J))
          else parse_items fuel (" " :: J) ≫= (fun '(l, r') => Some ((k, v) :: l, r'))).
  rewrite Hskip, Hclose, parse_items_space.
  destruct (parse_items fuel J) as [[l r']|]; reflexivity.
Qed.

Section Elements.
Variable P : pyval -> Prop.
Hypothesis P_parses : forall v, P v ->
  forall fuel rest, (need v <= fuel)%nat -> at_boundary rest = true ->
                    parse_value fuel (repr v ++ rest) = Some (v, rest).

Lemma parse_elems_repr (l : list pyval) :
  l <> [] -> Forall P l ->
  forall fuel rest,
    (fold_right (fun x acc => S (need x + acc)) O l <= fuel)%nat ->
    parse_elems fuel (join [","; " "] (map repr l) ++ "]" :: rest) = Some (l, rest).
Proof.
  induction l as [|x l IH]; [congruence|]. intros _ Hall fuel rest Hfuel.
  destruct (Forall_cons_1 _ _ _ Hall) as [Hx Hl].
  simpl in Hfuel. destruct fuel as [|fuel]; [lia|].
  destruct l as [|y l].
  - apply parse_elems_last. cbn [map join].
    apply (P_parses x Hx); [lia | reflexivity].
  - change (map repr (x :: y :: l)) with (repr x :: repr y :: map repr l).
    rewrite join_cons2, <- !app_assoc.
    etransitivity;
      [apply (parse_elems_more fuel _ x
                (join [","; " "] (repr y :: map repr l) ++ "]" :: rest))|].
    + apply (P_parses x Hx); [lia | reflexivity].
    + apply (value_start_join repr y l). intros tail. apply value_start_repr.
    + change (repr y :: map repr l) with (map repr (y :: l)).
      rewrite (IH ltac:(discriminate) Hl fuel rest) by (simpl in *; lia). reflexivity.
Qed.

Lemma parse_items_repr (items : list (string * pyval)) :
  items <> [] -> Forall (fun kv => P (snd kv)) items ->
  forall fuel rest,
    (fold_right (fun kv acc => S (need (snd kv) + acc)) O items <= fuel)%nat ->
    parse_items fuel
      (join [","; " "] (map (fun kv => repr_str (fst kv) ++ [":"; " "] ++ repr (snd kv)) items)
         ++ "}" :: rest) = Some (items, rest).
Proof.
  induction items as [|[k x] l IH]; [congruence|]. intros _ Hall fuel rest Hfuel.
  destruct (Forall_cons_1 _ _ _ Hall) as [Hx Hl]. simpl in Hx.
  simpl in Hfuel. destruct fuel as [|fuel]; [lia|].
  set (part := fun kv : string * pyval => repr_str (fst kv) ++ [":"; " "] ++ repr (snd kv)).
  destruct l as [|[k' y] l].
  - cbn [map join]. unfold part. cbn [fst snd]. rewrite <- !app_assoc.
    apply parse_items_last. apply (P_parses x Hx); [lia | reflexivity].
  - change (map part ((k, x) :: (k', y) :: l))
      with (part (k, x) :: part (k', y) :: map part l).
    rewrite join_cons2. unfold part at 1. cbn [fst snd]. rewrite <- !app_assoc.
    etransitivity;
      [apply (parse_items_more fuel k _ x
                (join [","; " "] (part (k', y) :: map part l) ++ "}" :: rest))|].
    + apply (P_parses x Hx); [lia | reflexivity].
    + apply (value_start_join part (k', y) l). intros tail. unfold part. cbn [fst].
      rewrite <- app_assoc. apply value_start_key.
    + change (part (k', y) :: map part l) with (map part ((k', y) :: l)).
      unfold part.
      rewrite (IH ltac:(discriminate) Hl fuel rest) by (simpl in *; lia). reflexivity.
Qed.

End Elements.

Lemma repr_list (l : list pyval) :
  repr (PyList l) = "[" :: join [","; " "] (map repr l) ++ ["]"].
Proof. reflexivity. Qed.

Lemma repr_dict (items : list (string * pyval)) :
  repr (PyDict items) =
    "{" :: join [","; " "]
             (map (fun kv => repr_str (fst kv) ++ [":"; " "] ++ repr (snd kv)) items)
        ++ ["}"].
Proof. reflexivity. Qed.

(** Parsing the repr of a value, whatever follows it, gives the value back
    and leaves what follows. *)
Lemma parse_value_repr (v : pyval) :
  ints_ok v = true ->
  forall fuel rest, (need v <= fuel)%nat -> at_boundary rest = true ->
                    parse_value fuel (repr v ++ rest) = Some (v, rest).
Proof.
  induction v as [v IH] using pyval_need_ind. intros Hok fuel rest Hfuel Hb.
  destruct fuel as [|fuel]; [destruct v; simpl in Hfuel; lia|].
  destruct v as [|[]|z|s|l|items].
  - change (parse_value (S fuel) (repr PyNone ++ rest))
      with (if at_boundary rest then Some (PyNone, rest) else None).
    rewrite Hb. reflexivity.
  - change (parse_value (S fuel) (repr (PyBool true) ++ rest))
      with (if at_boundary rest then Some (PyBool true, rest) else None).
    rewrite Hb. reflexivity.
  - change (parse_value (S fuel) (repr (PyBool false) ++ rest))
      with (if at_boundary rest then Some (PyBool false, rest) else None).
    rewrite Hb. reflexivity.
  - apply parse_value_int; [exact Hok | exact Hb].
  - apply parse_value_str.
  - destruct l as [|x l]; [reflexivity|].
    rewrite repr_list, <- app_comm_cons, <- app_assoc.
    change (["]"] ++ rest) with ("]" :: rest).
    set (J := join [","; " "] (map repr (x :: l)) ++ "]" :: rest).
    assert (HJ : value_start J = true).
    { unfold J. apply value_start_join. intros tail. apply value_start_repr. }
    destruct (value_start_skip J HJ) as [Hskip [Hclose _]].
    change (parse_value (S fuel) ("[" :: J))
      with (if starts_with "]" (skip_ws J) then Some (PyList [], tl (skip_ws J))
            else match parse_elems fuel J with
                 | Some (l', r') => Some (PyList l', r')
                 | None => None
                 end).
    rewrite Hskip, Hclose. unfold J.
    rewrite (parse_elems_repr
               (fun x' => (need x' < need (PyList (x :: l)))%nat /\ ints_ok x' = true)).
    + reflexivity.
    + intros v' [Hv' Hok']. apply IH; [exact Hv' | exact Hok'].
    + discriminate.
    + apply List.Forall_forall. intros x' Hx'.
      split; [apply need_elem, Hx' | exact (ints_ok_elem x' _ Hx' Hok)].
    + simpl in *. lia.
  - destruct items as [|[k x] l]; [reflexivity|].
    rewrite repr_dict, <- app_comm_cons, <- app_assoc.
    change (["}"] ++ rest) with ("}" :: rest).
    set (part := fun kv : string * pyval => repr_str (fst kv) ++ [":"; " "] ++ repr (snd kv)).
    set (J := join [","; " "] (map part ((k, x) :: l)) ++ "}" :: rest).
    assert (HJ : value_start J = true).
    { unfold J. apply value_start_join. intros tail. unfold part. cbn [fst].
      rewrite <- app_assoc. apply value_start_key. }
    destruct (value_start_skip J HJ) as [Hskip [_ Hclose]].
    change (parse_value (S fuel) ("{" :: J))
      with (if starts_with "}" (skip_ws J) then Some (PyDict [], tl (skip_ws J))
            else match parse_items fuel J with
                 | Some (l', r') => Some (PyDict l', r')
                 | None => None
                 end).
    rewrite Hskip, Hclose. unfold J, part.
    rewrite (parse_items_repr
               (fun x' => (need x' < need (PyDict ((k, x) :: l)))%nat /\ ints_ok x' = true)).
    + reflexivity.
    + intros v' [Hv' Hok']. apply IH; [exact Hv' | exact Hok'].
    + discriminate.
    + apply List.Forall_forall. intros [k' x'] Hx'.
      split; [exact (need_item k' x' _ Hx') | exact (ints_ok_item k' x' _ Hx' Hok)].
    + simpl in *. lia.
Qed.

(** *** The fuel literal_eval gives is enough *)

Lemma need_join {A : Type} (f : A -> text) (g : A -> nat) (l : list A) :
  Forall (fun a => (g a <= length (f a))%nat) l ->
  (fold_right (fun a acc => S (g a + acc)) O l <= length (join [","; " "] (map f l)) + 1)%nat.
Proof.
  induction 1 as [|a l Ha Hl IH]; [simpl; lia|].
  destruct l as [|b l].
  - cbn [map join fold_right]. lia.
  - change (map f (a :: b :: l)) with (f a :: f b :: map f l).
    rewrite join_cons2, !length_app.
    change (f b :: map f l) with (map f (b :: l)).
    cbn [fold_right] in *. cbn [length].
    set (J := length (join [","; " "] (map f (b :: l)))) in *.
    set (X := fold_right (fun a0 acc => S (g a0 + acc)) O l) in *.
    set (La := length (f a)) in *. clearbody J X La.
    clear - IH Ha. lia.
Qed.

Lemma need_le_length (v : pyval) : (need v <= length (repr v))%nat.
Proof.
  induction v as [v IH] using pyval_need_ind.
  destruct v as [|[]|z|s|l|items]; try (simpl; lia).
  - change (1 <= length (repr_int z))%nat. unfold repr_int.
    pose proof (to_int_shape z) as Hs.
    destruct (Z.to_int z) as [d|d]; [|cbn [length]; lia].
    destruct Hs as [Hnil _]. destruct d; try congruence; cbn [show_uint length]; lia.
  - rewrite repr_list. cbn [length]. rewrite length_app. cbn [length].
    assert (H : Forall (fun x => (need x <= length (repr x))%nat) l).
    { apply List.Forall_forall. intros x Hx. apply IH, need_elem, Hx. }
    pose proof (need_join repr need l H) as Hj.
    change (need (PyList l)) with (S (fold_right (fun x acc => S (need x + acc)) O l)).
    apply le_n_S. exact Hj.
  - rewrite repr_dict. cbn [length]. rewrite length_app. cbn [length].
    set (part := fun kv : string * pyval => repr_str (fst kv) ++ [":"; " "] ++ repr (snd kv)).
    assert (H : Forall (fun kv => (need (snd kv) <= length (part kv))%nat) items).
    { apply List.Forall_forall. intros [k x] Hx. unfold part. cbn [fst snd].
      rewrite !length_app. pose proof (IH x (need_item k x items Hx)). lia. }
    pose proof (need_join part (fun kv => need (snd kv)) items H) as Hj.
    change (need (PyDict items))
      with (S (fold_right (fun kv acc => S (need (snd kv) + acc)) O items)).
    fold part. apply le_n_S. exact Hj.
Qed.

(** Reading the repr of a value gives the value back, unless its brackets
    nest too deep. *)
Lemma literal_eval_repr (v : pyval) :
  ints_ok v = true ->
  literal_eval (string_of_list_ascii (repr v))
  = if Nat.leb (depth v) max_nesting then Some v else None.
Proof.
  intros Hok. unfold literal_eval. rewrite list_ascii_of_string_of_list_ascii.
  pose proof (parse_value_repr v Hok (S (length (repr v))) []) as H.
  rewrite app_nil_r in H. rewrite H; [reflexivity| |reflexivity].
  pose proof (need_le_length v). lia.
Qed.

(** The round trip on values other than strings: [literal_eval (str v)]
    is [v], unless the brackets of [v] nest too deep. *)
Lemma literal_eval_str (v : pyval) (t : string) :
  (forall s, v <> PyStr s) ->
  py_str v = Some t ->
  literal_eval t = if Nat.leb (depth v) max_nesting then Some v else None.
Proof.
  intros Hstr. unfold py_str. destruct (ints_ok v) eqn:Hok; [|discriminate].
  intros [= <-]. destruct v; try (apply literal_eval_repr, Hok).
  destruct (Hstr s eq_refl).
Qed.

(** *** The text of a value holds no carriage return *)

Lemma has_app (c : ascii) (a b : text) : has c (a ++ b) = has c a || has c b.
Proof. apply existsb_app. Qed.

Lemma no_cr_show_uint (d : Decimal.uint) : has CR (show_uint d) = false.
Proof. induction d; cbn [show_uint]; try reflexivity; exact IHd. Qed.

Lemma no_cr_escape (q c : ascii) :
  q = squote \/ q = dquote -> has CR (escape_char q c) = false.
Proof. intros [-> | ->]; each_char c; reflexivity. Qed.

Lemma no_cr_repr_str (s : string) : has CR (repr_str s) = false.
Proof.
  unfold repr_str. set (l := list_ascii_of_string s).
  pose proof (choose_quote_cases l) as Hq. set (q := choose_quote l) in *.
  change (q :: flat_map (escape_char q) l ++ [q])
    with ([q] ++ flat_map (escape_char q) l ++ [q]).
  rewrite !has_app.
  assert (Hquote : has CR [q] = false) by (destruct Hq as [-> | ->]; reflexivity).
  rewrite Hquote. cbn [orb]. rewrite orb_false_r.
  clearbody q. clear Hquote. induction l as [|c l IH]; [reflexivity|].
  cbn [flat_map]. rewrite has_app, (no_cr_escape q c Hq), IH. reflexivity.
Qed.

Lemma no_cr_join (parts : list text) :
  Forall (fun p => has CR p = false) parts -> has CR (join [","; " "] parts) = false.
Proof.
  induction 1 as [|p parts Hp Hall IH]; [reflexivity|].
  destruct parts as [|p' parts]; [exact Hp|].
  rewrite join_cons2, !has_app, Hp, IH. reflexivity.
Qed.

Lemma no_cr_repr (v : pyval) : has CR (repr v) = false.
Proof.
  induction v as [v IH] using pyval_need_ind.
  destruct v as [|[]|z|s|l|items]; try reflexivity.
  - change (has CR (repr_int z) = false). unfold repr_int.
    destruct (Z.to_int z) as [d|d]; [apply no_cr_show_uint|].
    change ("-" :: show_uint d) with (["-"] ++ show_uint d).
    rewrite has_app, no_cr_show_uint. reflexivity.
  - apply no_cr_repr_str.
  - rewrite repr_list.
    change ("[" :: join [","; " "] (map repr l) ++ ["]"])
      with (["["] ++ join [","; " "] (map repr l) ++ ["]"]).
    rewrite !has_app, no_cr_join; [reflexivity|].
    apply List.Forall_forall. intros p Hp. apply in_map_iff in Hp.
    destruct Hp as [x [<- Hx]]. apply IH, need_elem, Hx.
  - rewrite repr_dict.
    set (part := fun kv : string * pyval => repr_str (fst kv) ++ [":"; " "] ++ repr (snd kv)).
    change ("{" :: join [","; " "] (map part items) ++ ["}"])
      with (["{"] ++ join [","; " "] (map part items) ++ ["}"]).
    rewrite !has_app, no_cr_join; [reflexivity|].
    apply List.Forall_forall. intros p Hp. apply in_map_iff in Hp.
    destruct Hp as [[k x] [<- Hx]]. unfold part. cbn [fst snd].
    rewrite !has_app, no_cr_repr_str, (IH x (need_item k x items Hx)). reflexivity.
Qed.

End LiteralFacts.

(* ===================================================================== *)
(** ** The tokenizer reads back what the writer wrote *)
(* ===================================================================== *)

Module CsvFacts.
Import PyLiteral Csv.
Local Open Scope char_scope.
Local Open Scope list_scope.

Lemma run_app (st : tok) (a b : text) : run st (a ++ b) = run (run st a) b.
Proof. apply fold_left_app. Qed.

Lemma special_cases (c : ascii) :
  special c = false ->
  Ascii.eqb c LF = false /\ Ascii.eqb c "," = false /\ Ascii.eqb c dquote = false.
Proof.
  unfold special. rewrite !orb_false_iff. tauto.
Qed.

Lemma no_cr_cons (c : ascii) (f : text) :
  no_cr (c :: f) -> Ascii.eqb c CR = false /\ no_cr f.
Proof.
  unfold no_cr, has. cbn [existsb]. rewrite orb_false_iff, (Ascii.eqb_sym CR c). tauto.
Qed.

(** A character that neither needs quotes nor breaks the line. *)
Lemma ordinary_char (c : ascii) :
  special c = false -> Ascii.eqb c CR = false ->
  is_newline c = false /\ Ascii.eqb c "," = false /\ Ascii.eqb c dquote = false.
Proof.
  intros Hs Hcr. destruct (special_cases c Hs) as [Hlf [Hd Hq]].
  unfold is_newline. rewrite Hlf, Hcr. auto.
Qed.

(** A run of ordinary characters inside an unquoted field. *)
Lemma run_plain (f buf : text) (fs : list text) (rs : list (list text)) :
  needs_quotes f = false -> no_cr f ->
  run (mktok InField buf fs rs) f = mktok InField (buf ++ f) fs rs.
Proof.
  revert buf. induction f as [|c f IH]; intros buf Hq Hcr.
  - rewrite app_nil_r. reflexivity.
  - unfold needs_quotes in Hq. cbn [existsb] in Hq. apply orb_false_iff in Hq.
    destruct Hq as [Hc Hf]. destruct (no_cr_cons c f Hcr) as [Hc' Hf'].
    destruct (ordinary_char c Hc Hc') as [Hn [Hd Hquote]].
    cbn [run fold_left]. unfold step at 2. cbn [tmode]. rewrite Hn, Hd.
    unfold push. cbn [field fields records].
    fold (run (mktok InField (buf ++ [c]) fs rs) f).
    rewrite (IH (buf ++ [c]) Hf Hf'), <- app_assoc. reflexivity.
Qed.

(** An unquoted field read from the start of a field or of a record. *)
Lemma run_plain_start (m : mode) (f : text) (fs : list text) (rs : list (list text)) :
  m = StartRecord \/ m = StartField ->
  needs_quotes f = false -> no_cr f -> f <> [] ->
  run (mktok m [] fs rs) f = mktok InField f fs rs.
Proof.
  intros Hm Hq Hcr Hne. destruct f as [|c f]; [congruence|].
  unfold needs_quotes in Hq. cbn [existsb] in Hq. apply orb_false_iff in Hq.
  destruct Hq as [Hc Hf]. destruct (no_cr_cons c f Hcr) as [Hc' Hf'].
  destruct (ordinary_char c Hc Hc') as [Hn [Hd Hquote]].
  cbn [run fold_left].
  assert (Hstep : step (mktok m [] fs rs) c = mktok InField [c] fs rs).
  { destruct Hm as [-> | ->]; unfold step; cbn [tmode]; rewrite Hn, Hquote, Hd; reflexivity. }
  rewrite Hstep. apply (run_plain f [c] fs rs Hf Hf').
Qed.

(** The inside of a quoted field. *)
Lemma run_quoted (f buf : text) (fs : list text) (rs : list (list text)) :
  run (mktok InQuoted buf fs rs) (double_quotes f) = mktok InQuoted (buf ++ f) fs rs.
Proof.
  revert buf. induction f as [|c f IH]; intros buf.
  - rewrite app_nil_r. reflexivity.
  - unfold double_quotes. cbn [flat_map]. fold (double_quotes f).
    rewrite run_app. destruct (Ascii.eqb c dquote) eqn:E.
    + apply Ascii.eqb_eq in E. subst c.
      change (run (mktok InQuoted buf fs rs) [dquote; dquote])
        with (mktok InQuoted (buf ++ [dquote]) fs rs).
      rewrite IH, <- app_assoc. reflexivity.
    + cbn [run fold_left]. unfold step. cbn [tmode]. rewrite E.
      unfold push. cbn [field fields records].
      fold (run (mktok InQuoted (buf ++ [c]) fs rs) (double_quotes f)).
      rewrite IH, <- app_assoc. reflexivity.
Qed.

Lemma run_field (m : mode) (f : text) (fs : list text) (rs : list (list text)) :
  m = StartRecord \/ m = StartField -> no_cr f ->
  run (mktok m [] fs rs) (write_field f) = mktok (after_field m f) f fs rs.
Proof.
  intros Hm Hcr. unfold write_field, after_field. destruct (needs_quotes f) eqn:Hq.
  - change (dquote :: double_quotes f ++ [dquote])
      with ([dquote] ++ double_quotes f ++ [dquote]).
    rewrite !run_app.
    assert (Hopen : run (mktok m [] fs rs) [dquote] = mktok InQuoted [] fs rs)
      by (destruct Hm as [-> | ->]; reflexivity).
    rewrite Hopen, run_quoted. reflexivity.
  - destruct f as [|c f]; [reflexivity|].
    apply run_plain_start; [assumption | assumption | assumption | discriminate].
Qed.

Lemma step_comma (m : mode) (f : text) (fs : list text) (rs : list (list text)) :
  m = StartRecord \/ m = StartField ->
  step (mktok (after_field m f) f fs rs) "," = mktok StartField [] (fs ++ [f]) rs.
Proof.
  intros Hm. unfold after_field.
  destruct (needs_quotes f); [reflexivity|].
  destruct f; [destruct Hm as [-> | ->]|]; reflexivity.
Qed.

Lemma step_newline (m : mode) (f : text) (fs : list text) (rs : list (list text)) :
  m = StartField \/ f <> [] ->
  step (mktok (after_field m f) f fs rs) LF = mktok StartRecord [] [] (rs ++ [fs ++ [f]]).
Proof.
  intros Hm. unfold after_field.
  destruct (needs_quotes f); [reflexivity|].
  destruct f; [|reflexivity].
  destruct Hm as [-> | Hne]; [reflexivity | congruence].
Qed.

(** The fields of one line, from the start of a field or of a record. *)
Lemma run_fields (l : list text) :
  l <> [] -> Forall no_cr l ->
  forall (m : mode) (fs : list text) (rs : list (list text)),
    m = StartField \/ (m = StartRecord /\ l <> [[]]) ->
    run (mktok m [] fs rs) (join [","] (map write_field l) ++ [LF])
    = mktok StartRecord [] [] (rs ++ [fs ++ l]).
Proof.
  induction l as [|f l IH]; [congruence|]. intros _ Hall m fs rs Hm.
  destruct (Forall_cons_1 _ _ _ Hall) as [Hf Hl].
  assert (Hm' : m = StartRecord \/ m = StartField) by tauto.
  destruct l as [|g l].
  - cbn [map join]. rewrite run_app, (run_field m f fs rs Hm' Hf).
    cbn [run fold_left]. apply step_newline.
    destruct Hm as [-> | [_ Hne]]; [left; reflexivity|].
    right. intros ->. apply Hne. reflexivity.
  - change (map write_field (f :: g :: l))
      with (write_field f :: write_field g :: map write_field l).
    rewrite LiteralFacts.join_cons2, <- !app_assoc.
    rewrite run_app, (run_field m f fs rs Hm' Hf).
    change ([","] ++ join [","] (write_field g :: map write_field l) ++ [LF])
      with ("," :: (join [","] (map write_field (g :: l)) ++ [LF])).
    cbn [run fold_left]. rewrite (step_comma m f fs rs Hm').
    fold (run (mktok StartField [] (fs ++ [f]) rs)
              (join [","] (map write_field (g :: l)) ++ [LF])).
    rewrite (IH ltac:(discriminate) Hl StartField (fs ++ [f]) rs) by (left; reflexivity).
    rewrite <- app_assoc. reflexivity.
Qed.

Lemma run_record (l : list text) (rs : list (list text)) :
  l <> [] -> Forall no_cr l ->
  run (mktok StartRecord [] [] rs) (write_record l) = mktok StartRecord [] [] (rs ++ [l]).
Proof.
  intros Hne Hall. destruct l as [|f l]; [congruence|].
  destruct f as [|c f]; [destruct l as [|g l]|].
  - reflexivity.
  - apply (run_fields ([] :: g :: l)); [discriminate | exact Hall |].
    right. split; [reflexivity | discriminate].
  - unfold write_record.
    apply (run_fields ((c :: f) :: l)); [discriminate | exact Hall |].
    right. split; [reflexivity | discriminate].
Qed.

Lemma run_rows (rows : list (list text)) (rs : list (list text)) :
  Forall (fun l => l <> [] /\ Forall no_cr l) rows ->
  run (mktok StartRecord [] [] rs) (write_rows rows) = mktok StartRecord [] [] (rs ++ rows).
Proof.
  intros Hall. revert rs. induction Hall as [|l rows [Hl Hcr] _ IH]; intros rs.
  - rewrite app_nil_r. reflexivity.
  - unfold write_rows. cbn [map concat]. fold (write_rows rows).
    rewrite run_app, (run_record l rs Hl Hcr), IH, <- app_assoc. reflexivity.
Qed.

(** Reading back a table in which no row is empty and no cell holds a
    carriage return gives the table. *)
Lemma tokenize_write_rows (rows : list (list text)) :
  Forall (fun l => l <> [] /\ Forall no_cr l) rows -> tokenize (write_rows rows) = rows.
Proof.
  intros Hall. unfold tokenize, init. rewrite (run_rows rows [] Hall). reflexivity.
Qed.

End CsvFacts.

(* ===================================================================== *)
(** ** From the fetcher's file back to country and ISO code *)
(* ===================================================================== *)

Module RoundTrip.
Import PyLiteral Csv Snapshot Frame Dashboard Reload LiteralFacts CsvFacts.

(** *** Integers that can be written *)

Lemma show_uint_digits (d : Decimal.uint) :
  List.filter is_digit (show_uint d) = show_uint d /\
  length (show_uint d) = Decimal.nb_digits d.
Proof.
  induction d as [|d [IH1 IH2]|d [IH1 IH2]|d [IH1 IH2]|d [IH1 IH2]|d [IH1 IH2]
                  |d [IH1 IH2]|d [IH1 IH2]|d [IH1 IH2]|d [IH1 IH2]|d [IH1 IH2]];
    [split; reflexivity| | | | | | | | | | ];
    cbn [show_uint Decimal.nb_digits length];
    (split; [|rewrite IH2; reflexivity]);
    change (List.filter is_digit (?c :: show_uint d))
      with (c :: List.filter is_digit (show_uint d));
    rewrite IH1; reflexivity.
Qed.

Lemma short_int_ok (z : Z) : short_int z -> int_ok z = true.
Proof.
  unfold short_int, int_ok, repr_int, digits_ok, max_str_digits.
  destruct (Z.to_int z) as [d|d]; intros H; apply Nat.leb_le.
  - destruct (show_uint_digits d) as [H1 H2]. rewrite H1, H2 in H. exact H.
  - change (List.filter is_digit ("-"%char :: show_uint d))
      with (List.filter is_digit (show_uint d)) in H.
    destruct (show_uint_digits d) as [H1 H2]. rewrite H1, H2 in H. exact H.
Qed.

Lemma short_ints_ok (v : pyval) : Forall short_int (ints_of v) -> ints_ok v = true.
Proof.
  induction v as [v IH] using pyval_need_ind.
  destruct v as [|b|z|s|l|items]; try reflexivity; cbn [ints_of ints_ok]; intros H.
  - apply short_int_ok. inversion H; assumption.
  - apply forallb_forall. intros x Hx. apply IH; [apply need_elem, Hx|].
    apply List.Forall_forall. intros z Hz. rewrite List.Forall_forall in H.
    apply H. apply in_flat_map. exists x. auto.
  - apply forallb_forall. intros [k x] Hx. cbn [snd].
    apply IH; [exact (need_item k x items Hx)|].
    apply List.Forall_forall. intros z Hz. rewrite List.Forall_forall in H.
    apply H. apply in_flat_map. exists (k, x). auto.
Qed.

(** The text of a region dict as the file holds it. *)
Lemma region_field_repr (v : pyval) (k s : string) :
  ints_ok v = true -> (depth v <= max_nesting)%nat ->
  subscript v k = Some (PyStr s) ->
  region_field k (string_of_list_ascii (repr v)) = Ok s.
Proof.
  intros Hok Hd H. unfold region_field. rewrite (literal_eval_repr v Hok).
  rewrite (proj2 (Nat.leb_le _ _) Hd), H. reflexivity.
Qed.

Lemma apply_region_repr (k : string) (regions : list pyval) (vals : list string) :
  Forall (fun v => ints_ok v = true /\ (depth v <= max_nesting)%nat) regions ->
  Forall2 (fun v s => subscript v k = Some (PyStr s)) regions vals ->
  forall cs : list csv_row,
    map col_region cs = map (fun v => string_of_list_ascii (repr v)) regions ->
    apply_region k cs = Ok vals.
Proof.
  intros Hlim H. induction H as [|v s regions vals Hv _ IH]; intros [|c cs] Hcs;
    try discriminate Hcs.
  - reflexivity.
  - injection Hcs as Hc Hcs. cbn [apply_region].
    destruct (Forall_cons_1 _ _ _ Hlim) as [[Hok Hd] Hlim'].
    rewrite Hc, (region_field_repr _ _ _ Hok Hd Hv), (IH Hlim' cs Hcs). reflexivity.
Qed.

Lemma with_columns_country (cs : list csv_row) (names isos : list string) :
  length names = length cs -> length isos = length cs ->
  map country (with_columns cs names isos) = names /\
  map iso_alpha (with_columns cs names isos) = isos /\
  map base (with_columns cs names isos) = cs.
Proof.
  revert names isos. induction cs as [|c cs IH]; intros [|n names] [|i isos] Hn Hi;
    try discriminate; [repeat split|].
  injection Hn as Hn. injection Hi as Hi.
  destruct (IH names isos Hn Hi) as [H1 [H2 H3]].
  cbn [with_columns map country iso_alpha base]. rewrite H1, H2, H3. repeat split.
Qed.

Lemma cells_dict (r : report) :
  (exists items, region r = PyDict items) -> ints_ok (region r) = true ->
  cells r = Some (line_of r).
Proof.
  intros [items E] Hok. unfold cells, cell_text, py_str, line_of.
  rewrite Hok, E. cbn. rewrite list_ascii_of_string_of_list_ascii. reflexivity.
Qed.

Lemma all_cells_dicts (rows : list report) :
  Forall (fun r => (exists items, region r = PyDict items) /\ ints_ok (region r) = true) rows ->
  all_cells rows = Some (map line_of rows).
Proof.
  induction 1 as [|r rows [Hd Hok] _ IH]; [reflexivity|].
  cbn [all_cells map]. rewrite (cells_dict r Hd Hok), IH. reflexivity.
Qed.

Lemma column_lines (n : nat) (rows : list report) :
  Forall (fun r => length (left_cells r) = n) rows ->
  column n (map line_of rows) = Some (map (fun r => repr (region r)) rows).
Proof.
  induction 1 as [|r rows Hn _ IH]; [reflexivity|].
  cbn [map column]. rewrite IH.
  assert (Hl : line_of r !! n = Some (repr (region r))).
  { unfold line_of. rewrite lookup_app_r by lia. rewrite Hn, Nat.sub_diag. reflexivity. }
  rewrite Hl. reflexivity.
Qed.

Lemma subscript_dict (v : pyval) (k : string) (x : pyval) :
  subscript v k = Some x -> exists items, v = PyDict items.
Proof. destruct v; try discriminate. eauto. Qed.

Lemma named_regions_are_dicts (k : string) (reports : list report) (vals : list string) :
  Forall2 (fun r s => subscript (region r) k = Some (PyStr s)) reports vals ->
  Forall (fun r => exists items, region r = PyDict items) reports.
Proof.
  induction 1 as [|r s reports vals Hr _ IH]; constructor; [|exact IH].
  exact (subscript_dict _ _ _ Hr).
Qed.

Lemma repr_dict_opens (items : list (string * pyval)) :
  starts_with "{" (repr (PyDict items)) = true.
Proof. reflexivity. Qed.

(** The example reader keeps the region texts. *)
Lemma region_reader_keeps : keeps_region_texts region_reader.
Proof.
  intros content texts rows Htexts _ Hread. unfold region_reader in Hread.
  unfold region_texts in Htexts.
  destruct (read_cells (list_ascii_of_string content)) as [|header lines]; [discriminate|].
  destruct (position region_name header) as [n|]; [|discriminate].
  cbn in Htexts, Hread. injection Hread as <-.
  destruct (forallb _ lines); [|discriminate].
  clear header. revert texts Htexts. induction lines as [|line lines IH]; intros texts Htexts.
  - injection Htexts as <-. reflexivity.
  - cbn [column] in Htexts. cbn [map]. unfold region_cell at 1. cbn [col_region].
    unfold text in *. destruct (line !! n) as [t|]; [|discriminate].
    cbn in Htexts. destruct (column n lines) as [ts|]; [|discriminate].
    injection Htexts as <-. cbn [map default]. rewrite (IH ts eq_refl). reflexivity.
Qed.

Section Reader.
Variable read_csv : string -> option (list csv_row).
Hypothesis read_csv_keeps : keeps_region_texts read_csv.


End Reader.



End RoundTrip.

(* ===================================================================== *)
(** ** More on the fetcher: what is collected, what is logged, the range *)
(* ===================================================================== *)

Module FetchLogFacts.
Import Fetcher FetchLog DateFacts FetcherFacts.

Section Log.
Context {R : Type}.
Variable api : date -> response R.

Lemma fetch_consistent (d : date) (st : @state R) :
  consistent api st ->
  consistent api (extend_if (snd (fetch_data_for_date api d st))
                        (fst (fetch_data_for_date api d st))).
Proof.
  intros [Hd Hf]. unfold consistent, fetch_data_for_date, got, failed.
  destruct (status_code (api d) =? 200) eqn:E; cbn [fst snd extend_if].
  - destruct (body_data (api d)) as [|x l] eqn:Eb;
      cbn [requests failures all_data];
      rewrite flat_map_app, List.filter_app; cbn [flat_map List.filter];
      unfold got, failed in *; rewrite E, Eb; cbn [negb];
      rewrite ?app_nil_r, <- Hd, <- Hf; split; reflexivity.
  - cbn [requests failures all_data].
    rewrite flat_map_app, List.filter_app. cbn [flat_map List.filter].
    unfold got, failed in *. rewrite E. cbn [negb].
    rewrite ?app_nil_r, <- Hd, <- Hf. split; reflexivity.
Qed.

Lemma loop_consistent (fuel : nat) (e : date) :
  forall (cur : date) (st : @state R),
    consistent api st -> consistent api (fst (loop api fuel e cur st)).
Proof.
  induction fuel as [|fuel IH]; intros cur st Hst; [exact Hst|].
  cbn [loop]. destruct (PyDate.leb cur e); [|exact Hst].
  pose proof (fetch_consistent cur st Hst) as Hstep.
  destruct (fetch_data_for_date api cur st) as [st1 data]. cbn [fst snd] in Hstep.
  destruct (advance cur) as [next|]; [apply IH, Hstep | exact Hstep].
Qed.

Lemma run_consistent (fuel : nat) (s e : date) :
  consistent api (fst (run api fuel s e)).
Proof. apply loop_consistent. split; reflexivity. Qed.

End Log.

(** X1. After a run over start <= end, [all_data] holds the [data] arrays
    of the requested dates that answered 200, in request order; a date
    answered with another status contributes nothing. *)
Theorem all_data_is_answered_data :
  forall (R : Type) (api : date -> response R) (s e : date) (fuel : nat),
    valid s -> valid e -> PyDate.le s e ->
    (Z.to_nat (months_spanned s e) < fuel)%nat ->
    all_data (fst (run api fuel s e)) = flat_map (got api) (expected_requests s e).
Proof.
  intros R api s e fuel Hs He Hle Hfuel.
  destruct (run_consistent api fuel s e) as [Hd _].
  destruct (run_requests api s e fuel Hs He Hle Hfuel) as [Hreq _].
  rewrite Hd, Hreq. reflexivity.
Qed.

Lemma all_data_is_answered_data_witness :
  all_data (fst (run flaky_api 4 (mkdate 2020 3 9) (mkdate 2020 5 1))) = [3; 5].
Proof.
  refine (eq_trans (all_data_is_answered_data Z flaky_api
            (mkdate 2020 3 9) (mkdate 2020 5 1) 4 _ _ _ _) _);
    try reflexivity. vm_compute. lia.
Defined.

(** X2. After a run over start <= end, the failure log holds exactly the
    requested dates that were answered with a status other than 200, each
    once and in request order: a failed date is not requested again. *)
Theorem failures_are_failed_requests :
  forall (R : Type) (api : date -> response R) (s e : date) (fuel : nat),
    valid s -> valid e -> PyDate.le s e ->
    (Z.to_nat (months_spanned s e) < fuel)%nat ->
    failures (fst (run api fuel s e)) = List.filter (failed api) (expected_requests s e) /\
    (length (failures (fst (run api fuel s e)))
     <= length (requests (fst (run api fuel s e))))%nat.
Proof.
  intros R api s e fuel Hs He Hle Hfuel.
  destruct (run_consistent api fuel s e) as [_ Hf].
  destruct (run_requests api s e fuel Hs He Hle Hfuel) as [Hreq _].
  split.
  - rewrite Hf, Hreq. reflexivity.
  - rewrite Hf. apply List.filter_length_le.
Qed.

Lemma failures_are_failed_requests_witness :
  failures (fst (run flaky_api 4 (mkdate 2020 3 9) (mkdate 2020 5 1))) = [mkdate 2020 4 1].
Proof.
  refine (eq_trans (proj1 (failures_are_failed_requests Z flaky_api
            (mkdate 2020 3 9) (mkdate 2020 5 1) 4 _ _ _ _)) _);
    try reflexivity. vm_compute. lia.
Defined.

(** X3. When the start date is after the end date the loop body never
    runs: no request is made, nothing is collected or logged, and the loop
    ends by its condition. *)
Theorem empty_range_fetches_nothing :
  forall (R : Type) (api : date -> response R) (s e : date) (fuel : nat),
    PyDate.lt e s -> (0 < fuel)%nat ->
    run api fuel s e = (init, Finished).
Proof.
  intros R api s e fuel Hlt Hfuel. destruct fuel as [|fuel]; [lia|].
  unfold run. cbn [loop].
  assert (Hle : PyDate.leb s e = false).
  { destruct (PyDate.leb s e) eqn:E; [|reflexivity].
    apply leb_spec in E. apply ltb_spec in Hlt. lia. }
  rewrite Hle. reflexivity.
Qed.

Lemma empty_range_fetches_nothing_witness :
  run flaky_api 1 (mkdate 2020 5 1) (mkdate 2020 3 9) = (init, Finished).
Proof.
  apply empty_range_fetches_nothing; [reflexivity | lia].
Defined.

Lemma first_fields (i : Z) :
  12 * year (first_of_month i) + (month (first_of_month i) - 1) = i /\
  1 <= month (first_of_month i) <= 12 /\ day (first_of_month i) = 1.
Proof.
  pose proof (first_of_month_index i) as Hi. unfold month_index in Hi.
  split; [exact Hi|]. split; [|reflexivity].
  unfold first_of_month. cbn [month]. pose proof (Z.mod_pos_bound i 12). lia.
Qed.

Lemma first_valid (i : Z) : 12 <= i <= last_index -> valid (first_of_month i).
Proof.
  intros Hi. destruct (first_fields i) as [Hidx [Hm Hd]].
  unfold last_index, MAXYEAR in Hi.
  apply (make_valid (year (first_of_month i)) (month (first_of_month i)) 1).
  rewrite make_first by lia. reflexivity.
Qed.

Lemma first_lt (i j : Z) :
  i < j -> PyDate.ltb (first_of_month i) (first_of_month j) = true.
Proof.
  intros Hij. destruct (first_fields i) as [Hi [Hmi Hdi]].
  destruct (first_fields j) as [Hj [Hmj Hdj]]. apply ltb_spec. lia.
Qed.

Lemma later_firsts_sorted (k : nat) :
  forall i, StronglySorted PyDate.lt (later_firsts i k) /\
            Forall (fun d => exists n, i < n <= i + Z.of_nat k /\ d = first_of_month n)
                   (later_firsts i k).
Proof.
  induction k as [|k IH]; intros i; [split; constructor|].
  rewrite later_firsts_S. destruct (IH (i + 1)) as [Hs Hall]. split.
  - constructor; [exact Hs|].
    eapply List.Forall_impl; [|exact Hall]. intros d [n [Hn ->]].
    apply first_lt. lia.
  - constructor; [exists (i + 1); split; [lia | reflexivity]|].
    eapply List.Forall_impl; [|exact Hall]. intros d [n [Hn ->]].
    exists n. split; [lia | reflexivity].
Qed.

(** X4. Over start <= end every requested date is a real calendar date
    between the start date and the end date, and the requests are strictly
    increasing: no date is requested twice and none lies after the end
    date. *)
Theorem requests_increase_within_range :
  forall (R : Type) (api : date -> response R) (s e : date) (fuel : nat),
    valid s -> valid e -> PyDate.le s e ->
    (Z.to_nat (months_spanned s e) < fuel)%nat ->
    let reqs := requests (fst (run api fuel s e)) in
    StronglySorted PyDate.lt reqs /\
    Forall (fun d => valid d /\ PyDate.le s d /\ PyDate.le d e) reqs.
Proof.
  intros R api s e fuel Hs He Hle Hfuel reqs.
  destruct (run_requests api s e fuel Hs He Hle Hfuel) as [Hreq _].
  fold reqs in Hreq. rewrite Hreq. unfold expected_requests.
  pose proof (month_index_le s e Hs He Hle) as Hi.
  pose proof (month_index_bound e He) as Hbound.
  pose proof (valid_fields s Hs) as Hfs.
  set (k := (Z.to_nat (months_spanned s e) - 1)%nat).
  assert (Hk : month_index s + Z.of_nat k = month_index e)
    by (unfold k, months_spanned; lia).
  destruct (later_firsts_sorted k (month_index s)) as [Hsorted Hall].
  assert (Hlater : Forall (fun d => PyDate.lt s d /\ valid d /\ PyDate.le d e)
                          (later_firsts (month_index s) k)).
  { eapply List.Forall_impl; [|exact Hall]. intros d [n [Hn ->]].
    destruct (first_fields n) as [Hidx [Hm Hd]]. split; [|split].
    - apply ltb_spec. unfold month_index in Hn. lia.
    - apply first_valid. unfold month_index in *. lia.
    - unfold PyDate.le. rewrite first_leb by exact He. apply Z.leb_le. lia. }
  split.
  - constructor; [exact Hsorted|].
    eapply List.Forall_impl; [|exact Hlater]. intros d Hd. apply Hd.
  - constructor.
    + split; [exact Hs|]. split; [|exact Hle]. apply leb_spec. lia.
    + eapply List.Forall_impl; [|exact Hlater]. intros d [Hlt [Hv Hde]].
      split; [exact Hv|]. split; [|exact Hde].
      apply leb_spec. apply ltb_spec in Hlt. lia.
Qed.

Lemma requests_increase_within_range_witness :
  StronglySorted PyDate.lt (requests (fst (run empty_api 40 start_date end_date))).
Proof.
  refine (proj1 (requests_increase_within_range unit empty_api
            start_date end_date 40 _ _ _ _)); try reflexivity. vm_compute. lia.
Defined.

End FetchLogFacts.

(* ===================================================================== *)
(** ** The ordinal of a date *)
(* ===================================================================== *)

Module OrdinalFacts.
Import PyDate DateFacts.

Lemma days_before_year_succ (y : Z) :
  days_before_year (y + 1) = days_before_year y + 365 + (if is_leap y then 1 else 0).
Proof.
  unfold days_before_year, is_leap. cbv zeta.
  replace (y + 1 - 1) with y by lia.
  destruct (Z.eqb_spec (y mod 4) 0); destruct (Z.eqb_spec (y mod 100) 0);
    destruct (Z.eqb_spec (y mod 400) 0); cbn [andb orb negb];
    Z.div_mod_to_equations; lia.
Qed.

Lemma days_before_year_mono (y y' : Z) : y <= y' -> days_before_year y <= days_before_year y'.
Proof.
  unfold days_before_year. cbv zeta. intros H. Z.div_mod_to_equations. lia.
Qed.

Lemma month_cases (m : Z) :
  1 <= m <= 12 ->
  m = 1 \/ m = 2 \/ m = 3 \/ m = 4 \/ m = 5 \/ m = 6 \/ m = 7 \/
  m = 8 \/ m = 9 \/ m = 10 \/ m = 11 \/ m = 12.
Proof. lia. Qed.

(** The days of a year before the end of a month. *)
Lemma days_before_month_end (y m : Z) :
  1 <= m <= 12 ->
  0 <= days_before_month y m /\
  days_before_month y m + days_in_month y m <= 365 + (if is_leap y then 1 else 0) /\
  (forall m', m < m' <= 12 ->
     days_before_month y m + days_in_month y m <= days_before_month y m').
Proof.
  intros Hm. unfold days_before_month, days_in_month.
  destruct (is_leap y).
  - destruct (month_cases m Hm) as
      [-> | [-> | [-> | [-> | [-> | [-> | [-> | [-> | [-> | [-> | [-> | ->]]]]]]]]]]];
      cbn; (split; [lia|]); (split; [lia|]); intros m' Hm';
      destruct (month_cases m' ltac:(lia)) as
        [-> | [-> | [-> | [-> | [-> | [-> | [-> | [-> | [-> | [-> | [-> | ->]]]]]]]]]]];
      cbn; lia.
  - destruct (month_cases m Hm) as
      [-> | [-> | [-> | [-> | [-> | [-> | [-> | [-> | [-> | [-> | [-> | ->]]]]]]]]]]];
      cbn; (split; [lia|]); (split; [lia|]); intros m' Hm';
      destruct (month_cases m' ltac:(lia)) as
        [-> | [-> | [-> | [-> | [-> | [-> | [-> | [-> | [-> | [-> | [-> | ->]]]]]]]]]]];
      cbn; lia.
Qed.

(** On dates that exist, the ordinal grows with the date. *)
Lemma toordinal_lt (a b : date) :
  valid a -> valid b -> PyDate.lt a b -> toordinal a < toordinal b.
Proof.
  intros Ha Hb Hlt. apply ltb_spec in Hlt.
  destruct (valid_fields a Ha) as [_ [Hma Hda]].
  destruct (valid_fields b Hb) as [_ [Hmb Hdb]].
  destruct (days_before_month_end (year a) (month a) Hma) as [_ [Hyear Hnext]].
  destruct (days_before_month_end (year b) (month b) Hmb) as [Hpos _].
  unfold toordinal.
  destruct Hlt as [Hy | [Hy [Hm | [Hm Hd]]]].
  - pose proof (days_before_year_succ (year a)).
    pose proof (days_before_year_mono (year a + 1) (year b) ltac:(lia)). lia.
  - rewrite <- Hy in *. specialize (Hnext (month b) ltac:(lia)). lia.
  - rewrite <- Hy, <- Hm. lia.
Qed.

End OrdinalFacts.

(* ===================================================================== *)
(** ** More on the dashboard: loading, repeated calls, totals, the map *)
(* ===================================================================== *)

Module TableFacts.
Import PyLiteral Frame Dashboard Tables.
Import DateFacts OrdinalFacts FrameFacts ProcessFacts MainFacts LiteralFacts.

Section Tables.
Context `{F : Float64Sum}.

(** *** The list of available countries *)

Lemma In_unique (x : string) (l : list string) : In x (unique l) <-> In x l.
Proof.
  induction l as [|y l IH]; [tauto|]. cbn [unique In].
  rewrite filter_In, IH, negb_true_iff, String.eqb_neq.
  destruct (String.eqb_spec y x); intuition.
Qed.

Lemma NoDup_unique (l : list string) : List.NoDup (unique l).
Proof.
  induction l as [|y l IH]; [constructor|]. cbn [unique]. constructor.
  - rewrite filter_In, negb_true_iff, String.eqb_neq. tauto.
  - apply List.NoDup_filter, IH.
Qed.

(** X5. The list of available countries holds every country of the table
    exactly once, and starts with the country of the first row, which is
    the multiselect's default. *)
Theorem available_countries_distinct :
  forall (f : frame),
    let available_countries := unique (map country f) in
    List.NoDup available_countries /\
    (forall c, In c available_countries <-> exists r, In r f /\ country r = c) /\
    take 1 available_countries = take 1 (map country f).
Proof.
  intros f available_countries. split; [apply NoDup_unique|]. split.
  - intros c. unfold available_countries. rewrite In_unique, in_map_iff.
    split; intros [r Hr]; exists r; tauto.
  - unfold available_countries. destruct f; reflexivity.
Qed.

(** *** load_data *)

Lemma apply_region_ok (k : string) (rows : list csv_row) :
  forall l, apply_region k rows = Ok l ->
            Forall2 (fun c s => region_field k (col_region c) = Ok s) rows l.
Proof.
  induction rows as [|c rows IH]; intros l; cbn [apply_region].
  - intros [= <-]. constructor.
  - destruct (region_field k (col_region c)) as [s|e] eqn:E; [|discriminate].
    destruct (apply_region k rows) as [l'|e]; [|discriminate].
    intros [= <-]. constructor; [exact E | apply IH; reflexivity].
Qed.

Lemma apply_region_fails (k : string) (rows : list csv_row) (c : csv_row) (e : exn) :
  In c rows -> region_field k (col_region c) = Raise e ->
  exists e', apply_region k rows = Raise e'.
Proof.
  induction rows as [|c' rows IH]; [intros []|]. intros [-> | Hin] He; cbn [apply_region].
  - rewrite He. eauto.
  - destruct (region_field k (col_region c')) as [s|e1]; [|eauto].
    destruct (IH Hin He) as [e' ->]. eauto.
Qed.

Lemma with_columns_rows (rows : list csv_row) :
  forall names isos,
    Forall2 (fun c s => region_field "name" (col_region c) = Ok s) rows names ->
    Forall2 (fun c s => region_field "iso" (col_region c) = Ok s) rows isos ->
    map base (with_columns rows names isos) = rows /\
    Forall derived_from_region (with_columns rows names isos).
Proof.
  induction rows as [|c rows IH]; intros names isos Hn Hi.
  - split; [reflexivity | constructor].
  - inversion Hn as [|? n ? names' Hc Hn']; subst.
    inversion Hi as [|? i ? isos' Hci Hi']; subst.
    destruct (IH names' isos' Hn' Hi') as [Hb Hd]. cbn [with_columns map base]. split.
    + rewrite Hb. reflexivity.
    + constructor; [split; assumption | exact Hd].
Qed.

(** X6. When the two derivations of [load_data] succeed, the table has the
    rows of the CSV in the same order with every CSV cell unchanged, and in
    each row the country and the ISO code are what the row's own region
    cell parses to. *)
Theorem derive_adds_two_columns :
  forall (rows : list csv_row) (f : frame),
    derive rows = Ok f ->
    map base f = rows /\ length f = length rows /\ Forall derived_from_region f.
Proof.
  intros rows f. unfold derive.
  destruct (apply_region "name" rows) as [names|e] eqn:En; [|discriminate].
  destruct (apply_region "iso" rows) as [isos|e] eqn:Ei; [|discriminate].
  intros [= <-].
  destruct (with_columns_rows rows names isos (apply_region_ok _ _ _ En)
              (apply_region_ok _ _ _ Ei)) as [Hb Hd].
  split; [exact Hb|]. split; [|exact Hd].
  rewrite <- Hb at 2. rewrite length_map. reflexivity.
Qed.

(** X7. A record whose region is written by [str] and has no [name] or
    no [iso] entry (a dict without the key, or a value that is no dict and
    no string) cannot be loaded back: parsing its cell and taking the entry
    raises, and [load_data] then fails for the whole table, whatever the
    other rows hold. *)
Theorem missing_region_entry_fails_load :
  forall (v : pyval) (rows : list csv_row) (c : csv_row),
    (forall s, v <> PyStr s) ->
    subscript v "name" = None \/ subscript v "iso" = None ->
    py_str v = Some (col_region c) -> In c rows ->
    (subscript v "name" = None -> region_field "name" (col_region c) = Raise MalformedRegion) /\
    (subscript v "iso" = None -> region_field "iso" (col_region c) = Raise MalformedRegion) /\
    exists e, derive rows = Raise e.
Proof.
  intros v rows c Hstr Hmiss Hc Hin.
  assert (Hfield : forall k, subscript v k = None ->
                             region_field k (col_region c) = Raise MalformedRegion).
  { intros k Hk. unfold region_field. rewrite (literal_eval_str v _ Hstr Hc).
    destruct (Nat.leb (depth v) max_nesting); [rewrite Hk|]; reflexivity. }
  split; [apply Hfield|]. split; [apply Hfield|].
  unfold derive. destruct Hmiss as [Hk | Hk].
  - destruct (apply_region_fails "name" rows c _ Hin (Hfield _ Hk)) as [e ->]. eauto.
  - destruct (apply_region_fails "iso" rows c _ Hin (Hfield _ Hk)) as [e ->].
    destruct (apply_region "name" rows); eauto.
Qed.

(** X8. Once [load_data] has succeeded, a later call does not look at the
    file any more: whatever the file holds by then, it hands out the
    memoized table again, as a new copy. The copy a run normalized through
    [process_data] stays as that run left it, and the new copy has the date
    cells as they were loaded. *)
Theorem load_data_memoized :
  forall (read_csv read_csv' : string -> option (list csv_row))
         (w w1 : world) (l1 : loc) (files' : gmap string string),
    load_data read_csv w = Ok (w1, l1) ->
    exists f,
      heap w1 !! l1 = Some f /\ cache w1 = Some f /\
      (forall h,
         load_data read_csv' (mkworld files' (cache w1) h)
         = Ok (mkworld files' (Some f) (<[fresh (dom h) := f]> h), fresh (dom h))) /\
      (forall sel s e h2 agg,
         process_data l1 sel s e (heap w1) = Some (h2, agg) ->
         exists w3 l3,
           load_data read_csv' (mkworld files' (cache w1) h2) = Ok (w3, l3) /\
           l3 <> l1 /\ heap w3 !! l3 = Some f /\
           heap w3 !! l1 = Some (normalize_dates f)).
Proof.
  intros rc rc' w w1 l1 files' Hload.
  destruct (load_data_world rc w w1 l1 Hload) as [_ [f [Hheap [_ Hcache]]]].
  assert (Hl1 : heap w1 !! l1 = Some f) by (rewrite Hheap; apply lookup_insert_eq).
  exists f. split; [exact Hl1|]. split; [exact Hcache|]. split.
  - intros h. unfold load_data. cbn [cache heap files]. rewrite Hcache. reflexivity.
  - intros sel s e h2 agg Hrun.
    rewrite (process_data_eq (heap w1) l1 f sel s e Hl1) in Hrun. injection Hrun as <- _.
    set (h2 := <[l1 := normalize_dates f]> (heap w1)).
    assert (Hfresh : fresh (dom h2) <> l1).
    { intros E. apply (is_fresh (dom h2)). rewrite E. apply elem_of_dom.
      exists (normalize_dates f). apply lookup_insert_eq. }
    exists (mkworld files' (Some f) (<[fresh (dom h2) := f]> h2)), (fresh (dom h2)).
    split; [|split; [exact Hfresh|split]].
    + unfold load_data. cbn [cache heap files]. rewrite Hcache. reflexivity.
    + cbn [heap]. apply lookup_insert_eq.
    + cbn [heap]. rewrite lookup_insert_ne by exact Hfresh. apply lookup_insert_eq.
Qed.

Lemma normalize_dates_twice (f : frame) :
  normalize_dates (normalize_dates f) = normalize_dates f.
Proof. unfold normalize_dates. rewrite map_map. apply map_ext. intros r. reflexivity. Qed.

Lemma kept_normalized (dts : dtypes) (sel : list string) (s e : date) (f : frame) :
  groupby_sum dts (List.filter (kept sel s e) (normalize_dates f))
  = groupby_sum dts (List.filter (kept sel s e) f).
Proof.
  rewrite (filter_normalized (kept sel s e)) by reflexivity. apply groupby_sum_normalized.
Qed.

(** X9. What [process_data] writes into the caller's table does not depend
    on the selection or the dates, and it does not change what a later call
    returns: a call on the table an earlier call left behind gives the
    result it would have given on the loaded table, and leaves the table as
    it found it. *)
Theorem process_data_again :
  forall (h : gmap loc frame) (df : loc) (f : frame)
         (sel sel' : list string) (s e s' e' : date),
    h !! df = Some f ->
    exists h1 agg agg',
      process_data df sel s e h = Some (h1, agg) /\
      process_data df sel' s' e' h = Some (h1, agg') /\
      process_data df sel' s' e' h1 = Some (h1, agg').
Proof.
  intros h df f sel sel' s e s' e' Hdf.
  exists (<[df := normalize_dates f]> h),
         (groupby_sum (dtypes_of f) (List.filter (kept sel s e) f)),
         (groupby_sum (dtypes_of f) (List.filter (kept sel' s' e') f)).
  split; [apply process_data_eq, Hdf|]. split; [apply process_data_eq, Hdf|].
  rewrite (process_data_eq _ df (normalize_dates f)) by apply lookup_insert_eq.
  rewrite normalize_dates_twice, insert_insert_eq, kept_normalized, dtypes_of_normalized.
  reflexivity.
Qed.

Lemma groupby_sum_nil (dts : dtypes) (g : frame) : groupby_sum dts g = [] <-> g = [].
Proof.
  split; [|intros ->; reflexivity].
  destruct g as [|r g]; [reflexivity|]. intros H. exfalso.
  assert (Hin : In (row_key r) (map agg_key (groupby_sum dts (r :: g)))).
  { rewrite agg_key_groupby. apply In_group_keys; [exact _|]. left. reflexivity. }
  rewrite H in Hin. exact Hin.
Qed.

Lemma filter_nil {A : Type} (p : A -> bool) (l : list A) :
  List.filter p l = [] <-> Forall (fun x => p x = false) l.
Proof.
  induction l as [|x l IH]; cbn [List.filter].
  - split; [constructor | reflexivity].
  - destruct (p x) eqn:E; split.
    + discriminate.
    + intros H. inversion H; congruence.
    + intros H. constructor; [exact E | apply IH, H].
    + intros H. inversion H; subst. apply IH. assumption.
Qed.

(** X10. [process_data] returns the empty table exactly when the filters
    keep no row; so it does for an empty selection and for a start date
    after the end date. The date column of the caller's table is normalized
    in these cases too. *)
Theorem process_data_empty_result :
  forall (h : gmap loc frame) (df : loc) (f : frame) (sel : list string) (s e : date),
    h !! df = Some f ->
    exists agg,
      process_data df sel s e h = Some (<[df := normalize_dates f]> h, agg) /\
      (agg = [] <-> Forall (fun r => kept sel s e r = false) f) /\
      (sel = [] -> agg = []) /\
      (PyDate.lt e s -> agg = []).
Proof.
  intros h df f sel s e Hdf.
  exists (groupby_sum (dtypes_of f) (List.filter (kept sel s e) f)).
  split; [apply process_data_eq, Hdf|].
  assert (Hiff : groupby_sum (dtypes_of f) (List.filter (kept sel s e) f) = [] <->
                 Forall (fun r => kept sel s e r = false) f)
    by (rewrite groupby_sum_nil; apply filter_nil).
  split; [exact Hiff|]. split.
  - intros ->. apply Hiff. apply List.Forall_forall. intros r _.
    unfold kept, isin. cbn [existsb]. apply andb_false_r.
  - intros Hlt. apply Hiff. apply List.Forall_forall. intros r _.
    unfold kept, in_range.
    destruct (PyDate.leb s (row_day r)) eqn:E1; [|reflexivity].
    destruct (PyDate.leb (row_day r) e) eqn:E2; [|reflexivity].
    exfalso. apply leb_spec in E1, E2. apply ltb_spec in Hlt. lia.
Qed.

(** *** Sums over groups *)

Lemma nansum_cons (o : option Z) (l : list (option Z)) :
  nansum (o :: l) = nz o + nansum l.
Proof. reflexivity. Qed.

Lemma nz_some (x : Z) : nz (Some x) = x.
Proof. reflexivity. Qed.

Lemma nansum_some_add {K : Type} (a b : K -> Z) (ks : list K) :
  nansum (map (fun k => Some (a k + b k)) ks)
  = nansum (map (fun k => Some (a k)) ks) + nansum (map (fun k => Some (b k)) ks).
Proof.
  induction ks as [|k ks IH]; [reflexivity|].
  cbn [map]. rewrite !nansum_cons, IH, !nz_some. lia.
Qed.

Lemma nansum_some_zero {K : Type} (ks : list K) :
  nansum (map (fun _ => Some 0) ks) = 0.
Proof.
  induction ks as [|k ks IH]; [reflexivity|].
  cbn [map]. rewrite nansum_cons, IH. reflexivity.
Qed.

Section Groups.
Context {A K : Type} (cmp : K -> K -> comparison) `{!StrictCmp cmp}.
Variable key : A -> K.
Variable v : A -> option Z.

Lemma indicator_sum (x : K) (c : Z) (ks : list K) :
  List.NoDup ks ->
  nansum (map (fun k => Some (if same cmp x k then c else 0)) ks)
  = if existsb (same cmp x) ks then c else 0.
Proof.
  induction 1 as [|k ks Hk Hnd IH]; [reflexivity|].
  cbn [map existsb]. rewrite nansum_cons, IH, nz_some.
  destruct (same cmp x k) eqn:E; cbn [orb]; [|apply Z.add_0_l].
  apply same_eq in E; [|exact _]. subst k.
  destruct (existsb (same cmp x) ks) eqn:Ex; [|lia].
  exfalso. apply existsb_exists in Ex. destruct Ex as [y [Hy Hxy]].
  apply same_eq in Hxy; [|exact _]. subst y. exact (Hk Hy).
Qed.

(** Summing group by group is summing row by row, when every row's key is
    among the keys and no key comes twice. *)
Lemma sum_by_group (rows : list A) (ks : list K) :
  List.NoDup ks -> Forall (fun r => In (key r) ks) rows ->
  nansum (map (fun k => Some (Tables.group_sum cmp key v rows k)) ks)
  = nansum (map v rows).
Proof.
  intros Hnd. induction 1 as [|x rows Hx Hall IH].
  - unfold Tables.group_sum. cbn [List.filter map]. apply nansum_some_zero.
  - assert (Hstep : forall k, Tables.group_sum cmp key v (x :: rows) k
                              = (if same cmp (key x) k then nz (v x) else 0)
                                + Tables.group_sum cmp key v rows k).
    { intros k. unfold Tables.group_sum. cbn [List.filter].
      destruct (same cmp (key x) k); reflexivity. }
    rewrite (map_ext _ (fun k => Some ((if same cmp (key x) k then nz (v x) else 0)
                                       + Tables.group_sum cmp key v rows k)))
      by (intros k; rewrite Hstep; reflexivity).
    rewrite (nansum_some_add (fun k => if same cmp (key x) k then nz (v x) else 0)
                             (Tables.group_sum cmp key v rows)).
    change (map v (x :: rows)) with (v x :: map v rows).
    rewrite IH, nansum_cons, (indicator_sum (key x) (nz (v x)) ks Hnd).
    assert (Hex : existsb (same cmp (key x)) ks = true).
    { apply existsb_exists. exists (key x). split; [exact Hx|].
      apply same_eq; [exact _ | reflexivity]. }
    rewrite Hex. reflexivity.
Qed.

Lemma group_keys_length (ks : list K) : (length (group_keys cmp ks) <= length ks)%nat.
Proof.
  induction ks as [|k ks IH]; [reflexivity|]. cbn [group_keys fold_right length].
  fold (group_keys cmp ks).
  assert (Hins : forall l, (length (insert_key cmp k l) <= S (length l))%nat).
  { induction l as [|y l IHl]; cbn [insert_key length]; [lia|].
    destruct (cmp k y); cbn [length]; lia. }
  specialize (Hins (group_keys cmp ks)). lia.
Qed.

Lemma sum_over_groups (rows : list A) :
  nansum (map (fun k => Some (Tables.group_sum cmp key v rows k)) (group_keys cmp (map key rows)))
  = nansum (map v rows).
Proof.
  apply sum_by_group.
  - apply (sorted_NoDup cmp), group_keys_sorted. exact _.
  - apply List.Forall_forall. intros r Hr. apply In_group_keys; [exact _|].
    apply in_map, Hr.
Qed.

Lemma abs_sum_filter (p : A -> bool) (rows : list A) :
  abs_sum (map v (List.filter p rows)) <= abs_sum (map v rows).
Proof.
  induction rows as [|r rows IH]; cbn [List.filter map]; [reflexivity|].
  destruct (p r); cbn [map abs_sum fold_right]; fold (abs_sum (map v rows)) in *;
    fold (abs_sum (map v (List.filter p rows))) in *; lia.
Qed.

Lemma adds_exactly_filter (dt : dtype) (column : list (option Z)) (p : A -> bool)
      (rows : list A) :
  adds_exactly_in dt column (map v rows) ->
  adds_exactly_in dt column (map v (List.filter p rows)).
Proof.
  pose proof (abs_sum_filter p rows). destruct dt; cbn [adds_exactly_in]; [|lia].
  intros [Hc Hs]. split; [exact Hc | lia].
Qed.

(** Where the cells of the rows add up exactly, the sum of every group is
    the sum of its cells. *)
Lemma agg_sum_group (dt : dtype) (column : list (option Z)) (rows : list A) (k : K) :
  adds_exactly_in dt column (map v rows) ->
  agg_sum dt (map v (List.filter (fun r => same cmp (key r) k) rows))
  = Tables.group_sum cmp key v rows k.
Proof.
  intros Hex. unfold Tables.group_sum.
  apply (agg_sum_exact dt column), adds_exactly_filter, Hex.
Qed.

End Groups.

Lemma filter_kept_chosenb (sel : list string) (s e : date) (f : frame) :
  List.filter (kept sel s e) f = List.filter (chosenb sel s e) f.
Proof. apply filter_ext_In. intros r _. apply kept_chosenb. Qed.

(** X11. Aggregation loses and invents nothing where the counts add up
    exactly: over the table [process_data] returns, the total of each of
    confirmed, deaths and recovered is the total of that column over the
    chosen rows (missing cells counted as zero) whenever the cells of these
    rows add up without wrap-around or rounding; and the table never has
    more rows than were chosen. *)
Theorem aggregation_keeps_totals :
  forall (h : gmap loc frame) (df : loc) (f : frame) (sel : list string) (s e : date),
    h !! df = Some f ->
    let rows := List.filter (chosenb sel s e) f in
    exists h' agg,
      process_data df sel s e h = Some (h', agg) /\
      (adds_exactly (map confirmed_of f) (map confirmed_of rows) ->
       total a_confirmed agg = total confirmed_of rows) /\
      (adds_exactly (map deaths_of f) (map deaths_of rows) ->
       total a_deaths agg = total deaths_of rows) /\
      (adds_exactly (map recovered_of f) (map recovered_of rows) ->
       total a_recovered agg = total recovered_of rows) /\
      (length agg <= length rows)%nat.
Proof.
  intros h df f sel s e Hdf rows.
  exists (<[df := normalize_dates f]> h), (groupby_sum (dtypes_of f) rows).
  split; [unfold rows; rewrite <- filter_kept_chosenb; apply process_data_eq, Hdf|].
  assert (Hsum : forall (dt : dtype) (column : list (option Z)) (col : row -> option Z),
             adds_exactly_in dt column (map col rows) ->
             nansum (map (fun k => Some (agg_sum dt
                       (map col (List.filter (fun r => same key_compare (row_key r) k) rows))))
                         (group_keys key_compare (map row_key rows)))
             = nansum (map col rows)).
  { intros dt column col Hex.
    rewrite <- (sum_over_groups key_compare row_key col rows). f_equal.
    apply map_ext. intros k. f_equal.
    apply (agg_sum_group key_compare row_key col dt column rows k Hex). }
  unfold total, groupby_sum, adds_exactly. rewrite !map_map, <- !column_dtype_gap.
  split; [|split; [|split]].
  - intros Hex. rewrite <- (Hsum _ _ confirmed_of Hex). f_equal.
    apply map_ext. intros [[d c] i]. reflexivity.
  - intros Hex. rewrite <- (Hsum _ _ deaths_of Hex). f_equal.
    apply map_ext. intros [[d c] i]. reflexivity.
  - intros Hex. rewrite <- (Hsum _ _ recovered_of Hex). f_equal.
    apply map_ext. intros [[d c] i]. reflexivity.
  - rewrite length_map.
    etransitivity; [apply group_keys_length|]. rewrite length_map. reflexivity.
Qed.

(** *** The table behind the map *)

Lemma map_key_groupby (dts : dtypes) (agg : list agg_row) :
  map map_key (groupby_country dts agg) = group_keys key2_compare (map agg_key2 agg).
Proof.
  unfold groupby_country. rewrite map_map.
  rewrite <- (map_id (group_keys key2_compare (map agg_key2 agg))) at 2.
  apply map_ext. intros [c i]. reflexivity.
Qed.

Lemma same_key2 (a : agg_row) (c i : string) :
  same key2_compare (agg_key2 a) (c, i)
  = String.eqb (a_country a) c && String.eqb (a_iso_alpha a) i.
Proof.
  destruct (same key2_compare (agg_key2 a) (c, i)) eqn:E; symmetry.
  - apply same_eq in E; [|exact _]. unfold agg_key2 in E. injection E as -> ->.
    rewrite !String.eqb_refl. reflexivity.
  - destruct (String.eqb (a_country a) c) eqn:E1; [|reflexivity].
    destruct (String.eqb (a_iso_alpha a) i) eqn:E2; [|reflexivity].
    apply String.eqb_eq in E1, E2. subst c i.
    assert (Hs : same key2_compare (agg_key2 a) (agg_key2 a) = true)
      by (apply same_eq; [exact _ | reflexivity]).
    unfold agg_key2 in *. congruence.
Qed.

Lemma group_sum_country (col : agg_row -> option Z) (agg : list agg_row) (c i : string) :
  group_sum key2_compare agg_key2 col agg (c, i) = nansum (map col (country_rows agg c i)).
Proof.
  unfold group_sum, country_rows. do 2 f_equal.
  apply filter_ext_In. intros a _. apply same_key2.
Qed.

(** One column of the per-country table. *)
Lemma groupby_country_column (dt : dtype) (col : agg_row -> option Z) (agg : list agg_row) :
  adds_exactly_in dt (map col agg) (map col agg) ->
  map (fun k : key2 =>
         Some (agg_sum dt (map col (List.filter (fun a => same key2_compare (agg_key2 a) k)
                                                agg))))
      (group_keys key2_compare (map agg_key2 agg))
  = map (fun k : key2 => Some (nansum (map col (country_rows agg (fst k) (snd k)))))
        (group_keys key2_compare (map agg_key2 agg)).
Proof.
  intros Hex. apply map_ext. intros [c i]. f_equal.
  rewrite (agg_sum_group key2_compare agg_key2 col dt (map col agg) agg (c, i) Hex).
  apply group_sum_country.
Qed.

Lemma nansum_country_rows (col : agg_row -> option Z) (agg : list agg_row) :
  nansum (map (fun k : key2 => Some (nansum (map col (country_rows agg (fst k) (snd k)))))
              (group_keys key2_compare (map agg_key2 agg)))
  = nansum (map col agg).
Proof.
  rewrite <- (sum_over_groups key2_compare agg_key2 col agg). f_equal.
  apply map_ext. intros [c i]. f_equal. symmetry. apply group_sum_country.
Qed.

(** X12. The table behind the map has one row per distinct (country,
    iso_alpha) of the aggregated table, in ascending order. For each of
    confirmed, deaths and recovered, whenever the cells of the aggregated
    column add up without wrap-around or rounding, every row holds the sum
    of the column over all the dates of its country and ISO code, and the
    total of the column is that of the aggregated table. *)
Theorem map_data_sums_over_dates :
  forall (dts : dtypes) (agg : list agg_row),
    let map_data := groupby_country dts agg in
    let rows_of (m : map_row) := country_rows agg (m_country m) (m_iso_alpha m) in
    StronglySorted (klt key2_compare) (map map_key map_data) /\
    (forall k, In k (map map_key map_data) <-> exists a, In a agg /\ agg_key2 a = k) /\
    (adds_exactly_in (dt_confirmed dts) (map a_confirmed agg) (map a_confirmed agg) ->
     (forall m, In m map_data ->
                m_confirmed m = Some (nansum (map a_confirmed (rows_of m)))) /\
     total m_confirmed map_data = total a_confirmed agg) /\
    (adds_exactly_in (dt_deaths dts) (map a_deaths agg) (map a_deaths agg) ->
     (forall m, In m map_data ->
                m_deaths m = Some (nansum (map a_deaths (rows_of m)))) /\
     total m_deaths map_data = total a_deaths agg) /\
    (adds_exactly_in (dt_recovered dts) (map a_recovered agg) (map a_recovered agg) ->
     (forall m, In m map_data ->
                m_recovered m = Some (nansum (map a_recovered (rows_of m)))) /\
     total m_recovered map_data = total a_recovered agg).
Proof.
  intros dts agg map_data rows_of. unfold map_data, rows_of.
  split; [rewrite map_key_groupby; apply group_keys_sorted; exact _|].
  split.
  { intros k. rewrite map_key_groupby, In_group_keys by exact _.
    rewrite in_map_iff. split; intros [a Ha]; exists a; tauto. }
  assert (Hcol : forall (dt : dtype) (col : agg_row -> option Z) (mcol : map_row -> option Z),
             (forall k : key2,
                mcol (mkmap (fst k) (snd k)
                  (Some (agg_sum (dt_confirmed dts) (map a_confirmed
                     (List.filter (fun a => same key2_compare (agg_key2 a) k) agg))))
                  (Some (agg_sum (dt_deaths dts) (map a_deaths
                     (List.filter (fun a => same key2_compare (agg_key2 a) k) agg))))
                  (Some (agg_sum (dt_recovered dts) (map a_recovered
                     (List.filter (fun a => same key2_compare (agg_key2 a) k) agg)))))
                = Some (agg_sum dt (map col
                     (List.filter (fun a => same key2_compare (agg_key2 a) k) agg)))) ->
             adds_exactly_in dt (map col agg) (map col agg) ->
             (forall m, In m (groupby_country dts agg) ->
                mcol m = Some (nansum (map col (country_rows agg (m_country m)
                                                             (m_iso_alpha m))))) /\
             total mcol (groupby_country dts agg) = total col agg).
  { intros dt col mcol Hm Hex.
    assert (Hmap : map mcol (groupby_country dts agg)
                   = map (fun k : key2 =>
                            Some (nansum (map col (country_rows agg (fst k) (snd k)))))
                         (group_keys key2_compare (map agg_key2 agg))).
    { rewrite <- (groupby_country_column dt col agg Hex).
      unfold groupby_country. rewrite map_map. apply map_ext. intros k. apply Hm. }
    split.
    - intros m Hin. unfold groupby_country in Hin. apply in_map_iff in Hin.
      destruct Hin as [[c i] [<- _]]. rewrite Hm. cbn [m_country m_iso_alpha fst snd].
      f_equal.
      rewrite (agg_sum_group key2_compare agg_key2 col dt (map col agg) agg (c, i) Hex).
      apply group_sum_country.
    - unfold total. rewrite Hmap. apply nansum_country_rows. }
  split; [|split].
  - apply (Hcol _ a_confirmed m_confirmed). intros k. reflexivity.
  - apply (Hcol _ a_deaths m_deaths). intros k. reflexivity.
  - apply (Hcol _ a_recovered m_recovered). intros k. reflexivity.
Qed.

(** *** Region cells *)


(** *** Whole runs of the page *)

Lemma le_not_ltb (a b : date) : PyDate.le a b -> PyDate.ltb b a = false.
Proof.
  unfold PyDate.le. intros Hle.
  destruct (PyDate.ltb b a) eqn:Hlt; [|reflexivity].
  apply leb_spec in Hle. apply ltb_spec in Hlt. lia.
Qed.

Lemma fresh_copy (w : world) (f : frame) :
  cache w = Some f ->
  forall rc, load_data rc w
             = Ok (mkworld (files w) (Some f) (<[fresh (dom (heap w)) := f]> (heap w)),
                   fresh (dom (heap w))).
Proof. intros Hc rc. unfold load_data. rewrite Hc. reflexivity. Qed.

Section Pages.
Variable read_csv : string -> option (list csv_row).

Lemma load_data_table (w w1 : world) (df : loc) :
  load_data read_csv w = Ok (w1, df) ->
  exists f, heap w1 !! df = Some f /\ cache w1 = Some f.
Proof.
  intros Hload.
  destruct (load_data_world read_csv w w1 df Hload) as [_ [f [Hheap [_ Hcache]]]].
  exists f. split; [rewrite Hheap; apply lookup_insert_eq | exact Hcache].
Qed.

(** A run that passes the three checks. *)
Lemma main_accepted (inp : inputs) (w w1 : world) (df : loc) (f : frame) :
  load_data read_csv w = Ok (w1, df) ->
  heap w1 !! df = Some f ->
  accepted inp ->
  main read_csv inp w =
    (mkworld (files w1) (cache w1) (<[df := normalize_dates f]> (heap w1)),
     shown f ++ steps inp
       ++ fst (present (dtypes_of f)
                 (fill_recovered (groupby_sum (dtypes_of f) (kept_rows inp f)))),
     snd (present (dtypes_of f)
            (fill_recovered (groupby_sum (dtypes_of f) (kept_rows inp f))))).
Proof.
  intros Hload Hf [Hdays [Hord Hsel]]. unfold main. rewrite Hload. cbv beta iota zeta.
  unfold frame in *. rewrite Hf. cbn [default].
  replace (days_between (start_date inp) (end_date inp) >? 365) with false
    by (symmetry; rewrite Z.gtb_ltb; apply Z.ltb_ge; exact Hdays).
  rewrite (le_not_ltb _ _ Hord).
  destruct (selected_countries inp) as [|c sel] eqn:Esel; [congruence|].
  rewrite <- Esel.
  rewrite (process_data_eq (heap w1) df f _ _ _ Hf).
  unfold kept_rows, shown, steps.
  destruct (present _) as [acts out]. reflexivity.
Qed.

(** What a run shows and how it ends depends on the world only through the
    table [load_data] hands out. *)
Lemma main_page_of_table (inp : inputs) (w w1 w' w1' : world) (df df' : loc) (f : frame) :
  load_data read_csv w = Ok (w1, df) -> heap w1 !! df = Some f ->
  load_data read_csv w' = Ok (w1', df') -> heap w1' !! df' = Some f ->
  snd (fst (main read_csv inp w)) = snd (fst (main read_csv inp w')) /\
  snd (main read_csv inp w) = snd (main read_csv inp w').
Proof.
  intros Hl Hf Hl' Hf'. unfold main. rewrite Hl, Hl'. cbv beta iota zeta.
  unfold frame in *. rewrite Hf, Hf'. cbn [default].
  destruct (days_between (start_date inp) (end_date inp) >? 365); [split; reflexivity|].
  destruct (PyDate.ltb (end_date inp) (start_date inp)); [split; reflexivity|].
  destruct (selected_countries inp) as [|c sel]; [split; reflexivity|].
  rewrite (process_data_eq (heap w1) df f _ _ _ Hf).
  rewrite (process_data_eq (heap w1') df' f _ _ _ Hf').
  destruct (present _) as [acts out]. split; reflexivity.
Qed.

(** The memoized table after a run is the one the run loaded. *)
Lemma main_cache (inp : inputs) (w w1 : world) (df : loc) :
  load_data read_csv w = Ok (w1, df) ->
  cache (fst (fst (main read_csv inp w))) = cache w1.
Proof.
  intros Hload. unfold main. rewrite Hload.
  destruct (days_between (start_date inp) (end_date inp) >? 365); [reflexivity|].
  destruct (PyDate.ltb (end_date inp) (start_date inp)); [reflexivity|].
  destruct (selected_countries inp); [reflexivity|].
  destruct (process_data df _ _ _ (heap w1)) as [[h2 agg]|]; [|reflexivity].
  destruct (present _ (fill_recovered agg)). reflexivity.
Qed.

(** X13. When the inputs pass the three checks but no row of the loaded
    table lies in the date range with a selected country, [main] shows the
    title, the text and the widgets, calls [process_data] and the fill
    step, and then stops with the exception of [idxmax] on an empty column:
    no message, no metric and no chart is shown. The loaded table has its
    date column normalized all the same. *)
Theorem main_without_matching_rows_raises :
  forall (inp : inputs) (w w1 : world) (df : loc) (f : frame),
    load_data read_csv w = Ok (w1, df) ->
    heap w1 !! df = Some f ->
    accepted inp ->
    kept_rows inp f = [] ->
    main read_csv inp w =
      (mkworld (files w1) (cache w1) (<[df := normalize_dates f]> (heap w1)),
       shown f ++ steps inp, Raised ArgmaxOfEmpty).
Proof.
  intros inp w w1 df f Hload Hf Hacc Hnone.
  rewrite (main_accepted inp w w1 df f Hload Hf Hacc), Hnone.
  reflexivity.
Qed.

(** X14. When the inputs pass the three checks and at least one row of the
    loaded table lies in the date range with a selected country, [main]
    returns normally after showing, in this order: title, text, widgets,
    the call of [process_data], the fill step, the "Highest Values"
    subheader with three metrics that all carry a value, and the map and
    the three line charts over the aggregated kept rows. *)
Theorem main_with_matching_rows_returns :
  forall (inp : inputs) (w w1 : world) (df : loc) (f : frame),
    load_data read_csv w = Ok (w1, df) ->
    heap w1 !! df = Some f ->
    accepted inp ->
    kept_rows inp f <> [] ->
    let agg := fill_recovered (groupby_sum (dtypes_of f) (kept_rows inp f)) in
    exists m1 c1 m2 c2 m3 c3,
      main read_csv inp w =
        (mkworld (files w1) (cache w1) (<[df := normalize_dates f]> (heap w1)),
         shown f ++ steps inp
           ++ [St_subheader "Highest Values";
               St_metric "Highest Confirmed Cases" (Some m1) ("Country: " +:+ c1);
               St_metric "Highest Deaths" (Some m2) ("Country: " +:+ c2);
               St_metric "Highest Recovered Cases" (Some m3) ("Country: " +:+ c3)]
           ++ charts (dtypes_of f) agg,
         Returned) /\
      In c1 (selected_countries inp) /\
      In c2 (selected_countries inp) /\
      In c3 (selected_countries inp).
Proof.
  intros inp w w1 df f Hload Hf Hacc Hsome agg.
  pose proof (aggregated_cells_present (dtypes_of f) (kept_rows inp f)) as Hall.
  fold agg in Hall.
  assert (Hne : agg <> []).
  { unfold agg, fill_recovered. intros E. apply map_eq_nil in E.
    apply groupby_sum_nil in E. exact (Hsome E). }
  assert (Hcountry : forall col m c, first_maximum col agg m c -> In c (selected_countries inp)).
  { intros col m c [i [a [Ha [_ [<- _]]]]].
    apply list_elem_of_lookup_2, list_elem_of_In in Ha.
    unfold agg, fill_recovered in Ha. apply in_map_iff in Ha.
    destruct Ha as [b [<- Hb]]. cbn [a_country].
    apply In_groupby_sum in Hb. destruct Hb as [[r [Hin Hr]] _].
    unfold kept_rows in Hin. apply filter_In in Hin. destruct Hin as [_ Hkept].
    unfold kept in Hkept. apply andb_true_iff in Hkept. destruct Hkept as [_ Hisin].
    assert (Hc : a_country b = country r).
    { destruct (agg_key b) as [[d c'] i'] eqn:Ek. unfold agg_key in Ek.
      unfold row_key in Hr. congruence. }
    rewrite Hc. unfold isin in Hisin. apply existsb_exists in Hisin.
    destruct Hisin as [x [Hx Heq]]. apply String.eqb_eq in Heq. subst x. exact Hx. }
  destruct (highest_spec a_confirmed agg Hne) as [m1 [c1 [H1 F1]]].
  { eapply List.Forall_impl; [|exact Hall]. simpl. tauto. }
  destruct (highest_spec a_deaths agg Hne) as [m2 [c2 [H2 F2]]].
  { eapply List.Forall_impl; [|exact Hall]. simpl. tauto. }
  destruct (highest_spec a_recovered agg Hne) as [m3 [c3 [H3 F3]]].
  { eapply List.Forall_impl; [|exact Hall]. simpl. tauto. }
  exists m1, c1, m2, c2, m3, c3.
  split; [|split; [exact (Hcountry _ _ _ F1)|split;
                     [exact (Hcountry _ _ _ F2)|exact (Hcountry _ _ _ F3)]]].
  rewrite (main_accepted inp w w1 df f Hload Hf Hacc). fold agg.
  unfold present. rewrite H1, H2, H3. reflexivity.
Qed.

(** X15. The dates the two date widgets start with, 2020-03-09 and
    2023-03-09, are 1095 days apart: a run on them shows the range message
    and nothing else after the widgets, whatever table was loaded and
    whatever countries are selected. *)
Theorem default_dates_are_rejected :
  forall (sel : list string) (w w1 : world) (df : loc) (f : frame),
    load_data read_csv w = Ok (w1, df) ->
    heap w1 !! df = Some f ->
    In (St_date_input "Start Date" min_date min_date max_date) (shown f) /\
    In (St_date_input "End Date" max_date min_date max_date) (shown f) /\
    main read_csv (mkinputs sel min_date max_date) w
      = (w1, shown f ++ [range_message], Returned).
Proof.
  intros sel w w1 df f Hload Hf.
  split; [unfold shown, widgets; apply in_or_app; right; simpl; tauto|].
  split; [unfold shown, widgets; apply in_or_app; right; simpl; tauto|].
  unfold main. rewrite Hload. cbv beta iota zeta.
  unfold frame in *. rewrite Hf. reflexivity.
Qed.

(** X16. When nothing is memoized and the data file is absent, [main]
    shows the title and the text and then stops with FileNotFoundError;
    when the file is there and [read_csv] raises on it, it stops the same
    way with the exception of the parser. In both cases no widget is shown
    and the world is unchanged (nothing is memoized). *)
Theorem main_without_data_file_raises :
  forall (inp : inputs) (w : world),
    cache w = None ->
    (files w !! csv_path = None ->
     main read_csv inp w = (w, header, Raised FileNotFoundError)) /\
    (forall content,
       files w !! csv_path = Some content -> read_csv content = None ->
       main read_csv inp w = (w, header, Raised ParserError)).
Proof.
  intros inp w Hc. unfold main, load_data, load_data_body. rewrite Hc. split.
  - intros ->. reflexivity.
  - intros content -> ->. reflexivity.
Qed.

(** X17. A run of [main] does not influence what later runs show: after
    any run, on any inputs, that loaded the table, a run shows the same
    things and ends the same way as it would have from the world before,
    although the first run normalized the date column of its table. *)
Theorem earlier_run_does_not_change_page :
  forall (inp inp' : inputs) (w w1 : world) (df : loc),
    load_data read_csv w = Ok (w1, df) ->
    let w' := fst (fst (main read_csv inp w)) in
    snd (fst (main read_csv inp' w')) = snd (fst (main read_csv inp' w)) /\
    snd (main read_csv inp' w') = snd (main read_csv inp' w).
Proof.
  intros inp inp' w w1 df Hload w'.
  destruct (load_data_table w w1 df Hload) as [f [Hf Hcache]].
  assert (Hc' : cache w' = Some f).
  { unfold w'. rewrite (main_cache inp w w1 df Hload). exact Hcache. }
  apply (main_page_of_table inp' w' _ w w1 _ df f
           (fresh_copy w' f Hc' read_csv)); [|exact Hload|exact Hf].
  cbn [heap]. apply lookup_insert_eq.
Qed.

(** X18. When both dates exist and the end date is before the start date,
    their difference in days is negative, so the range check lets them
    through and [main] always answers with the order message: dates in the
    wrong order never get the range message, however far apart they are. *)
Theorem reversed_dates_get_order_message :
  forall (inp : inputs) (w w1 : world) (df : loc) (f : frame),
    load_data read_csv w = Ok (w1, df) ->
    heap w1 !! df = Some f ->
    valid (start_date inp) -> valid (end_date inp) ->
    PyDate.lt (end_date inp) (start_date inp) ->
    days_between (start_date inp) (end_date inp) < 0 /\
    main read_csv inp w = (w1, shown f ++ [order_message], Returned).
Proof.
  intros inp w w1 df f Hload Hf Hs He Hlt.
  pose proof (toordinal_lt _ _ He Hs Hlt) as Hord.
  assert (Hneg : days_between (start_date inp) (end_date inp) < 0)
    by (unfold days_between; lia).
  split; [exact Hneg|].
  unfold main. rewrite Hload. cbv beta iota zeta.
  unfold frame in *. rewrite Hf. cbn [default].
  replace (days_between (start_date inp) (end_date inp) >? 365) with false
    by (symmetry; rewrite Z.gtb_ltb; apply Z.ltb_ge; lia).
  unfold PyDate.lt in Hlt. rewrite Hlt. reflexivity.
Qed.

End Pages.

End Tables.

#[local] Existing Instance small_totals.

Lemma derive_adds_two_columns_witness :
  map base (with_columns [ivory_coast_row] ["Cote d'Ivoire"%string] ["CIV"%string])
  = [ivory_coast_row].
Proof.
  apply (derive_adds_two_columns [ivory_coast_row]
           (with_columns [ivory_coast_row] ["Cote d'Ivoire"%string] ["CIV"%string])).
  reflexivity.
Defined.

Lemma missing_region_entry_fails_load_witness :
  exists e, derive [ivory_coast_row;
                    mkcsv (Day (mkdate 2020 4 1)) (written nameless) None None None []]
            = Raise e.
Proof.
  refine (proj2 (proj2 (missing_region_entry_fails_load nameless _
            (mkcsv (Day (mkdate 2020 4 1)) (written nameless) None None None []) _ _ _ _))).
  - discriminate.
  - left. reflexivity.
  - reflexivity.
  - right. left. reflexivity.
Defined.

Lemma load_data_memoized_witness :
  exists f,
    load_data (fun _ => None) (mkworld ∅ (Some f) ∅)
    = Ok (mkworld ∅ (Some f) (<[fresh (dom (∅ : gmap loc frame)) := f]> ∅),
          fresh (dom (∅ : gmap loc frame))).
Proof.
  destruct (load_data_memoized two_row_reader (fun _ => None)
              (mkworld one_file None ∅) _ _ ∅ eq_refl) as [f [_ [Hc [H _]]]].
  exists f. specialize (H ∅). rewrite Hc in H. exact H.
Defined.

Lemma process_data_again_witness :
  exists h1 agg,
    process_data 0%nat ["X"%string] (mkdate 2020 3 9) (mkdate 2021 3 9)
                 {[0%nat := two_iso_frame]} = Some (h1, agg) /\
    process_data 0%nat ["X"%string] (mkdate 2020 3 9) (mkdate 2021 3 9) h1 = Some (h1, agg).
Proof.
  destruct (process_data_again {[0%nat := two_iso_frame]} 0%nat two_iso_frame
              ["X"%string] ["X"%string] (mkdate 2020 3 9) (mkdate 2021 3 9)
              (mkdate 2020 3 9) (mkdate 2021 3 9)
              (lookup_singleton_eq 0%nat two_iso_frame)) as [h1 [agg [agg' [H1 [H2 H3]]]]].
  exists h1, agg'. split; assumption.
Defined.

Lemma process_data_empty_result_witness :
  process_data 0%nat [] (mkdate 2020 3 9) (mkdate 2021 3 9) {[0%nat := two_iso_frame]}
  = Some (<[0%nat := normalize_dates two_iso_frame]> {[0%nat := two_iso_frame]}, []).
Proof.
  destruct (process_data_empty_result {[0%nat := two_iso_frame]} 0%nat two_iso_frame
              [] (mkdate 2020 3 9) (mkdate 2021 3 9)
              (lookup_singleton_eq 0%nat two_iso_frame)) as [agg [H1 [_ [H2 _]]]].
  rewrite H1, (H2 eq_refl). reflexivity.
Defined.

Lemma aggregation_keeps_totals_witness :
  exists h' agg,
    process_data 0%nat ["X"%string] (mkdate 2020 3 9) (mkdate 2021 3 9)
                 {[0%nat := two_iso_frame]} = Some (h', agg) /\
    total a_confirmed agg = 12.
Proof.
  destruct (aggregation_keeps_totals {[0%nat := two_iso_frame]} 0%nat two_iso_frame
              ["X"%string] (mkdate 2020 3 9) (mkdate 2021 3 9)
              (lookup_singleton_eq 0%nat two_iso_frame)) as [h' [agg [H1 [H2 _]]]].
  exists h', agg. split; [exact H1|]. rewrite H2; [reflexivity|].
  cbn. split; [|reflexivity].
  repeat (apply List.Forall_cons || apply List.Forall_nil);
    (split; [vm_compute; discriminate | reflexivity]).
Defined.

Lemma map_data_sums_over_dates_witness :
  total m_confirmed (groupby_country (dtypes_of two_iso_frame)
                       (groupby_sum (dtypes_of two_iso_frame) two_iso_frame)) = 12.
Proof.
  destruct (map_data_sums_over_dates (dtypes_of two_iso_frame)
              (groupby_sum (dtypes_of two_iso_frame) two_iso_frame)) as [_ [_ [H _]]].
  destruct H as [_ H]; [|rewrite H; reflexivity].
  cbn. split; [|reflexivity].
  repeat (apply List.Forall_cons || apply List.Forall_nil);
    (split; [vm_compute; discriminate | reflexivity]).
Defined.


Lemma reversed_dates_get_order_message_witness :
  snd (fst (main two_row_reader (mkinputs ["X"%string] (mkdate 2023 3 9) (mkdate 2020 3 9))
                 (mkworld one_file None ∅)))
  = shown two_iso_frame ++ [order_message].
Proof.
  destruct (reversed_dates_get_order_message two_row_reader
              (mkinputs ["X"%string] (mkdate 2023 3 9) (mkdate 2020 3 9))
              (mkworld one_file None ∅) _ _ two_iso_frame eq_refl) as [_ H].
  - vm_compute. reflexivity.
  - reflexivity.
  - reflexivity.
  - reflexivity.
  - rewrite H. reflexivity.
Defined.

Lemma main_without_matching_rows_raises_witness :
  snd (main two_row_reader (mkinputs ["Y"%string] (mkdate 2020 3 9) (mkdate 2021 3 9))
            (mkworld one_file None ∅)) = Raised ArgmaxOfEmpty.
Proof.
  rewrite (main_without_matching_rows_raises two_row_reader
             (mkinputs ["Y"%string] (mkdate 2020 3 9) (mkdate 2021 3 9))
             (mkworld one_file None ∅) _ _ two_iso_frame eq_refl).
  - reflexivity.
  - vm_compute. reflexivity.
  - unfold accepted. cbn [start_date end_date selected_countries].
    split; [vm_compute; discriminate|]. split; [reflexivity | discriminate].
  - reflexivity.
Defined.

Lemma main_with_matching_rows_returns_witness :
  snd (main two_row_reader (mkinputs ["X"%string] (mkdate 2020 3 9) (mkdate 2021 3 9))
            (mkworld one_file None ∅)) = Returned.
Proof.
  destruct (main_with_matching_rows_returns two_row_reader
              (mkinputs ["X"%string] (mkdate 2020 3 9) (mkdate 2021 3 9))
              (mkworld one_file None ∅) _ _ two_iso_frame eq_refl)
    as [m1 [c1 [m2 [c2 [m3 [c3 [H _]]]]]]].
  - vm_compute. reflexivity.
  - unfold accepted. cbn [start_date end_date selected_countries].
    split; [vm_compute; discriminate|]. split; [reflexivity | discriminate].
  - discriminate.
  - rewrite H. reflexivity.
Defined.

Lemma default_dates_are_rejected_witness :
  snd (fst (main two_row_reader (mkinputs ["X"%string] min_date max_date)
                 (mkworld one_file None ∅)))
  = shown two_iso_frame ++ [range_message].
Proof.
  destruct (default_dates_are_rejected two_row_reader ["X"%string]
              (mkworld one_file None ∅) _ _ two_iso_frame eq_refl) as [_ [_ H]].
  - vm_compute. reflexivity.
  - rewrite H. reflexivity.
Defined.

Lemma main_without_data_file_raises_witness :
  main two_row_reader (mkinputs ["X"%string] min_date max_date) (mkworld ∅ None ∅)
  = (mkworld ∅ None ∅, header, Raised FileNotFoundError).
Proof.
  apply main_without_data_file_raises; reflexivity.
Defined.

Lemma earlier_run_does_not_change_page_witness :
  snd (main two_row_reader (mkinputs ["X"%string] (mkdate 2020 3 9) (mkdate 2021 3 9))
            (fst (fst (main two_row_reader
                            (mkinputs ["X"%string] (mkdate 2020 3 9) (mkdate 2021 3 9))
                            (mkworld one_file None ∅)))))
  = Returned.
Proof.
  destruct (earlier_run_does_not_change_page two_row_reader
              (mkinputs ["X"%string] (mkdate 2020 3 9) (mkdate 2021 3 9))
              (mkinputs ["X"%string] (mkdate 2020 3 9) (mkdate 2021 3 9))
              (mkworld one_file None ∅) _ _ eq_refl) as [_ H].
  rewrite H. vm_compute. reflexivity.
Defined.

End TableFacts.
